(** * Offline-first synchronisation engine

    Shallow embedding of the merge reconciler, the entity mapper, the
    deletion ledger and the sync orchestrator of [useSync.ts], of the remote
    push functions of [useOnlineData.ts], and of the attachment retention
    sweep [cleanupCloudStorage] of [useSupabaseData].

    Conventions of the embedding:
    - identifiers are strings; an absent property is [None];
    - a timestamp is the number of milliseconds since the epoch, as [Z]
      (what [new Date(x).getTime()] returns for a valid date);
    - a JS [Set<string>] that is only queried with [has] is a [gset string];
      a JS [Map] that is only read with [get] is a [gmap]; the [Map] whose
      [values()] are read back in insertion order is an association list;
    - remote rows are given in the property naming of the local records:
      [transformRemoteToLocal] and the column renaming done before an upsert
      only rename columns and parse dates, and are absorbed by the record
      types. *)

From stdpp Require Import gmap strings list.
From Stdlib Require Import ZArith.

Open Scope Z_scope.

(** ** Records seen through the reconciler

    [mergeItems] is generic in [T extends { id?, name?, updated_at? }]. *)

Class Syncable (T : Type) := {
  prop_id : T → option string;
  prop_name : T → option string;
  prop_updated_at : T → option Z;
}.

Section Reconciler.
Context {T : Type} `{Syncable T}.

(** [item.id ?? item.name] *)
Definition rawPk (item : T) : option string :=
  match prop_id item with
  | Some i => Some i
  | None => prop_name item
  end.

(** [(item.id ?? item.name ?? '').toString()] *)
Definition getPk (item : T) : string :=
  match rawPk item with
  | Some k => k
  | None => ""
  end.

(** [new Date(item.updated_at || 0).getTime()] *)
Definition getTime (item : T) : Z :=
  match prop_updated_at item with
  | Some t => t
  | None => 0
  end.

(** [remote.find(r => getPk(r) === id)] *)
Definition findByPk (id : string) (items : list T) : option T :=
  find (λ r, bool_decide (getPk r = id)) items.
End Reconciler.

(** The template string [`${tableName}:${id}`]. *)
Definition deletionKey (tableName id : string) : string :=
  tableName +:+ ":" +:+ id.

(** ** The insertion-ordered [Map<string, T>] behind [finalMap] *)

Module JsMap.
Section Ops.
Context {V : Type}.

Definition t := list (string * V).

Definition empty : t := [].

(** [m.set(k, v)]: an existing key keeps its position. *)
Fixpoint set (k : string) (v : V) (m : t) : t :=
  match m with
  | [] => [(k, v)]
  | (k', v') :: m' =>
      if decide (k' = k) then (k, v) :: m' else (k', v') :: set k v m'
  end.

Fixpoint get (k : string) (m : t) : option V :=
  match m with
  | [] => None
  | (k', v') :: m' => if decide (k' = k) then Some v' else get k m'
  end.

Definition has (k : string) (m : t) : bool :=
  match get k m with Some _ => true | None => false end.

(** [Array.from(m.values())] *)
Definition values (m : t) : list V := m.*2.
End Ops.
Arguments t : clear implicits.
End JsMap.

(** ** [mergeItems] *)

Record MergeResult (T : Type) := {
  merged : list T;
  toUpsert : list T;
}.
Arguments merged {T} _.
Arguments toUpsert {T} _.

Section MergeItems.
Context {T : Type} `{Syncable T}.
Variables (remote : list T) (deletedSet : gset string) (tableName : string).

(** Body of the loop [for (const localItem of local)]. *)
Definition mergeLocalStep (acc : JsMap.t T * list T) (localItem : T)
  : JsMap.t T * list T :=
  let '(finalMap, toUpsert) := acc in
  let id := getPk localItem in
  if decide (id = "") then acc
  else if decide (deletionKey tableName id ∈ deletedSet) then acc
  else match findByPk id remote with
       | Some remoteItem =>
           let localDate := getTime localItem in
           let remoteDate := getTime remoteItem in
           if bool_decide (localDate > remoteDate + 1000)
           then (JsMap.set id localItem finalMap, toUpsert ++ [localItem])
           else (JsMap.set id remoteItem finalMap, toUpsert)
       | None =>
           (JsMap.set id localItem finalMap, toUpsert ++ [localItem])
       end.

(** Body of the loop [for (const remoteItem of remote)]. *)
Definition mergeRemoteStep (finalMap : JsMap.t T) (remoteItem : T)
  : JsMap.t T :=
  let id := getPk remoteItem in
  if decide (id = "") then finalMap
  else if JsMap.has id finalMap then finalMap
  else if decide (deletionKey tableName id ∈ deletedSet) then finalMap
  else JsMap.set id remoteItem finalMap.

Definition mergeItems (local : list T) : MergeResult T :=
  let '(finalMap, toUpsert) :=
    fold_left mergeLocalStep local (JsMap.empty, []) in
  let finalMap := fold_left mergeRemoteStep remote finalMap in
  {| merged := JsMap.values finalMap; toUpsert := toUpsert |}.

(** The three tests that a local record passes before it is pushed. *)
Definition pushes (l : T) : Prop :=
  getPk l ≠ "" ∧ (deletionKey tableName (getPk l) ∉ deletedSet) ∧
  (∀ r, findByPk (getPk l) remote = Some r → getTime l > getTime r + 1000).

(** The value that the first loop stores for a local record that is neither
    keyless nor deleted. *)
Definition resolved (l : T) : T :=
  match findByPk (getPk l) remote with
  | Some r => if bool_decide (getTime l > getTime r + 1000) then l else r
  | None => l
  end.

(** Every entry of [finalMap] is filed under its own key, and that key is
    not deleted. *)
Definition cleanMap (m : JsMap.t T) : Prop :=
  ∀ k x, (k, x) ∈ m → getPk x = k ∧ deletionKey tableName k ∉ deletedSet.
End MergeItems.

(** ** Data model

    Modelled from the spec: the declarations of [../types] ([Client],
    [Case], [Stage], [Session], [Invoice], [InvoiceItem], [CaseDocument],
    [AccountingEntry], [AdminTask], [Appointment], [Profile],
    [SiteFinancialEntry], [AppData]) are missing. The records below list
    the properties that the engine reads or writes, under the names the
    sources use for them, and keep every other property in an uninterpreted
    bag. A nested entity is its flat row together with the array of its
    children, so that [{ ...row, children }] builds it and
    [({ children, ...row }) => row] strips it. *)

Definition Props := list (string * string).

Record Session := {
  session_id : string;
  session_stage_id : option string;
  session_updated_at : option Z;
  session_props : Props;
}.

Record StageRow := {
  stage_id : string;
  stage_case_id : option string;
  stage_updated_at : option Z;
  stage_props : Props;
}.

Record Stage := { stage_row : StageRow; sessions : list Session }.

Record CaseRow := {
  case_id : string;
  case_client_id : option string;
  case_updated_at : option Z;
  case_props : Props;
}.

Record Case := { case_row : CaseRow; stages : list Stage }.

Record ClientRow := {
  client_id : string;
  client_updated_at : option Z;
  client_props : Props;
}.

Record Client := { client_row : ClientRow; cases : list Case }.

Record InvoiceItem := {
  invoice_item_id : string;
  invoice_item_invoice_id : option string;
  invoice_item_updated_at : option Z;
  invoice_item_props : Props;
}.

(** An invoice names its client in [clientId]; [client_id] is the remote
    column, which [transformRemoteToLocal] removes from local rows. *)
Record InvoiceRow := {
  invoice_id : string;
  invoice_clientId : string;
  invoice_client_id : option string;
  invoice_updated_at : option Z;
  invoice_props : Props;
}.

Record Invoice := { invoice_row : InvoiceRow; items : list InvoiceItem }.

Inductive LocalState :=
  | pending_upload | pending_download | downloading
  | doc_synced | archived | doc_error | expired.

Record CaseDocument := {
  doc_id : string;
  doc_caseId : string;
  doc_addedAt : Z;
  doc_storagePath : string;
  doc_localState : LocalState;
  doc_updated_at : option Z;
  doc_props : Props;
}.

Record AccountingEntry := {
  entry_id : string;
  entry_clientId : option string;
  entry_updated_at : option Z;
  entry_props : Props;
}.

(** AdminTask, Appointment, Profile and SiteFinancialEntry: the engine reads
    only [id] and [updated_at] of them. *)
Record Entity := {
  entity_id : string;
  entity_updated_at : option Z;
  entity_props : Props;
}.

Record AssistantRow := { assistant_name : string }.

Record AppData := {
  clients : list Client;
  adminTasks : list Entity;
  appointments : list Entity;
  accountingEntries : list AccountingEntry;
  invoices : list Invoice;
  assistants : list string;
  documents : list CaseDocument;
  profiles : list Entity;
  siteFinances : list Entity;
}.

Record FlatData := {
  flat_clients : list ClientRow;
  flat_cases : list CaseRow;
  flat_stages : list StageRow;
  flat_sessions : list Session;
  flat_admin_tasks : list Entity;
  flat_appointments : list Entity;
  flat_accounting_entries : list AccountingEntry;
  flat_assistants : list AssistantRow;
  flat_invoices : list InvoiceRow;
  flat_invoice_items : list InvoiceItem;
  flat_case_documents : list CaseDocument;
  flat_profiles : list Entity;
  flat_site_finances : list Entity;
}.

#[global] Instance LocalState_eq_dec : EqDecision LocalState.
Proof. solve_decision. Defined.

(** The entities carry an [id], so [item.id ?? item.name] never reads their
    [name]; an entity's name, if it has one, is among its other
    properties. *)
#[global] Instance Session_syncable : Syncable Session :=
  {| prop_id s := Some (session_id s); prop_name _ := None;
     prop_updated_at := session_updated_at |}.
#[global] Instance StageRow_syncable : Syncable StageRow :=
  {| prop_id s := Some (stage_id s); prop_name _ := None;
     prop_updated_at := stage_updated_at |}.
#[global] Instance CaseRow_syncable : Syncable CaseRow :=
  {| prop_id c := Some (case_id c); prop_name _ := None;
     prop_updated_at := case_updated_at |}.
#[global] Instance ClientRow_syncable : Syncable ClientRow :=
  {| prop_id c := Some (client_id c); prop_name _ := None;
     prop_updated_at := client_updated_at |}.
#[global] Instance InvoiceItem_syncable : Syncable InvoiceItem :=
  {| prop_id i := Some (invoice_item_id i); prop_name _ := None;
     prop_updated_at := invoice_item_updated_at |}.
#[global] Instance InvoiceRow_syncable : Syncable InvoiceRow :=
  {| prop_id i := Some (invoice_id i); prop_name _ := None;
     prop_updated_at := invoice_updated_at |}.
#[global] Instance CaseDocument_syncable : Syncable CaseDocument :=
  {| prop_id d := Some (doc_id d); prop_name _ := None;
     prop_updated_at := doc_updated_at |}.
#[global] Instance AccountingEntry_syncable : Syncable AccountingEntry :=
  {| prop_id e := Some (entry_id e); prop_name _ := None;
     prop_updated_at := entry_updated_at |}.
#[global] Instance Entity_syncable : Syncable Entity :=
  {| prop_id e := Some (entity_id e); prop_name _ := None;
     prop_updated_at := entity_updated_at |}.
(** [{ name }]: no [id], no [updated_at]. *)
#[global] Instance AssistantRow_syncable : Syncable AssistantRow :=
  {| prop_id _ := None; prop_name a := Some (assistant_name a);
     prop_updated_at _ := None |}.

(** ** Entity mapper *)

(** [{ ...cs, client_id: c.id }] and its siblings. *)
Definition with_client_id (v : string) (cs : Case) : Case :=
  {| case_row :=
       {| case_id := case_id (case_row cs); case_client_id := Some v;
          case_updated_at := case_updated_at (case_row cs);
          case_props := case_props (case_row cs) |};
     stages := stages cs |}.

Definition with_case_id (v : string) (st : Stage) : Stage :=
  {| stage_row :=
       {| stage_id := stage_id (stage_row st); stage_case_id := Some v;
          stage_updated_at := stage_updated_at (stage_row st);
          stage_props := stage_props (stage_row st) |};
     sessions := sessions st |}.

Definition with_stage_id (v : string) (s : Session) : Session :=
  {| session_id := session_id s; session_stage_id := Some v;
     session_updated_at := session_updated_at s;
     session_props := session_props s |}.

Definition with_invoice_id (v : string) (i : InvoiceItem) : InvoiceItem :=
  {| invoice_item_id := invoice_item_id i;
     invoice_item_invoice_id := Some v;
     invoice_item_updated_at := invoice_item_updated_at i;
     invoice_item_props := invoice_item_props i |}.

Definition flattenData (data : AppData) : FlatData :=
  let cases :=
    flat_map (λ c, map (with_client_id (client_id (client_row c))) (cases c))
             (clients data) in
  let stages :=
    flat_map (λ cs, map (with_case_id (case_id (case_row cs))) (stages cs))
             cases in
  let sessions :=
    flat_map (λ st, map (with_stage_id (stage_id (stage_row st))) (sessions st))
             stages in
  let invoice_items :=
    flat_map (λ inv, map (with_invoice_id (invoice_id (invoice_row inv)))
                         (items inv))
             (invoices data) in
  {| flat_clients := map client_row (clients data);
     flat_cases := map case_row cases;
     flat_stages := map stage_row stages;
     flat_sessions := sessions;
     flat_admin_tasks := adminTasks data;
     flat_appointments := appointments data;
     flat_accounting_entries := accountingEntries data;
     flat_assistants := map Build_AssistantRow (assistants data);
     flat_invoices := map invoice_row (invoices data);
     flat_invoice_items := invoice_items;
     flat_case_documents := documents data;
     flat_profiles := profiles data;
     flat_site_finances := siteFinances data |}.

(** [if (!m.has(k)) m.set(k, []); m.get(k)!.push(v)]; the key is read from
    a property that may be absent. *)
Definition groupPush {V : Type} (m : gmap (option string) (list V))
    (k : option string) (v : V) : gmap (option string) (list V) :=
  <[k := default [] (m !! k) ++ [v]]> m.

(** [m.get(k) || []] *)
Definition groupGet {V : Type} (m : gmap (option string) (list V))
    (k : string) : list V :=
  default [] (m !! Some k).

(** [Array.from(new Set(names))]: first occurrences, in order. *)
Fixpoint uniqueNames (seen : gset string) (names : list string) : list string :=
  match names with
  | [] => []
  | n :: rest =>
      if decide (n ∈ seen) then uniqueNames seen rest
      else n :: uniqueNames ({[n]} ∪ seen) rest
  end.

Definition constructData (flatData : FlatData) : AppData :=
  let sessionMap :=
    fold_left (λ m s, groupPush m (session_stage_id s) s)
              (flat_sessions flatData) ∅ in
  let stageMap :=
    fold_left (λ m st,
                 let stage := {| stage_row := st;
                                 sessions := groupGet sessionMap (stage_id st) |} in
                 groupPush m (stage_case_id st) stage)
              (flat_stages flatData) ∅ in
  let caseMap :=
    fold_left (λ m cs,
                 let caseItem := {| case_row := cs;
                                    stages := groupGet stageMap (case_id cs) |} in
                 groupPush m (case_client_id cs) caseItem)
              (flat_cases flatData) ∅ in
  let invoiceItemMap :=
    fold_left (λ m item, groupPush m (invoice_item_invoice_id item) item)
              (flat_invoice_items flatData) ∅ in
  {| clients :=
       map (λ c, {| client_row := c; cases := groupGet caseMap (client_id c) |})
           (flat_clients flatData);
     adminTasks := flat_admin_tasks flatData;
     appointments := flat_appointments flatData;
     accountingEntries := flat_accounting_entries flatData;
     assistants :=
       filter (λ n, n ≠ "")
              (uniqueNames ∅ (map assistant_name (flat_assistants flatData)));
     invoices :=
       map (λ inv, {| invoice_row := inv;
                      items := groupGet invoiceItemMap (invoice_id inv) |})
           (flat_invoices flatData);
     documents := flat_case_documents flatData;
     profiles := flat_profiles flatData;
     siteFinances := flat_site_finances flatData |}.

(** ** Deletion ledger *)

(** Modelled from the spec: the declaration of [SyncDeletion] in [../types]
    is missing. A remote tombstone, with the properties the sources read;
    [deleted_at] is assigned by the remote store and is taken as always
    present and a valid date. *)
Record SyncDeletion := {
  table_name : string;
  record_id : string;
  deleted_at : Z;
}.

(** Modelled from the spec: the declaration of [DeletedIds] in [../types]
    is missing. The locally pending deletions, with the lists that
    [manualSync] and the delete mutators read and write. *)
Record DeletedIds := {
  deleted_clients : list string;
  deleted_cases : list string;
  deleted_stages : list string;
  deleted_sessions : list string;
  deleted_adminTasks : list string;
  deleted_appointments : list string;
  deleted_accountingEntries : list string;
  deleted_assistants : list string;
  deleted_invoices : list string;
  deleted_invoiceItems : list string;
  deleted_documents : list string;
  deleted_siteFinances : list string;
  deleted_documentPaths : list string;
}.

(** Modelled from the spec: [getInitialDeletedIds] of [../types] is missing;
    it yields the ledger with every pending list empty. *)
Definition getInitialDeletedIds : DeletedIds :=
  {| deleted_clients := []; deleted_cases := []; deleted_stages := [];
     deleted_sessions := []; deleted_adminTasks := [];
     deleted_appointments := []; deleted_accountingEntries := [];
     deleted_assistants := []; deleted_invoices := [];
     deleted_invoiceItems := []; deleted_documents := [];
     deleted_siteFinances := []; deleted_documentPaths := [] |}.

(** [deletionMap]: Table:RecordID -> DeletedAt; a later entry of the log
    overwrites an earlier one for the same key. *)
Definition deletionMapOf (deletions : list SyncDeletion) : gmap string Z :=
  fold_left
    (λ m d, <[deletionKey (table_name d) (record_id d) := deleted_at d]> m)
    deletions ∅.

Section FilterItems.
Context {T : Type} `{Syncable T}.

(** [item.id ?? item.name] inside a template string. *)
Definition pkText (item : T) : string :=
  match rawPk item with
  | Some k => k
  | None => "undefined"
  end.

(** The predicate of [items.filter(item => ...)] in [filterItems]. *)
Definition survivesDeletion (deletionMap : gmap string Z) (tableName : string)
    (item : T) : bool :=
  match deletionMap !! deletionKey tableName (pkText item) with
  | Some deletedAt =>
      let updatedAt := getTime item in
      if bool_decide (updatedAt < deletedAt + 2000) then false else true
  | None => true
  end.

Definition filterItems (deletionMap : gmap string Z) (items : list T)
    (tableName : string) : list T :=
  List.filter (survivesDeletion deletionMap tableName) items.
End FilterItems.

(** [ids.has(v)] for a property [v] that may be absent. *)
Definition hasId (ids : gset string) (v : option string) : bool :=
  match v with
  | Some x => bool_decide (x ∈ ids)
  | None => false
  end.

(** [!v || ids.has(v)] *)
Definition emptyOrHasId (ids : gset string) (v : option string) : bool :=
  match v with
  | None => true
  | Some x => bool_decide (x = "") || bool_decide (x ∈ ids)
  end.

Definition applyDeletionsToLocal (localFlatData : FlatData)
    (deletions : list SyncDeletion) : FlatData :=
  match deletions with
  | [] => localFlatData
  | _ =>
    let deletionMap := deletionMapOf deletions in
    let clients := filterItems deletionMap (flat_clients localFlatData) "clients" in
    let clientIds : gset string := list_to_set (map client_id clients) in
    let cases :=
      List.filter (λ c, hasId clientIds (case_client_id c))
        (filterItems deletionMap (flat_cases localFlatData) "cases") in
    let caseIds : gset string := list_to_set (map case_id cases) in
    let stages :=
      List.filter (λ s, hasId caseIds (stage_case_id s))
        (filterItems deletionMap (flat_stages localFlatData) "stages") in
    let stageIds : gset string := list_to_set (map stage_id stages) in
    let sessions :=
      List.filter (λ s, hasId stageIds (session_stage_id s))
        (filterItems deletionMap (flat_sessions localFlatData) "sessions") in
    let invoices :=
      List.filter (λ i, hasId clientIds (invoice_client_id i))
        (filterItems deletionMap (flat_invoices localFlatData) "invoices") in
    let invoiceIds : gset string := list_to_set (map invoice_id invoices) in
    let invoice_items :=
      List.filter (λ i, hasId invoiceIds (invoice_item_invoice_id i))
        (filterItems deletionMap (flat_invoice_items localFlatData)
           "invoice_items") in
    let case_documents :=
      List.filter (λ d, bool_decide (doc_caseId d ∈ caseIds))
        (filterItems deletionMap (flat_case_documents localFlatData)
           "case_documents") in
    let accounting_entries :=
      List.filter (λ e, emptyOrHasId clientIds (entry_clientId e))
        (filterItems deletionMap (flat_accounting_entries localFlatData)
           "accounting_entries") in
    {| flat_clients := clients;
       flat_cases := cases;
       flat_stages := stages;
       flat_sessions := sessions;
       flat_admin_tasks :=
         filterItems deletionMap (flat_admin_tasks localFlatData) "admin_tasks";
       flat_appointments :=
         filterItems deletionMap (flat_appointments localFlatData) "appointments";
       flat_accounting_entries := accounting_entries;
       flat_assistants :=
         filterItems deletionMap (flat_assistants localFlatData) "assistants";
       flat_invoices := invoices;
       flat_invoice_items := invoice_items;
       flat_case_documents := case_documents;
       flat_profiles := flat_profiles localFlatData;
       flat_site_finances :=
         filterItems deletionMap (flat_site_finances localFlatData)
           "site_finances" |}
  end.

(** [Object.entries(deletedIds)] with the key renamed to the remote table
    as in [manualSync] (source line 225); [documents] and [documentPaths]
    are not renamed. *)
Definition deletedIdsEntries (d : DeletedIds) : list (string * list string) :=
  [ ("clients", deleted_clients d);
    ("cases", deleted_cases d);
    ("stages", deleted_stages d);
    ("sessions", deleted_sessions d);
    ("admin_tasks", deleted_adminTasks d);
    ("appointments", deleted_appointments d);
    ("accounting_entries", deleted_accountingEntries d);
    ("assistants", deleted_assistants d);
    ("invoices", deleted_invoices d);
    ("invoice_items", deleted_invoiceItems d);
    ("documents", deleted_documents d);
    ("site_finances", deleted_siteFinances d);
    ("documentPaths", deleted_documentPaths d) ].

(** [deletedKeys] of [manualSync]: remote tombstones and locally pending
    deletions. *)
Definition deletedKeysOf (remoteDeletions : list SyncDeletion)
    (deletedIds : DeletedIds) : gset string :=
  let s1 :=
    fold_left (λ s d, {[deletionKey (table_name d) (record_id d)]} ∪ s)
              remoteDeletions (∅ : gset string) in
  fold_left
    (λ s entry, fold_left (λ s id, {[deletionKey entry.1 id]} ∪ s) entry.2 s)
    (deletedIdsEntries deletedIds) s1.

(** The loop [for (const table of tables)] of [manualSync], one call of
    [mergeItems] per table. *)
Definition mergeTables (localFlatData remoteFlatData : FlatData)
    (deletedKeys : gset string) : FlatData * FlatData :=
  let clients := mergeItems (flat_clients remoteFlatData) deletedKeys "clients"
                   (flat_clients localFlatData) in
  let cases := mergeItems (flat_cases remoteFlatData) deletedKeys "cases"
                 (flat_cases localFlatData) in
  let stages := mergeItems (flat_stages remoteFlatData) deletedKeys "stages"
                  (flat_stages localFlatData) in
  let sessions := mergeItems (flat_sessions remoteFlatData) deletedKeys "sessions"
                    (flat_sessions localFlatData) in
  let admin_tasks :=
    mergeItems (flat_admin_tasks remoteFlatData) deletedKeys "admin_tasks"
      (flat_admin_tasks localFlatData) in
  let appointments :=
    mergeItems (flat_appointments remoteFlatData) deletedKeys "appointments"
      (flat_appointments localFlatData) in
  let accounting_entries :=
    mergeItems (flat_accounting_entries remoteFlatData) deletedKeys
      "accounting_entries" (flat_accounting_entries localFlatData) in
  let assistants :=
    mergeItems (flat_assistants remoteFlatData) deletedKeys "assistants"
      (flat_assistants localFlatData) in
  let invoices := mergeItems (flat_invoices remoteFlatData) deletedKeys "invoices"
                    (flat_invoices localFlatData) in
  let invoice_items :=
    mergeItems (flat_invoice_items remoteFlatData) deletedKeys "invoice_items"
      (flat_invoice_items localFlatData) in
  let case_documents :=
    mergeItems (flat_case_documents remoteFlatData) deletedKeys "case_documents"
      (flat_case_documents localFlatData) in
  let profiles := mergeItems (flat_profiles remoteFlatData) deletedKeys "profiles"
                    (flat_profiles localFlatData) in
  let site_finances :=
    mergeItems (flat_site_finances remoteFlatData) deletedKeys "site_finances"
      (flat_site_finances localFlatData) in
  ({| flat_clients := merged clients; flat_cases := merged cases;
      flat_stages := merged stages; flat_sessions := merged sessions;
      flat_admin_tasks := merged admin_tasks;
      flat_appointments := merged appointments;
      flat_accounting_entries := merged accounting_entries;
      flat_assistants := merged assistants; flat_invoices := merged invoices;
      flat_invoice_items := merged invoice_items;
      flat_case_documents := merged case_documents;
      flat_profiles := merged profiles;
      flat_site_finances := merged site_finances |},
   {| flat_clients := toUpsert clients; flat_cases := toUpsert cases;
      flat_stages := toUpsert stages; flat_sessions := toUpsert sessions;
      flat_admin_tasks := toUpsert admin_tasks;
      flat_appointments := toUpsert appointments;
      flat_accounting_entries := toUpsert accounting_entries;
      flat_assistants := toUpsert assistants; flat_invoices := toUpsert invoices;
      flat_invoice_items := toUpsert invoice_items;
      flat_case_documents := toUpsert case_documents;
      flat_profiles := toUpsert profiles;
      flat_site_finances := toUpsert site_finances |}).

(** ** Effects of the orchestrator

    A run is recorded as the list of the calls it makes, in order: the
    callbacks of the hook ([onSyncStatusChange], [onDataSynced],
    [onDeletionsSynced]) and the requests sent to the remote store. A thrown
    [Error] carries its message and, when set, the [table] tag. *)

Inductive SyncStatus :=
  | loading | syncing | synced | error | unconfigured | uninitialized.

#[global] Instance SyncStatus_eq_dec : EqDecision SyncStatus.
Proof. solve_decision. Defined.

Record JsError := { message : string; table : option string }.

(** A row of any table, as it travels to and from the remote store. *)
Inductive Row :=
  | ClientR (r : ClientRow)
  | CaseR (r : CaseRow)
  | StageR (r : StageRow)
  | SessionR (r : Session)
  | EntityR (r : Entity)
  | AccountingR (r : AccountingEntry)
  | AssistantR (r : AssistantRow)
  | InvoiceR (r : InvoiceRow)
  | InvoiceItemR (r : InvoiceItem)
  | DocumentR (r : CaseDocument).

#[global] Instance Row_syncable : Syncable Row :=
  {| prop_id row :=
       match row with
       | ClientR r => prop_id r | CaseR r => prop_id r | StageR r => prop_id r
       | SessionR r => prop_id r | EntityR r => prop_id r
       | AccountingR r => prop_id r | AssistantR r => prop_id r
       | InvoiceR r => prop_id r | InvoiceItemR r => prop_id r
       | DocumentR r => prop_id r
       end;
     prop_name row :=
       match row with
       | ClientR r => prop_name r | CaseR r => prop_name r
       | StageR r => prop_name r | SessionR r => prop_name r
       | EntityR r => prop_name r | AccountingR r => prop_name r
       | AssistantR r => prop_name r | InvoiceR r => prop_name r
       | InvoiceItemR r => prop_name r | DocumentR r => prop_name r
       end;
     prop_updated_at row :=
       match row with
       | ClientR r => prop_updated_at r | CaseR r => prop_updated_at r
       | StageR r => prop_updated_at r | SessionR r => prop_updated_at r
       | EntityR r => prop_updated_at r | AccountingR r => prop_updated_at r
       | AssistantR r => prop_updated_at r | InvoiceR r => prop_updated_at r
       | InvoiceItemR r => prop_updated_at r | DocumentR r => prop_updated_at r
       end |}.

(** The rows of a typed table among all rows; reading a row back at the
    type of a table keeps its primary key. *)
Class RowType (R : Type) `{Syncable R} := {
  toRow : R → Row;
  ofRow : Row → option R;
  ofRow_rawPk : ∀ row r, ofRow row = Some r → rawPk r = rawPk row;
}.

#[global] Instance ClientRow_rows : RowType ClientRow :=
  {| toRow := ClientR; ofRow row := match row with ClientR r => Some r | _ => None end;
     ofRow_rawPk := ltac:(by intros [] ? [= <-]) |}.
#[global] Instance CaseRow_rows : RowType CaseRow :=
  {| toRow := CaseR; ofRow row := match row with CaseR r => Some r | _ => None end;
     ofRow_rawPk := ltac:(by intros [] ? [= <-]) |}.
#[global] Instance StageRow_rows : RowType StageRow :=
  {| toRow := StageR; ofRow row := match row with StageR r => Some r | _ => None end;
     ofRow_rawPk := ltac:(by intros [] ? [= <-]) |}.
#[global] Instance Session_rows : RowType Session :=
  {| toRow := SessionR; ofRow row := match row with SessionR r => Some r | _ => None end;
     ofRow_rawPk := ltac:(by intros [] ? [= <-]) |}.
#[global] Instance Entity_rows : RowType Entity :=
  {| toRow := EntityR; ofRow row := match row with EntityR r => Some r | _ => None end;
     ofRow_rawPk := ltac:(by intros [] ? [= <-]) |}.
#[global] Instance AccountingEntry_rows : RowType AccountingEntry :=
  {| toRow := AccountingR;
     ofRow row := match row with AccountingR r => Some r | _ => None end;
     ofRow_rawPk := ltac:(by intros [] ? [= <-]) |}.
#[global] Instance AssistantRow_rows : RowType AssistantRow :=
  {| toRow := AssistantR;
     ofRow row := match row with AssistantR r => Some r | _ => None end;
     ofRow_rawPk := ltac:(by intros [] ? [= <-]) |}.
#[global] Instance InvoiceRow_rows : RowType InvoiceRow :=
  {| toRow := InvoiceR; ofRow row := match row with InvoiceR r => Some r | _ => None end;
     ofRow_rawPk := ltac:(by intros [] ? [= <-]) |}.
#[global] Instance InvoiceItem_rows : RowType InvoiceItem :=
  {| toRow := InvoiceItemR;
     ofRow row := match row with InvoiceItemR r => Some r | _ => None end;
     ofRow_rawPk := ltac:(by intros [] ? [= <-]) |}.
#[global] Instance CaseDocument_rows : RowType CaseDocument :=
  {| toRow := DocumentR;
     ofRow row := match row with DocumentR r => Some r | _ => None end;
     ofRow_rawPk := ltac:(by intros [] ? [= <-]) |}.

Inductive Effect :=
  | SetStatus (status : SyncStatus) (error : option string)
  | OnDataSynced (mergedData : AppData)
  | OnDeletionsSynced (syncedDeletions : DeletedIds)
  | StorageRemove (paths : list string)
  | DeleteRows (table pk : string) (ids : list string)
  | UpsertRows (table : string) (rows : list Row) (user_id : string).

(** The trace of a computation and how it ends: a thrown error or a value. *)
Definition M (A : Type) : Type := list Effect * (JsError + A).

#[global] Instance M_ret : MRet M := λ A a, ([], inr a).

#[global] Instance M_bind : MBind M := λ A B k m,
  match m with
  | (t, inl e) => (t, inl e)
  | (t, inr a) => let '(t', r) := k a in (t ++ t', r)
  end.

Definition throw {A : Type} (e : JsError) : M A := ([], inl e).

Definition emit (e : Effect) : M unit := ([e], inr ()).

(** [try { m } catch (err) { handler(err) }] *)
Definition tryCatch {A : Type} (m : M A) (handler : JsError → M A) : M A :=
  match m with
  | (t, inl e) => let '(t', r) := handler e in (t ++ t', r)
  | (t, inr a) => (t, inr a)
  end.

(** [new Error(msg)] *)
Definition newError (msg : string) : JsError :=
  {| message := msg; table := None |}.

Fixpoint forEachTable (body : string → M unit) (tables : list string) : M unit :=
  match tables with
  | [] => mret ()
  | table :: rest => body table;; forEachTable body rest
  end.

(** ** Remote gateway

    What the remote store answers during one run. The answers are inputs of
    the model; the engine is a function of them. *)

Record SchemaCheck := {
  success : bool;
  check_error : option string;
  check_message : string;
}.

Record Gateway := {
  (** [getSupabaseClient()] is not null *)
  client_available : bool;
  (** outcome of the per-table probes of [checkSupabaseSchema] *)
  schema_probe : SchemaCheck;
  (** the thirteen selects of [fetchDataFromSupabase]: the message of the
      error thrown for the first failed one, or the rows *)
  select_all : string + FlatData;
  (** the select on [sync_deletions]; [None] when it fails *)
  select_deletions : option (list SyncDeletion);
  (** [storage.from('documents').remove(paths)]: [true] when [error] is set *)
  storage_remove : list string → bool;
  (** [from(table).delete().in(pk, ids)]: the message of [error], if any *)
  delete_in : string → list string → option string;
  (** [from(table).upsert(records).select()]: the message of [error], or
      the rows returned *)
  upsert_select : string → list Row → string + list Row;
}.

Definition checkSupabaseSchema (gw : Gateway) : SchemaCheck :=
  if client_available gw then schema_probe gw
  else {| success := false; check_error := Some "unconfigured";
          check_message := "Supabase client is not configured." |}.

Definition fetchDataFromSupabase (gw : Gateway) : M FlatData :=
  if client_available gw then
    match select_all gw with
    | inl msg => throw (newError msg)
    | inr flatData => mret flatData
    end
  else throw (newError "Supabase client not available.").

(** Never rejects: a failed select is logged and yields the empty log. *)
Definition fetchDeletionsFromSupabase (gw : Gateway) : list SyncDeletion :=
  if client_available gw then default [] (select_deletions gw) else [].

(** ** Deletion push *)

Definition deletionOrder : list string :=
  [ "case_documents"; "invoice_items"; "sessions"; "stages"; "cases";
    "invoices"; "admin_tasks"; "appointments"; "accounting_entries";
    "assistants"; "clients"; "site_finances"; "profiles" ].

(** The tables of [deletionOrder] for which [table !== 'profiles']: those
    whose deletions are to be logged in [sync_deletions]. *)
Definition loggedTables : list string :=
  [ "case_documents"; "invoice_items"; "sessions"; "stages"; "cases";
    "invoices"; "admin_tasks"; "appointments"; "accounting_entries";
    "assistants"; "clients"; "site_finances" ].

(** The TypeError that the call of a property which is not a function
    raises, here [catch] on a query builder. The wording of the message is
    the engine's; this is the one of V8. The error has no [table]. *)
Definition catchTypeError : JsError :=
  {| message :=
       "supabase.from(...).insert(...).select(...).catch is not a function";
     table := None |}.

(** Body of the loop [for (const table of deletionOrder)]. [deletions]
    gives, per table, the primary keys [itemsToDelete.map(i => i[pk])]; a
    table that is absent has none.

    For every table but [profiles] the ids are first to be logged, by
    [await supabase.from('sync_deletions').insert(logEntries).select()
    .catch(() => {})]. The query builders of supabase-js are thenables:
    they have [then] and no [catch]. Evaluating the operand of [await]
    therefore throws a TypeError before the builder is awaited: the insert
    is not sent and the delete request below is not reached. The delete
    request is reached for [profiles] only. *)
Definition deleteTable (gw : Gateway) (deletions : string → list string)
    (user_id : string) (table : string) : M unit :=
  let ids := deletions table in
  match ids with
  | [] => mret ()
  | _ :: _ =>
      let pk := if decide (table = "assistants") then "name" else "id" in
      (if decide (table ≠ "profiles")
       then throw catchTypeError
       else mret ());;
      emit (DeleteRows table pk ids);;
      match delete_in gw table ids with
      | Some msg => throw {| message := msg; table := Some table |}
      | None => mret ()
      end
  end.

Definition deleteDataFromSupabase (gw : Gateway)
    (deletions : string → list string) (user_id : string) : M unit :=
  if client_available gw
  then forEachTable (deleteTable gw deletions user_id) deletionOrder
  else throw (newError "Supabase client not available.").

(** ** Upsert push *)

Section UpsertBatches.
Variable data : FlatData.

Definition validClientIds : gset string :=
  list_to_set (map client_id (flat_clients data)).
Definition validCaseIds : gset string :=
  list_to_set (map case_id (flat_cases data)).
Definition validStageIds : gset string :=
  list_to_set (map stage_id (flat_stages data)).
Definition validInvoiceIds : gset string :=
  list_to_set (map invoice_id (flat_invoices data)).

(** The records handed to [upsertTable] for each filtered table, before the
    [user_id] column is added. *)
Definition casesBatch : list CaseRow :=
  List.filter (λ c, hasId validClientIds (case_client_id c)) (flat_cases data).
Definition stagesBatch : list StageRow :=
  List.filter (λ s, hasId validCaseIds (stage_case_id s)) (flat_stages data).
Definition sessionsBatch : list Session :=
  List.filter (λ s, hasId validStageIds (session_stage_id s))
    (flat_sessions data).
Definition invoicesBatch : list InvoiceRow :=
  List.filter (λ i, bool_decide (invoice_clientId i ∈ validClientIds))
    (flat_invoices data).
Definition invoiceItemsBatch : list InvoiceItem :=
  List.filter (λ i, hasId validInvoiceIds (invoice_item_invoice_id i))
    (flat_invoice_items data).
Definition caseDocumentsBatch : list CaseDocument :=
  List.filter (λ d, bool_decide (doc_caseId d ∈ validCaseIds))
    (flat_case_documents data).
End UpsertBatches.

(** [upsertTable]: nothing is sent for an empty batch. Rows returned for a
    table are read back at the type of that table. *)
Definition upsertTable {R : Type} `{RowType R} (gw : Gateway) (user_id : string)
    (table : string) (records : list R) : M (list R) :=
  match records with
  | [] => mret []
  | _ :: _ =>
      emit (UpsertRows table (map toRow records) user_id);;
      match upsert_select gw table (map toRow records) with
      | inl msg => throw (newError (table +:+ " upsert error: " +:+ msg))
      | inr resData => mret (omap ofRow resData)
      end
  end.

Definition upsertDataToSupabase (gw : Gateway) (data : FlatData)
    (user_id : string) : M FlatData :=
  if client_available gw then
    profiles ← upsertTable gw user_id "profiles" (flat_profiles data);
    assistants ← upsertTable gw user_id "assistants" (flat_assistants data);
    clients ← upsertTable gw user_id "clients" (flat_clients data);
    cases ← upsertTable gw user_id "cases" (casesBatch data);
    stages ← upsertTable gw user_id "stages" (stagesBatch data);
    sessions ← upsertTable gw user_id "sessions" (sessionsBatch data);
    invoices ← upsertTable gw user_id "invoices" (invoicesBatch data);
    invoice_items ←
      upsertTable gw user_id "invoice_items" (invoiceItemsBatch data);
    case_documents ←
      upsertTable gw user_id "case_documents" (caseDocumentsBatch data);
    admin_tasks ← upsertTable gw user_id "admin_tasks" (flat_admin_tasks data);
    appointments ←
      upsertTable gw user_id "appointments" (flat_appointments data);
    accounting_entries ←
      upsertTable gw user_id "accounting_entries" (flat_accounting_entries data);
    site_finances ←
      upsertTable gw user_id "site_finances" (flat_site_finances data);
    mret {| flat_clients := clients; flat_cases := cases;
            flat_stages := stages; flat_sessions := sessions;
            flat_admin_tasks := admin_tasks;
            flat_appointments := appointments;
            flat_accounting_entries := accounting_entries;
            flat_assistants := assistants; flat_invoices := invoices;
            flat_invoice_items := invoice_items;
            flat_case_documents := case_documents;
            flat_profiles := profiles;
            flat_site_finances := site_finances |}
  else throw (newError "Supabase client not available.").

(** ** Sync orchestrator *)

Record UseSyncProps := {
  (** [user.id], or [None] for [null] *)
  user : option string;
  localData : AppData;
  deletedIds : DeletedIds;
  isOnline : bool;
  isAuthLoading : bool;
  syncStatus : SyncStatus;
}.

(** [flatDeletes] of [manualSync]: the pending ids per remote table. *)
Definition flatDeletesEntries (d : DeletedIds) : list (string * list string) :=
  [ ("clients", deleted_clients d);
    ("cases", deleted_cases d);
    ("stages", deleted_stages d);
    ("sessions", deleted_sessions d);
    ("admin_tasks", deleted_adminTasks d);
    ("appointments", deleted_appointments d);
    ("accounting_entries", deleted_accountingEntries d);
    ("assistants", deleted_assistants d);
    ("invoices", deleted_invoices d);
    ("invoice_items", deleted_invoiceItems d);
    ("case_documents", deleted_documents d);
    ("site_finances", deleted_siteFinances d) ].

(** [flatDeletes[table]], empty when the table has no entry. *)
Definition flatDeletes (d : DeletedIds) (table : string) : list string :=
  match find (λ entry, bool_decide (entry.1 = table)) (flatDeletesEntries d) with
  | Some entry => entry.2
  | None => []
  end.

(** [Object.values(flatDeletes).some(arr => arr && arr.length > 0)] *)
Definition anyFlatDeletes (d : DeletedIds) : bool :=
  existsb (λ entry, match entry.2 with [] => false | _ :: _ => true end)
          (flatDeletesEntries d).

(** [Object.values(upsertedFlatData)], table after table. *)
Definition allRows (u : FlatData) : list Row :=
  map toRow (flat_clients u) ++ map toRow (flat_cases u)
  ++ map toRow (flat_stages u) ++ map toRow (flat_sessions u)
  ++ map toRow (flat_admin_tasks u) ++ map toRow (flat_appointments u)
  ++ map toRow (flat_accounting_entries u) ++ map toRow (flat_assistants u)
  ++ map toRow (flat_invoices u) ++ map toRow (flat_invoice_items u)
  ++ map toRow (flat_case_documents u) ++ map toRow (flat_profiles u)
  ++ map toRow (flat_site_finances u).

(** [upsertedMap], keyed by [item.id ?? item.name] across all tables. *)
Definition upsertedMapOf (u : FlatData) : gmap (option string) Row :=
  fold_left (λ m row, <[rawPk row := row]> m) (allRows u) ∅.

(** [upsertedMap.get(item.id ?? item.name) || item]. The map is keyed
    across all tables, and the tables of the model are typed: each holds
    rows of its own table, as the data model has them. When the map files
    a row of another table under the key of an item, the code puts that
    row into the table of the item; the typed table cannot hold it, and
    [refreshItem] keeps the item. The key of the entry is the same either
    way, and the keys are all that is proved of the refreshed tables. *)
Definition refreshItem {R : Type} `{RowType R}
    (upsertedMap : gmap (option string) Row) (item : R) : R :=
  match upsertedMap !! rawPk item with
  | Some row => match ofRow row with
                | Some r => r
                | None => item
                end
  | None => item
  end.

Definition refreshTables (upsertedMap : gmap (option string) Row)
    (m : FlatData) : FlatData :=
  {| flat_clients := map (refreshItem upsertedMap) (flat_clients m);
     flat_cases := map (refreshItem upsertedMap) (flat_cases m);
     flat_stages := map (refreshItem upsertedMap) (flat_stages m);
     flat_sessions := map (refreshItem upsertedMap) (flat_sessions m);
     flat_admin_tasks := map (refreshItem upsertedMap) (flat_admin_tasks m);
     flat_appointments := map (refreshItem upsertedMap) (flat_appointments m);
     flat_accounting_entries :=
       map (refreshItem upsertedMap) (flat_accounting_entries m);
     flat_assistants := map (refreshItem upsertedMap) (flat_assistants m);
     flat_invoices := map (refreshItem upsertedMap) (flat_invoices m);
     flat_invoice_items := map (refreshItem upsertedMap) (flat_invoice_items m);
     flat_case_documents :=
       map (refreshItem upsertedMap) (flat_case_documents m);
     flat_profiles := map (refreshItem upsertedMap) (flat_profiles m);
     flat_site_finances := map (refreshItem upsertedMap) (flat_site_finances m) |}.

(** [s.includes(pat)] *)
Fixpoint includes (pat s : string) : bool :=
  String.prefix pat s
  || match s with
     | EmptyString => false
     | String _ s' => includes pat s'
     end.

(** The merged tables and the local-wins subsets that a cycle computes from
    the local snapshot, the pending deletions and the remote answers. *)
Definition reconcile (localData : AppData) (deletedIds : DeletedIds)
    (remoteFlatData : FlatData) (remoteDeletions : list SyncDeletion)
    : FlatData * FlatData :=
  let localFlatData :=
    applyDeletionsToLocal (flattenData localData) remoteDeletions in
  let deletedKeys := deletedKeysOf remoteDeletions deletedIds in
  mergeTables localFlatData remoteFlatData deletedKeys.

(** Removal of the attachment blobs queued for deletion. *)
Definition removeDocumentPaths (gw : Gateway) (deletedIds : DeletedIds)
    : M DeletedIds :=
  match deleted_documentPaths deletedIds with
  | [] => mret getInitialDeletedIds
  | paths =>
      if client_available gw then
        emit (StorageRemove paths);;
        if storage_remove gw paths then mret getInitialDeletedIds
        else mret {| deleted_clients := []; deleted_cases := [];
                     deleted_stages := []; deleted_sessions := [];
                     deleted_adminTasks := []; deleted_appointments := [];
                     deleted_accountingEntries := []; deleted_assistants := [];
                     deleted_invoices := []; deleted_invoiceItems := [];
                     deleted_documents := []; deleted_siteFinances := [];
                     deleted_documentPaths := paths |}
      else mret getInitialDeletedIds
  end.

(** The deletion push of a cycle; on success every pending list is reported
    as synced ([{ ...successfulDeletions, ...deletedIds }]). *)
Definition pushDeletions (gw : Gateway) (deletedIds : DeletedIds)
    (currentUser : string) (successfulDeletions : DeletedIds) : M DeletedIds :=
  if anyFlatDeletes deletedIds then
    emit (SetStatus syncing (Some "جاري إرسال عمليات الحذف..."));;
    deleteDataFromSupabase gw (flatDeletes deletedIds) currentUser;;
    mret deletedIds
  else mret successfulDeletions.

(** The [try] block of [manualSync] up to the last remote request: fetch,
    reconcile, push deletions, push upserts, fold the returned rows back.
    It yields the merged tables and the deletions to report as synced. *)
Definition syncExchange (gw : Gateway) (p : UseSyncProps) (currentUser : string)
    : M (FlatData * DeletedIds) :=
  emit (SetStatus syncing (Some "جاري جلب البيانات والتغييرات..."));;
  remoteFlatData ← fetchDataFromSupabase gw;
  let remoteDeletions := fetchDeletionsFromSupabase gw in
  let reconciled :=
    reconcile (localData p) (deletedIds p) remoteFlatData remoteDeletions in
  let mergedFlatData := reconciled.1 in
  let flatUpserts := reconciled.2 in
  successfulDeletions ← removeDocumentPaths gw (deletedIds p);
  successfulDeletions ←
    pushDeletions gw (deletedIds p) currentUser successfulDeletions;
  emit (SetStatus syncing (Some "جاري إرسال التعديلات الجديدة..."));;
  upsertedFlatData ← upsertDataToSupabase gw flatUpserts currentUser;
  let upsertedMap := upsertedMapOf upsertedFlatData in
  mret (refreshTables upsertedMap mergedFlatData, successfulDeletions).

(** The [try] block of [manualSync]: the exchange, then the three calls
    that publish its outcome. *)
Definition syncAttempt (gw : Gateway) (p : UseSyncProps) (currentUser : string)
    : M unit :=
  '(mergedFlatData, successfulDeletions) ← syncExchange gw p currentUser;
  emit (OnDataSynced (constructData mergedFlatData));;
  emit (OnDeletionsSynced successfulDeletions);;
  emit (SetStatus synced None).

(** The [catch] block of [manualSync]. *)
Definition syncFailed (err : JsError) : M unit :=
  let msg := if decide (message err = "") then "فشلت المزامنة." else message err in
  emit (SetStatus error
          (Some (if includes "failed to fetch" msg
                 then "فشل الاتصال بالخادم." else msg))).

Definition manualSync (gw : Gateway) (p : UseSyncProps) : M unit :=
  if bool_decide (syncStatus p = syncing) || isAuthLoading p then mret ()
  else
    match isOnline p, user p with
    | true, Some currentUser =>
        emit (SetStatus syncing (Some "جاري التحقق من حالة السحابة..."));;
        let schemaCheck := checkSupabaseSchema gw in
        if success schemaCheck then
          tryCatch (syncAttempt gw p currentUser) syncFailed
        else if decide (check_error schemaCheck = Some "unconfigured")
        then emit (SetStatus unconfigured None)
        else if decide (check_error schemaCheck = Some "uninitialized")
        then emit (SetStatus uninitialized (Some "قاعدة البيانات غير مهيأة."))
        else emit (SetStatus error
                     (Some ("فشل الاتصال: " +:+ check_message schemaCheck)))
    | true, None => emit (SetStatus error (Some "يجب تسجيل الدخول للمزامنة."))
    | false, _ =>
        emit (SetStatus error (Some "يجب أن تكون متصلاً بالإنترنت للمزامنة."))
    end.

(** ** The hook that owns the local snapshot

    [useSupabaseData] holds the snapshot and the pending deletions, and
    hands [useSync] the three callbacks below. The [isDirty] flag of the
    hook is not part of this state: the callbacks and the mutators write
    it, and so does the auto-save effect, which runs after every change of
    the snapshot or of the pending deletions and sets it once the save has
    resolved. *)

Record HookState := {
  hook_data : AppData;
  hook_deletedIds : DeletedIds;
  hook_syncStatus : SyncStatus;
  hook_lastSyncError : option string;
}.

(** [prev[key].filter(id => !syncedDeletions[key].includes(id))] *)
Definition withoutSynced (prev synced : list string) : list string :=
  List.filter (λ id, negb (bool_decide (id ∈ synced))) prev.

Definition clearSynced (prev syncedDeletions : DeletedIds) : DeletedIds :=
  {| deleted_clients :=
       withoutSynced (deleted_clients prev) (deleted_clients syncedDeletions);
     deleted_cases :=
       withoutSynced (deleted_cases prev) (deleted_cases syncedDeletions);
     deleted_stages :=
       withoutSynced (deleted_stages prev) (deleted_stages syncedDeletions);
     deleted_sessions :=
       withoutSynced (deleted_sessions prev) (deleted_sessions syncedDeletions);
     deleted_adminTasks :=
       withoutSynced (deleted_adminTasks prev)
         (deleted_adminTasks syncedDeletions);
     deleted_appointments :=
       withoutSynced (deleted_appointments prev)
         (deleted_appointments syncedDeletions);
     deleted_accountingEntries :=
       withoutSynced (deleted_accountingEntries prev)
         (deleted_accountingEntries syncedDeletions);
     deleted_assistants :=
       withoutSynced (deleted_assistants prev)
         (deleted_assistants syncedDeletions);
     deleted_invoices :=
       withoutSynced (deleted_invoices prev) (deleted_invoices syncedDeletions);
     deleted_invoiceItems :=
       withoutSynced (deleted_invoiceItems prev)
         (deleted_invoiceItems syncedDeletions);
     deleted_documents :=
       withoutSynced (deleted_documents prev)
         (deleted_documents syncedDeletions);
     deleted_siteFinances :=
       withoutSynced (deleted_siteFinances prev)
         (deleted_siteFinances syncedDeletions);
     deleted_documentPaths :=
       withoutSynced (deleted_documentPaths prev)
         (deleted_documentPaths syncedDeletions) |}.

(** What a call does to the state of the hook; requests to the remote store
    leave it as it is. [onDataSynced] sets the nine slices of the snapshot,
    [onDeletionsSynced] filters the pending lists, [onSyncStatusChange]
    sets the status and the message. *)
Definition handleEffect (s : HookState) (e : Effect) : HookState :=
  match e with
  | SetStatus status err =>
      {| hook_data := hook_data s; hook_deletedIds := hook_deletedIds s;
         hook_syncStatus := status; hook_lastSyncError := err |}
  | OnDataSynced mergedData =>
      {| hook_data := mergedData; hook_deletedIds := hook_deletedIds s;
         hook_syncStatus := hook_syncStatus s;
         hook_lastSyncError := hook_lastSyncError s |}
  | OnDeletionsSynced syncedDeletions =>
      {| hook_data := hook_data s;
         hook_deletedIds := clearSynced (hook_deletedIds s) syncedDeletions;
         hook_syncStatus := hook_syncStatus s;
         hook_lastSyncError := hook_lastSyncError s |}
  | _ => s
  end.

(** The props that the hook passes to [useSync]. *)
Definition syncProps (s : HookState) (user : option string)
    (isOnline isAuthLoading : bool) : UseSyncProps :=
  {| user := user; localData := hook_data s;
     deletedIds := hook_deletedIds s; isOnline := isOnline;
     isAuthLoading := isAuthLoading; syncStatus := hook_syncStatus s |}.

(** State of the hook once a full sync started from [s] has ended. *)
Definition afterManualSync (gw : Gateway) (user : option string)
    (isOnline isAuthLoading : bool) (s : HookState) : HookState :=
  fold_left handleEffect
    (manualSync gw (syncProps s user isOnline isAuthLoading)).1 s.

(** The remote delete requests of a trace, as (table, ids). *)
Definition deleteRequests (trace : list Effect) : list (string * list string) :=
  omap (λ e, match e with
             | DeleteRows table _ ids => Some (table, ids)
             | _ => None
             end) trace.

(** ** Retention sweep *)

Inductive RemoveOutcome :=
  | Removed
  | RemoveFailed (statusCode : string)
  | RemoveRejected.

Record SweepEnv := {
  sweep_isOnline : bool;
  (** [supabase] is not null *)
  sweep_client : bool;
  (** [Date.now()] *)
  sweep_now : Z;
  (** [getDb()] and [db.getAll] resolve *)
  sweep_readable : bool;
  (** [storage.from('documents').remove([path])]: resolves without error,
      resolves with an error of the given status code, or rejects *)
  sweep_remove : string → RemoveOutcome;
}.

Record SweepState := {
  (** contents of the metadata store, one entry per document id *)
  metadataStore : list CaseDocument;
  (** the [documents] slice of the hook *)
  documentsState : list CaseDocument;
  (** paths for which a remote removal was requested, latest last *)
  removeRequests : list string;
}.

Definition ONE_DAY : Z := 24 * 60 * 60 * 1000.

(** The predicate of [allDocs.filter(doc => ...)]. *)
Definition isExpiredDoc (now : Z) (doc : CaseDocument) : bool :=
  let isOld := bool_decide (now - doc_addedAt doc > ONE_DAY) in
  isOld && bool_decide (doc_localState doc = doc_synced).

(** [{ ...doc, localState }] *)
Definition withLocalState (st : LocalState) (doc : CaseDocument) : CaseDocument :=
  {| doc_id := doc_id doc; doc_caseId := doc_caseId doc;
     doc_addedAt := doc_addedAt doc; doc_storagePath := doc_storagePath doc;
     doc_localState := st; doc_updated_at := doc_updated_at doc;
     doc_props := doc_props doc |}.

(** A put in the metadata store under the id of the document replaces the
    entry of the same document. *)
Fixpoint storePut (doc : CaseDocument) (store : list CaseDocument)
    : list CaseDocument :=
  match store with
  | [] => [doc]
  | d :: rest =>
      if decide (doc_id d = doc_id doc) then doc :: rest
      else d :: storePut doc rest
  end.

(** [!error || error.statusCode === '404'] *)
Definition removalTolerated (o : RemoveOutcome) : bool :=
  match o with
  | Removed => true
  | RemoveFailed statusCode => bool_decide (statusCode = "404")
  | RemoveRejected => false
  end.

(** [db.put(DOCS_METADATA_STORE_NAME, value, key)]. [getDb] creates the
    store with [db.createObjectStore(DOCS_METADATA_STORE_NAME)], without a
    key path and without a key generator: a put must bring its key, which
    the other writers of the store pass as [doc.id], and a put without one
    is rejected with a DataError. *)
Definition metadataPut (value : CaseDocument) (key : option string)
    (store : list CaseDocument) : option (list CaseDocument) :=
  match key with
  | Some _ => Some (storePut value store)
  | None => None
  end.

(** The loop [for (const doc of expiredDocs)]; a rejected request or a
    rejected put ends the sweep in the [catch] block. The put of the
    archived copy, [db.put(DOCS_METADATA_STORE_NAME, updatedDoc)], brings
    no key. *)
Fixpoint sweepLoop (env : SweepEnv) (expiredDocs : list CaseDocument)
    (s : SweepState) : SweepState :=
  match expiredDocs with
  | [] => s
  | doc :: rest =>
      let requested :=
        {| metadataStore := metadataStore s;
           documentsState := documentsState s;
           removeRequests := removeRequests s ++ [doc_storagePath doc] |} in
      match sweep_remove env (doc_storagePath doc) with
      | RemoveRejected => requested
      | outcome =>
          if removalTolerated outcome then
            let updatedDoc := withLocalState archived doc in
            match metadataPut updatedDoc None (metadataStore s) with
            | Some store =>
                sweepLoop env rest
                  {| metadataStore := store;
                     documentsState :=
                       map (λ d, if decide (doc_id d = doc_id doc)
                                 then updatedDoc else d)
                           (documentsState s);
                     removeRequests := removeRequests requested |}
            | None => requested
            end
          else sweepLoop env rest requested
      end
  end.

Definition cleanupCloudStorage (env : SweepEnv) (s : SweepState) : SweepState :=
  if negb (sweep_isOnline env) || negb (sweep_client env) then s
  else if sweep_readable env then
    let allDocs := metadataStore s in
    let expiredDocs := List.filter (isExpiredDoc (sweep_now env)) allDocs in
    sweepLoop env expiredDocs s
  else s.

(** ** Observations used to state properties over all tables at once *)

(** The primary keys of [flatData[table]]; a name that is not a table has
    none. *)
Definition tableKeys (flatData : FlatData) (table : string) : list string :=
  if decide (table = "clients") then map getPk (flat_clients flatData)
  else if decide (table = "cases") then map getPk (flat_cases flatData)
  else if decide (table = "stages") then map getPk (flat_stages flatData)
  else if decide (table = "sessions") then map getPk (flat_sessions flatData)
  else if decide (table = "admin_tasks")
  then map getPk (flat_admin_tasks flatData)
  else if decide (table = "appointments")
  then map getPk (flat_appointments flatData)
  else if decide (table = "accounting_entries")
  then map getPk (flat_accounting_entries flatData)
  else if decide (table = "assistants")
  then map getPk (flat_assistants flatData)
  else if decide (table = "invoices") then map getPk (flat_invoices flatData)
  else if decide (table = "invoice_items")
  then map getPk (flat_invoice_items flatData)
  else if decide (table = "case_documents")
  then map getPk (flat_case_documents flatData)
  else if decide (table = "profiles") then map getPk (flat_profiles flatData)
  else if decide (table = "site_finances")
  then map getPk (flat_site_finances flatData)
  else [].

Definition stamp {R : Type} `{Syncable R} (r : R) : string * Z :=
  (getPk r, getTime r).

(** Primary key and [updated_at] time of every record of
    [flatData[table]]. *)
Definition tableStamps (flatData : FlatData) (table : string)
    : list (string * Z) :=
  if decide (table = "clients") then map stamp (flat_clients flatData)
  else if decide (table = "cases") then map stamp (flat_cases flatData)
  else if decide (table = "stages") then map stamp (flat_stages flatData)
  else if decide (table = "sessions") then map stamp (flat_sessions flatData)
  else if decide (table = "admin_tasks")
  then map stamp (flat_admin_tasks flatData)
  else if decide (table = "appointments")
  then map stamp (flat_appointments flatData)
  else if decide (table = "accounting_entries")
  then map stamp (flat_accounting_entries flatData)
  else if decide (table = "assistants")
  then map stamp (flat_assistants flatData)
  else if decide (table = "invoices") then map stamp (flat_invoices flatData)
  else if decide (table = "invoice_items")
  then map stamp (flat_invoice_items flatData)
  else if decide (table = "case_documents")
  then map stamp (flat_case_documents flatData)
  else if decide (table = "profiles") then map stamp (flat_profiles flatData)
  else if decide (table = "site_finances")
  then map stamp (flat_site_finances flatData)
  else [].

(** ** Well-formed trees

    Consistent foreign keys: every child names its parent. Unique keys:
    no two clients, cases, stages or invoices share an id, and no two
    assistants a name; an assistant has a non-empty name. *)

Definition allCases (data : AppData) : list Case :=
  flat_map cases (clients data).

Definition allStages (data : AppData) : list Stage :=
  flat_map stages (allCases data).

Record wellFormed (data : AppData) : Prop := {
  wf_client_ids : NoDup (map (λ c, client_id (client_row c)) (clients data));
  wf_case_ids : NoDup (map (λ cs, case_id (case_row cs)) (allCases data));
  wf_stage_ids : NoDup (map (λ st, stage_id (stage_row st)) (allStages data));
  wf_invoice_ids :
    NoDup (map (λ inv, invoice_id (invoice_row inv)) (invoices data));
  wf_assistant_names : NoDup (assistants data);
  wf_assistant_named : "" ∉ assistants data;
  wf_case_parent : ∀ c cs, c ∈ clients data → cs ∈ cases c →
    case_client_id (case_row cs) = Some (client_id (client_row c));
  wf_stage_parent : ∀ cs st, cs ∈ allCases data → st ∈ stages cs →
    stage_case_id (stage_row st) = Some (case_id (case_row cs));
  wf_session_parent : ∀ st s, st ∈ allStages data → s ∈ sessions st →
    session_stage_id s = Some (stage_id (stage_row st));
  wf_item_parent : ∀ inv i, inv ∈ invoices data → i ∈ items inv →
    invoice_item_invoice_id i = Some (invoice_id (invoice_row inv));
}.

(** ** Observations on traces and on the metadata store *)

(** The calls that hand data or synced deletions to the hook. *)
Definition publishes (e : Effect) : bool :=
  match e with
  | OnDataSynced _ | OnDeletionsSynced _ => true
  | _ => false
  end.

(** A trace without such calls. *)
Definition quiet (trace : list Effect) : Prop :=
  ∀ e, e ∈ trace → publishes e = false.

(** [deletions[table]] is present and not empty. *)
Definition hasDeletions (deletions : string → list string) (table : string)
    : bool :=
  match deletions table with
  | [] => false
  | _ :: _ => true
  end.


(** A step of the exchange throws: the fetch, the deletion push, or the
    upsert push. *)
Definition stepThrows (gw : Gateway) (p : UseSyncProps) (currentUser : string)
    : Prop :=
  (∃ e, (fetchDataFromSupabase gw).2 = inl e)
  ∨ (anyFlatDeletes (deletedIds p) = true
     ∧ ∃ e, (deleteDataFromSupabase gw (flatDeletes (deletedIds p))
               currentUser).2 = inl e)
  ∨ (∃ remoteFlatData e,
       (fetchDataFromSupabase gw).2 = inr remoteFlatData
       ∧ (upsertDataToSupabase gw
            (reconcile (localData p) (deletedIds p) remoteFlatData
               (fetchDeletionsFromSupabase gw)).2
            currentUser).2 = inl e).

(** The sweep gets to its loop: the device is online, there is a client,
    and the metadata store can be read. *)
Definition sweeps (env : SweepEnv) : Prop :=
  sweep_isOnline env = true ∧ sweep_client env = true ∧
  sweep_readable env = true.

(** ** Sample data used in examples *)

Definition sampleSession : Session :=
  {| session_id := "se1"; session_stage_id := Some "st1";
     session_updated_at := Some 1000; session_props := [("court", "A")] |}.

Definition sampleStage : Stage :=
  {| stage_row := {| stage_id := "st1"; stage_case_id := Some "k1";
                     stage_updated_at := Some 1000; stage_props := [] |};
     sessions := [sampleSession] |}.

Definition sampleCase : Case :=
  {| case_row := {| case_id := "k1"; case_client_id := Some "c1";
                    case_updated_at := Some 1000;
                    case_props := [("subject", "lease")] |};
     stages := [sampleStage] |}.

Definition sampleClient : Client :=
  {| client_row := {| client_id := "c1"; client_updated_at := Some 1000;
                      client_props := [("name", "A")] |};
     cases := [sampleCase] |}.

Definition sampleInvoice : Invoice :=
  {| invoice_row := {| invoice_id := "i1"; invoice_clientId := "c1";
                       invoice_client_id := None;
                       invoice_updated_at := Some 1000;
                       invoice_props := [] |};
     items := [ {| invoice_item_id := "it1";
                   invoice_item_invoice_id := Some "i1";
                   invoice_item_updated_at := None;
                   invoice_item_props := [] |} ] |}.

Definition sampleData : AppData :=
  {| clients := [sampleClient]; adminTasks := []; appointments := [];
     accountingEntries := []; invoices := [sampleInvoice];
     assistants := ["Ahmad"; "Sara"]; documents := []; profiles := [];
     siteFinances := [] |}.

(** The flat data with every table empty. *)
Definition emptyFlatData : FlatData :=
  {| flat_clients := []; flat_cases := []; flat_stages := [];
     flat_sessions := []; flat_admin_tasks := []; flat_appointments := [];
     flat_accounting_entries := []; flat_assistants := [];
     flat_invoices := []; flat_invoice_items := [];
     flat_case_documents := []; flat_profiles := [];
     flat_site_finances := [] |}.

(** The empty snapshot. *)
Definition emptyAppData : AppData :=
  {| clients := []; adminTasks := []; appointments := [];
     accountingEntries := []; invoices := []; assistants := [];
     documents := []; profiles := []; siteFinances := [] |}.

(** A remote store that answers every request without error, holds no
    rows, and returns the rows it is sent. *)
Definition healthyGateway : Gateway :=
  {| client_available := true;
     schema_probe := {| success := true; check_error := None;
                        check_message := "" |};
     select_all := inr emptyFlatData;
     select_deletions := Some [];
     storage_remove := λ _, false;
     delete_in := λ _ _, None;
     upsert_select := λ _ rows, inr rows |}.

(** The same store, except that deleting from [cases] is refused. *)
Definition casesDeleteRefused : Gateway :=
  {| client_available := true;
     schema_probe := schema_probe healthyGateway;
     select_all := inr emptyFlatData;
     select_deletions := Some [];
     storage_remove := λ _, false;
     delete_in := λ table _,
       if decide (table = "cases") then Some "permission denied" else None;
     upsert_select := λ _ rows, inr rows |}.

(** A hook with one document and one case pending deletion. *)
Definition twoPendingDeletions : HookState :=
  {| hook_data := emptyAppData;
     hook_deletedIds :=
       {| deleted_clients := []; deleted_cases := ["k1"];
          deleted_stages := []; deleted_sessions := [];
          deleted_adminTasks := []; deleted_appointments := [];
          deleted_accountingEntries := []; deleted_assistants := [];
          deleted_invoices := []; deleted_invoiceItems := [];
          deleted_documents := ["d1"]; deleted_siteFinances := [];
          deleted_documentPaths := [] |};
     hook_syncStatus := synced;
     hook_lastSyncError := None |}.

(** A document uploaded at the epoch and still [synced], and one added
    an hour before the sample sweeps run. *)
Definition oldSyncedDoc : CaseDocument :=
  {| doc_id := "d1"; doc_caseId := "k1"; doc_addedAt := 0;
     doc_storagePath := "u1/k1/d1-deed.pdf"; doc_localState := doc_synced;
     doc_updated_at := None; doc_props := [("name", "deed.pdf")] |}.

Definition recentSyncedDoc : CaseDocument :=
  {| doc_id := "d2"; doc_caseId := "k1"; doc_addedAt := 2 * ONE_DAY - 3600000;
     doc_storagePath := "u1/k1/d2-plan.pdf"; doc_localState := doc_synced;
     doc_updated_at := None; doc_props := [("name", "plan.pdf")] |}.

Definition twoDocuments : SweepState :=
  {| metadataStore := [oldSyncedDoc; recentSyncedDoc];
     documentsState := [oldSyncedDoc; recentSyncedDoc];
     removeRequests := [] |}.

(** A sweep two days after the epoch, in which the blob store removes what
    it is asked to. *)
Definition removingSweep : SweepEnv :=
  {| sweep_isOnline := true; sweep_client := true;
     sweep_now := 2 * ONE_DAY; sweep_readable := true;
     sweep_remove := λ _, Removed |}.

(** A client edited ten seconds after the epoch, and the tombstone of a
    deletion of the same id one second after the epoch. *)
Definition editedClient : ClientRow :=
  {| client_id := "c1"; client_updated_at := Some 10000;
     client_props := [("name", "A")] |}.

Definition editedClientData : AppData :=
  {| clients := [ {| client_row := editedClient; cases := [] |} ];
     adminTasks := []; appointments := []; accountingEntries := [];
     invoices := []; assistants := []; documents := []; profiles := [];
     siteFinances := [] |}.

Definition earlierDeletion : SyncDeletion :=
  {| table_name := "clients"; record_id := "c1"; deleted_at := 1000 |}.

(** ** Invariants of the merge loops *)

(** The keys of the insertion-ordered map, oldest first. *)
Definition mapKeys {V : Type} (m : JsMap.t V) : list string := m.*1.

Section MergeInvariants.
Context {T : Type} `{Syncable T}.
Variables (remote : list T) (deletedSet : gset string) (tableName : string).

(** A key that [mergeItems] may file a record under: not empty and not
    deleted. *)
Definition liveKey (k : string) : Prop :=
  k ≠ "" ∧ deletionKey tableName k ∉ deletedSet.

(** What both loops keep true of [finalMap]: one entry per key, each filed
    under its own live key, and each the record that the conflict rule
    picks for itself. *)
Definition settledMap (m : JsMap.t T) : Prop :=
  NoDup (mapKeys m) ∧
  ∀ k x, (k, x) ∈ m → getPk x = k ∧ liveKey k ∧ resolved remote x = x.
End MergeInvariants.

(** ** The branches of the tree, read as filters of the flat tables

    What [constructData] hangs under a row: the rows of the child table
    whose foreign key names it, in the order of the child table. *)

Section Branches.
Variable flatData : FlatData.

Definition stageBranch (st : StageRow) : Stage :=
  {| stage_row := st;
     sessions :=
       List.filter (λ s, bool_decide (session_stage_id s = Some (stage_id st)))
                   (flat_sessions flatData) |}.

Definition caseBranch (cs : CaseRow) : Case :=
  {| case_row := cs;
     stages :=
       map stageBranch
           (List.filter (λ st, bool_decide (stage_case_id st = Some (case_id cs)))
                        (flat_stages flatData)) |}.

Definition clientBranch (c : ClientRow) : Client :=
  {| client_row := c;
     cases :=
       map caseBranch
           (List.filter (λ cs, bool_decide (case_client_id cs
                                            = Some (client_id c)))
                        (flat_cases flatData)) |}.

Definition invoiceBranch (inv : InvoiceRow) : Invoice :=
  {| invoice_row := inv;
     items :=
       List.filter (λ i, bool_decide (invoice_item_invoice_id i
                                      = Some (invoice_id inv)))
                   (flat_invoice_items flatData) |}.
End Branches.

(** ** Observations on the requests of a trace *)

(** The requests that change the remote store. *)
Definition remoteWrite (e : Effect) : bool :=
  match e with
  | StorageRemove _ | DeleteRows _ _ _ | UpsertRows _ _ _ => true
  | _ => false
  end.





(** The states in which a sync leaves the hook when it has run. *)
Definition settledStatus (status : SyncStatus) : bool :=
  match status with
  | synced | error | unconfigured | uninitialized => true
  | loading | syncing => false
  end.

(** ** Background refresh *)

(** The [try] block of [fetchAndRefresh]: the merge of a cycle without its
    pushes. Only the remote tombstones make up [deletedKeys], and of each
    [mergeItems] only [merged] is read. *)
Definition refreshAttempt (gw : Gateway) (p : UseSyncProps) : M unit :=
  remoteFlatData ← fetchDataFromSupabase gw;
  let remoteDeletions := fetchDeletionsFromSupabase gw in
  let localFlatData :=
    applyDeletionsToLocal (flattenData (localData p)) remoteDeletions in
  let deletedKeys : gset string :=
    list_to_set
      (map (λ d, deletionKey (table_name d) (record_id d)) remoteDeletions) in
  let mergedData := (mergeTables localFlatData remoteFlatData deletedKeys).1 in
  emit (OnDataSynced (constructData mergedData));;
  emit (SetStatus synced None).

(** A failure is logged and nothing else: the [catch] block makes no
    call. *)
Definition fetchAndRefresh (gw : Gateway) (p : UseSyncProps) : M unit :=
  if bool_decide (syncStatus p = syncing) || isAuthLoading p
     || negb (isOnline p)
  then mret ()
  else match user p with
       | None => mret ()
       | Some _ => tryCatch (refreshAttempt gw p) (λ _, mret ())
       end.

(** State of the hook once a background refresh started from [s] has
    ended. *)
Definition afterFetchAndRefresh (gw : Gateway) (user : option string)
    (isOnline isAuthLoading : bool) (s : HookState) : HookState :=
  fold_left handleEffect
    (fetchAndRefresh gw (syncProps s user isOnline isAuthLoading)).1 s.

(** ** Delete mutators of the hook

    Each mutator removes the record from the snapshot and queues its id in
    the pending deletions. *)

(** [setClients(prev => f(prev))] and its siblings. *)
Definition setClients (f : list Client → list Client) (data : AppData) : AppData :=
  {| clients := f (clients data); adminTasks := adminTasks data;
     appointments := appointments data;
     accountingEntries := accountingEntries data; invoices := invoices data;
     assistants := assistants data; documents := documents data;
     profiles := profiles data; siteFinances := siteFinances data |}.

Definition setAdminTasks (f : list Entity → list Entity) (data : AppData)
    : AppData :=
  {| clients := clients data; adminTasks := f (adminTasks data);
     appointments := appointments data;
     accountingEntries := accountingEntries data; invoices := invoices data;
     assistants := assistants data; documents := documents data;
     profiles := profiles data; siteFinances := siteFinances data |}.

Definition setAppointments (f : list Entity → list Entity) (data : AppData)
    : AppData :=
  {| clients := clients data; adminTasks := adminTasks data;
     appointments := f (appointments data);
     accountingEntries := accountingEntries data; invoices := invoices data;
     assistants := assistants data; documents := documents data;
     profiles := profiles data; siteFinances := siteFinances data |}.

Definition setAccountingEntries
    (f : list AccountingEntry → list AccountingEntry) (data : AppData)
    : AppData :=
  {| clients := clients data; adminTasks := adminTasks data;
     appointments := appointments data;
     accountingEntries := f (accountingEntries data); invoices := invoices data;
     assistants := assistants data; documents := documents data;
     profiles := profiles data; siteFinances := siteFinances data |}.

Definition setInvoices (f : list Invoice → list Invoice) (data : AppData)
    : AppData :=
  {| clients := clients data; adminTasks := adminTasks data;
     appointments := appointments data;
     accountingEntries := accountingEntries data; invoices := f (invoices data);
     assistants := assistants data; documents := documents data;
     profiles := profiles data; siteFinances := siteFinances data |}.

Definition setAssistants (f : list string → list string) (data : AppData)
    : AppData :=
  {| clients := clients data; adminTasks := adminTasks data;
     appointments := appointments data;
     accountingEntries := accountingEntries data; invoices := invoices data;
     assistants := f (assistants data); documents := documents data;
     profiles := profiles data; siteFinances := siteFinances data |}.

(** [{ ...c, cases: f(c.cases) }] and its siblings. *)
Definition withCases (f : list Case → list Case) (c : Client) : Client :=
  {| client_row := client_row c; cases := f (cases c) |}.

Definition withStages (f : list Stage → list Stage) (cs : Case) : Case :=
  {| case_row := case_row cs; stages := f (stages cs) |}.

Definition withSessions (f : list Session → list Session) (st : Stage) : Stage :=
  {| stage_row := stage_row st; sessions := f (sessions st) |}.

(** The keys of [DeletedIds] that the mutators write. *)
Inductive DeletedKey :=
  | KClients | KCases | KStages | KSessions | KAdminTasks | KAppointments
  | KAccountingEntries | KInvoices | KAssistants.

(** [{ ...prev, [key]: [...prev[key], id] }] *)
Definition queueDeletion (key : DeletedKey) (id : string) (prev : DeletedIds)
    : DeletedIds :=
  {| deleted_clients :=
       match key with KClients => deleted_clients prev ++ [id]
                    | _ => deleted_clients prev end;
     deleted_cases :=
       match key with KCases => deleted_cases prev ++ [id]
                    | _ => deleted_cases prev end;
     deleted_stages :=
       match key with KStages => deleted_stages prev ++ [id]
                    | _ => deleted_stages prev end;
     deleted_sessions :=
       match key with KSessions => deleted_sessions prev ++ [id]
                    | _ => deleted_sessions prev end;
     deleted_adminTasks :=
       match key with KAdminTasks => deleted_adminTasks prev ++ [id]
                    | _ => deleted_adminTasks prev end;
     deleted_appointments :=
       match key with KAppointments => deleted_appointments prev ++ [id]
                    | _ => deleted_appointments prev end;
     deleted_accountingEntries :=
       match key with KAccountingEntries => deleted_accountingEntries prev ++ [id]
                    | _ => deleted_accountingEntries prev end;
     deleted_assistants :=
       match key with KAssistants => deleted_assistants prev ++ [id]
                    | _ => deleted_assistants prev end;
     deleted_invoices :=
       match key with KInvoices => deleted_invoices prev ++ [id]
                    | _ => deleted_invoices prev end;
     deleted_invoiceItems := deleted_invoiceItems prev;
     deleted_documents := deleted_documents prev;
     deleted_siteFinances := deleted_siteFinances prev;
     deleted_documentPaths := deleted_documentPaths prev |}.

(** The state updates of a delete mutator on the snapshot and on the
    pending deletions. *)
Definition deleteWith (update : AppData → AppData) (key : DeletedKey)
    (id : string) (s : HookState) : HookState :=
  {| hook_data := update (hook_data s);
     hook_deletedIds := queueDeletion key id (hook_deletedIds s);
     hook_syncStatus := hook_syncStatus s;
     hook_lastSyncError := hook_lastSyncError s |}.

Definition deleteClient (id : string) : HookState → HookState :=
  deleteWith
    (setClients (List.filter (λ c, negb (bool_decide (client_id (client_row c)
                                                      = id)))))
    KClients id.

Definition deleteCase (caseId clientId : string) : HookState → HookState :=
  deleteWith
    (setClients
       (map (λ c, if decide (client_id (client_row c) = clientId)
                  then withCases
                         (List.filter
                            (λ cs, negb (bool_decide (case_id (case_row cs)
                                                      = caseId)))) c
                  else c)))
    KCases caseId.

Definition deleteStage (stageId caseId clientId : string)
    : HookState → HookState :=
  deleteWith
    (setClients
       (map (λ c, if decide (client_id (client_row c) = clientId)
                  then withCases
                         (map (λ cs, if decide (case_id (case_row cs) = caseId)
                                     then withStages
                                            (List.filter
                                               (λ st, negb (bool_decide
                                                  (stage_id (stage_row st)
                                                   = stageId)))) cs
                                     else cs)) c
                  else c)))
    KStages stageId.

Definition deleteSession (sessionId stageId caseId clientId : string)
    : HookState → HookState :=
  deleteWith
    (setClients
       (map (λ c, if decide (client_id (client_row c) = clientId)
                  then withCases
                         (map (λ cs, if decide (case_id (case_row cs) = caseId)
                                     then withStages
                                            (map (λ st,
                                                    if decide
                                                         (stage_id (stage_row st)
                                                          = stageId)
                                                    then withSessions
                                                           (List.filter
                                                              (λ ss, negb
                                                                 (bool_decide
                                                                    (session_id ss
                                                                     = sessionId))))
                                                           st
                                                    else st)) cs
                                     else cs)) c
                  else c)))
    KSessions sessionId.

Definition deleteAdminTask (id : string) : HookState → HookState :=
  deleteWith
    (setAdminTasks (List.filter (λ t, negb (bool_decide (entity_id t = id)))))
    KAdminTasks id.

Definition deleteAppointment (id : string) : HookState → HookState :=
  deleteWith
    (setAppointments (List.filter (λ a, negb (bool_decide (entity_id a = id)))))
    KAppointments id.

Definition deleteAccountingEntry (id : string) : HookState → HookState :=
  deleteWith
    (setAccountingEntries
       (List.filter (λ e, negb (bool_decide (entry_id e = id)))))
    KAccountingEntries id.

Definition deleteInvoice (id : string) : HookState → HookState :=
  deleteWith
    (setInvoices
       (List.filter (λ i, negb (bool_decide (invoice_id (invoice_row i) = id)))))
    KInvoices id.

Definition deleteAssistant (name : string) : HookState → HookState :=
  deleteWith
    (setAssistants (List.filter (λ a, negb (bool_decide (a = name)))))
    KAssistants name.

(** The remote table whose rows a queued id names, as [flatDeletes] of
    [manualSync] maps the keys of [DeletedIds]. *)
Definition deletedTable (key : DeletedKey) : string :=
  match key with
  | KClients => "clients"
  | KCases => "cases"
  | KStages => "stages"
  | KSessions => "sessions"
  | KAdminTasks => "admin_tasks"
  | KAppointments => "appointments"
  | KAccountingEntries => "accounting_entries"
  | KInvoices => "invoices"
  | KAssistants => "assistants"
  end.

(** The ids of the clients of a snapshot. *)
Definition clientIdsOf (data : AppData) : list string :=
  map (λ c, client_id (client_row c)) (clients data).

(** ** The schema probe

    [checkSupabaseSchema] asks every table for one column, with
    [{ head: true }], and reads the answers in the order of [tableChecks]. *)

(** A character of a string lowered as [toLowerCase] lowers the letters A
    to Z. Strings are sequences of UTF-8 bytes, in which a byte below 128
    is always an ASCII character; the two tests of the probe look for
    ASCII text. Outside A to Z only two characters are lowered to ASCII
    letters: the Kelvin sign, to a [k] that neither text contains, and the
    dotted capital I, to an [i] followed by a combining mark, where both
    texts go on with an ASCII letter. *)
Definition lowerAscii (c : Ascii.ascii) : Ascii.ascii :=
  let n := Ascii.nat_of_ascii c in
  if (65 <=? n)%nat && (n <=? 90)%nat then Ascii.ascii_of_nat (n + 32) else c.

Fixpoint toLowerCase (s : string) : string :=
  match s with
  | EmptyString => EmptyString
  | String c s' => String (lowerAscii c) (toLowerCase s')
  end.

(** The answer of one probe: no error, or a [PostgrestError] with its
    message and its code. *)
Inductive ProbeOutcome :=
  | ProbeOk
  | ProbeError (message code : string).

(** The keys of [tableChecks], in the order of [Object.entries]. *)
Definition probedTables : list string :=
  [ "profiles"; "clients"; "cases"; "stages"; "sessions"; "admin_tasks";
    "appointments"; "accounting_entries"; "assistants"; "invoices";
    "invoice_items"; "case_documents"; "site_finances"; "sync_deletions" ].

(** The test that takes an error for a missing table. *)
Definition tableMissing (message code : string) : bool :=
  bool_decide (code = "42P01")
  || includes "does not exist" (toLowerCase message)
  || includes "relation" (toLowerCase message).

(** The loop [for (const result of results)]; an error of another kind is
    thrown and caught by the [catch] block. *)
Fixpoint readProbes (results : list (string * ProbeOutcome)) : SchemaCheck :=
  match results with
  | [] => {| success := true; check_error := None; check_message := "" |}
  | (table, ProbeOk) :: rest => readProbes rest
  | (table, ProbeError message code) :: rest =>
      if tableMissing message code
      then {| success := false; check_error := Some "uninitialized";
              check_message := "Missing: " +:+ table +:+ "." |}
      else {| success := false; check_error := Some "unknown";
              check_message := message |}
  end.

(** The probe of a configured client. [rejected] holds the message of the
    error with which [Promise.all] rejects, when a request does not
    resolve; [probe] gives the answer of each table otherwise. *)
Definition probeSchema (rejected : option string) (probe : string → ProbeOutcome)
    : SchemaCheck :=
  match rejected with
  | Some message =>
      {| success := false; check_error := Some "unknown";
         check_message := message |}
  | None => readProbes (map (λ table, (table, probe table)) probedTables)
  end.

(** ** Backup and restore of the whole database

    [adminFetchFullDatabase] and [adminRestoreDatabase] move rows of any
    table, the deletion log included; they are generic in the type of a
    row. *)

Section AdminBackup.
Context {R : Type}.

(** The answer of [from(table).select('*')]: the message of [error], or
    [data], which may be null. *)
Variable select : string → string + option (list R).

(** The answer of [from(table).upsert(records)]: the message of [error],
    if any. *)
Variable upsert : string → list R → option string.

Definition backupTables : list string :=
  [ "profiles"; "clients"; "cases"; "stages"; "sessions"; "admin_tasks";
    "appointments"; "accounting_entries"; "assistants"; "invoices";
    "invoice_items"; "case_documents"; "site_finances"; "sync_deletions" ].

(** [results.forEach((res, i) => ...)]: the dump, one entry per table in
    the order of [tables], or the error thrown for the first table whose
    select failed. *)
Fixpoint collectTables (tables : list string)
    : JsError + list (string * list R) :=
  match tables with
  | [] => inr []
  | table :: rest =>
      match select table with
      | inl message =>
          inl (newError ("Backup of " +:+ table +:+ " failed: " +:+ message))
      | inr data =>
          match collectTables rest with
          | inl e => inl e
          | inr dump => inr ((table, default [] data) :: dump)
          end
      end
  end.

Definition adminFetchFullDatabase (client_available : bool)
    : JsError + list (string * list R) :=
  if client_available then collectTables backupTables
  else inl (newError "Supabase client not available.").

Definition restoreOrder : list string :=
  [ "profiles"; "assistants"; "clients"; "cases"; "stages"; "sessions";
    "invoices"; "invoice_items"; "case_documents"; "admin_tasks";
    "appointments"; "accounting_entries"; "site_finances"; "sync_deletions" ].

(** The loop [for (const table of tables)] of [adminRestoreDatabase]: the
    upsert requests sent, as (table, records) in order, and how the loop
    ends. [dump table] is [dump[table]] when that is an array, and [None]
    when it is absent or something else. *)
Fixpoint restoreTables (dump : string → option (list R)) (tables : list string)
    : list (string * list R) * (JsError + unit) :=
  match tables with
  | [] => ([], inr ())
  | table :: rest =>
      match dump table with
      | Some (r :: rs) =>
          match upsert table (r :: rs) with
          | Some message =>
              ([(table, r :: rs)],
               inl (newError ("Restore of " +:+ table +:+ " failed: "
                              +:+ message)))
          | None =>
              let run := restoreTables dump rest in
              ((table, r :: rs) :: run.1, run.2)
          end
      | _ => restoreTables dump rest
      end
  end.

Definition adminRestoreDatabase (client_available : bool)
    (dump : string → option (list R))
    : list (string * list R) * (JsError + unit) :=
  if client_available then restoreTables dump restoreOrder
  else ([], inl (newError "Supabase client not available.")).

(** [dump[table]] for a dump that [adminFetchFullDatabase] returned. *)
Definition dumpGet (dump : list (string * list R)) (table : string)
    : option (list R) :=
  match find (λ entry, bool_decide (entry.1 = table)) dump with
  | Some entry => Some entry.2
  | None => None
  end.

(** [records && Array.isArray(records) && records.length > 0] *)
Definition restorable (dump : string → option (list R)) (table : string) : bool :=
  match dump table with
  | Some (_ :: _) => true
  | _ => false
  end.
End AdminBackup.

(** ** Validation of the assistants list *)

(** [s.trim() === '']: the string holds nothing but white space and line
    terminators, which are, in UTF-8, the bytes 9 to 13 and 32, the
    no-break space C2 A0, the Ogham space mark E1 9A 80, the spaces E2 80
    80 to E2 80 8A, the line and paragraph separators E2 80 A8 and E2 80
    A9, the narrow no-break space E2 80 AF, the medium mathematical space
    E2 81 9F, the ideographic space E3 80 80 and the byte order mark EF BB
    BF. *)
Fixpoint isBlank (s : string) : bool :=
  match s with
  | EmptyString => true
  | String c rest =>
      let n := Ascii.nat_of_ascii c in
      if ((9 <=? n) && (n <=? 13) || (n =? 32))%nat then isBlank rest
      else
        match rest with
        | String c2 rest2 =>
            let n2 := Ascii.nat_of_ascii c2 in
            if ((n =? 194) && (n2 =? 160))%nat then isBlank rest2
            else
              match rest2 with
              | String c3 rest3 =>
                  let n3 := Ascii.nat_of_ascii c3 in
                  if ((n =? 225) && (n2 =? 154) && (n3 =? 128)
                      || (n =? 226) && (n2 =? 128)
                         && ((128 <=? n3) && (n3 <=? 138)
                             || (n3 =? 168) || (n3 =? 169) || (n3 =? 175))
                      || (n =? 226) && (n2 =? 129) && (n3 =? 159)
                      || (n =? 227) && (n2 =? 128) && (n3 =? 128)
                      || (n =? 239) && (n2 =? 187) && (n3 =? 191))%nat
                  then isBlank rest3
                  else false
              | EmptyString => false
              end
        | EmptyString => false
        end
  end.

Definition defaultAssistants : list string :=
  ["أحمد"; "فاطمة"; "سارة"; "بدون تخصيص"].

(** [loaded] is [None] when the value is not an array; an item is [None]
    when it is not a string. *)
Definition validateAssistantsList (loaded : option (list (option string)))
    : list string :=
  match loaded with
  | None => defaultAssistants
  | Some items =>
      let strings :=
        omap (λ item, match item with
                      | Some s => if isBlank s then None else Some s
                      | None => None
                      end) items in
      uniqueNames ∅ (strings ++ ["بدون تخصيص"])
  end.

(** ** Sample data for the background refresh *)

(** Remote tables that hold the row of the sample client and nothing
    else, and a remote store like [healthyGateway] that holds them. *)
Definition sampleClientOnly : FlatData :=
  {| flat_clients := [client_row sampleClient]; flat_cases := [];
     flat_stages := []; flat_sessions := []; flat_admin_tasks := [];
     flat_appointments := []; flat_accounting_entries := [];
     flat_assistants := []; flat_invoices := []; flat_invoice_items := [];
     flat_case_documents := []; flat_profiles := [];
     flat_site_finances := [] |}.

Definition holdsSampleClient : Gateway :=
  {| client_available := true;
     schema_probe := schema_probe healthyGateway;
     select_all := inr sampleClientOnly;
     select_deletions := Some [];
     storage_remove := λ _, false;
     delete_in := λ _ _, None;
     upsert_select := λ _ rows, inr rows |}.

(** A hook that holds the sample snapshot, in sync. *)
Definition sampleHook : HookState :=
  {| hook_data := sampleData; hook_deletedIds := getInitialDeletedIds;
     hook_syncStatus := synced; hook_lastSyncError := None |}.

(** * Properties *)

(** ** The insertion-ordered map *)

Section JsMapFacts.
Context {V : Type}.
Implicit Types (m : JsMap.t V) (k : string) (v : V).

Lemma JsMap_get_set_eq m k v : JsMap.get k (JsMap.set k v m) = Some v.
Proof.
  induction m as [|[k' v'] m IH]; simpl.
  - by rewrite decide_True.
  - destruct (decide (k' = k)) as [->|Hne]; simpl.
    + by rewrite decide_True.
    + by rewrite decide_False.
Qed.

Lemma JsMap_get_set_ne m k k' v :
  k ≠ k' → JsMap.get k' (JsMap.set k v m) = JsMap.get k' m.
Proof.
  intros Hne. induction m as [|[k0 v0] m IH]; simpl.
  - by rewrite decide_False.
  - destruct (decide (k0 = k)) as [->|Hk]; simpl.
    + by rewrite !decide_False.
    + destruct (decide (k0 = k')); [done | apply IH].
Qed.

Lemma JsMap_get_values m k v : JsMap.get k m = Some v → v ∈ JsMap.values m.
Proof.
  unfold JsMap.values. induction m as [|[k' v'] m IH]; simpl; [done|].
  destruct (decide (k' = k)).
  - intros [= ->]. apply list_elem_of_here.
  - intros Hget. apply list_elem_of_further, IH, Hget.
Qed.

Lemma JsMap_values_entry m v :
  v ∈ JsMap.values m → ∃ k, (k, v) ∈ m.
Proof.
  unfold JsMap.values. intros Hin.
  apply list_elem_of_fmap in Hin as [[k v'] [-> Hin]]. by exists k.
Qed.

Lemma JsMap_set_entry m k v k' v' :
  (k', v') ∈ JsMap.set k v m → (k' = k ∧ v' = v) ∨ (k', v') ∈ m.
Proof.
  induction m as [|[k0 v0] m IH]; simpl.
  - intros Hin. apply list_elem_of_singleton in Hin as [= -> ->]. by left.
  - destruct (decide (k0 = k)) as [->|Hk]; intros Hin;
      apply elem_of_cons in Hin as [Heq|Hin].
    + injection Heq as -> ->. by left.
    + right. by apply list_elem_of_further.
    + right. rewrite Heq. apply list_elem_of_here.
    + destruct (IH Hin) as [?|?]; [by left|].
      right. by apply list_elem_of_further.
Qed.
End JsMapFacts.

(** ** The merge reconciler *)

Section MergeFacts.
Context {T : Type} `{Syncable T}.
Variables (remote : list T) (deletedSet : gset string) (tableName : string).

Local Abbreviation localStep := (mergeLocalStep remote deletedSet tableName).
Local Abbreviation remoteStep := (mergeRemoteStep deletedSet tableName).
Local Abbreviation pushed := (pushes remote deletedSet tableName).
Local Abbreviation settled := (resolved remote).
Local Abbreviation clean := (cleanMap deletedSet tableName).
Local Abbreviation deleted k := (deletionKey tableName k ∈ deletedSet).

Lemma findByPk_Some id (items : list T) r :
  findByPk id items = Some r → r ∈ items ∧ getPk r = id.
Proof.
  unfold findByPk. intros Hfind. apply find_some in Hfind as [Hin Hpk].
  split; [by apply list_elem_of_In | by apply bool_decide_eq_true in Hpk].
Qed.

Lemma findByPk_sole (items : list T) r :
  r ∈ items →
  (∀ r', r' ∈ items → getPk r' = getPk r → r' = r) →
  findByPk (getPk r) items = Some r.
Proof.
  intros Hin Hsole. destruct (findByPk (getPk r) items) as [r'|] eqn:Hfind.
  - apply findByPk_Some in Hfind as [Hin' Hpk]. f_equal. by apply Hsole.
  - unfold findByPk in Hfind.
    apply list_elem_of_In in Hin.
    pose proof (find_none _ _ Hfind r Hin) as Hno.
    by apply bool_decide_eq_false in Hno.
Qed.

Lemma localStep_toUpsert m up l x :
  x ∈ (localStep (m, up) l).2 ↔ x ∈ up ∨ (x = l ∧ pushed l).
Proof.
  unfold mergeLocalStep, pushes.
  destruct (decide (getPk l = "")) as [He|He]; simpl.
  { split; [by left | intros [?|[_ [? _]]]; done]. }
  destruct (decide (deleted (getPk l))) as [Hd|Hd]; simpl.
  { split; [by left | intros [?|[_ [_ [? _]]]]; done]. }
  destruct (findByPk (getPk l) remote) as [r|] eqn:Hfind; simpl.
  - case_bool_decide as Hgt; simpl.
    + rewrite elem_of_app, list_elem_of_singleton. split.
      * intros [? | ->]; [by left|]. right. repeat split; try done.
        by intros ? [= <-].
      * intros [?|[-> _]]; [by left | by right].
    + split; [by left|]. intros [?|(_ & _ & _ & Hr)]; [done|].
      by specialize (Hr r eq_refl).
  - rewrite elem_of_app, list_elem_of_singleton. split.
    + intros [? | ->]; [by left|]. right. repeat split; done.
    + intros [?|[-> _]]; [by left | by right].
Qed.

Lemma localLoop_toUpsert local m up x :
  x ∈ (fold_left localStep local (m, up)).2 ↔
  x ∈ up ∨ (x ∈ local ∧ pushed x).
Proof.
  revert m up. induction local as [|l local IH]; intros m up; cbn [fold_left].
  - split; [by left | intros [?|[Hin _]]; [done | by apply elem_of_nil in Hin]].
  - destruct (localStep (m, up) l) as [m' up'] eqn:Hstep.
    rewrite IH.
    assert (x ∈ up' ↔ x ∈ up ∨ (x = l ∧ pushed l)) as ->.
    { by rewrite <- (localStep_toUpsert m up l x), Hstep. }
    rewrite elem_of_cons. split.
    + intros [[?|[-> ?]]|[? ?]]; auto.
    + intros [?|[[-> | ?] ?]]; auto.
Qed.

Lemma localStep_get_same m up l :
  getPk l ≠ "" → ¬ deleted (getPk l) →
  JsMap.get (getPk l) (localStep (m, up) l).1 = Some (settled l).
Proof.
  intros He Hd. unfold mergeLocalStep, resolved.
  rewrite decide_False, decide_False by done.
  destruct (findByPk (getPk l) remote) as [r|]; simpl;
    [case_bool_decide; simpl|]; apply JsMap_get_set_eq.
Qed.

Lemma localStep_get_other m up l k :
  getPk l ≠ k → JsMap.get k (localStep (m, up) l).1 = JsMap.get k m.
Proof.
  intros Hne. unfold mergeLocalStep.
  destruct (decide (getPk l = "")); [done|].
  destruct (decide (deleted (getPk l))); [done|].
  destruct (findByPk (getPk l) remote) as [r|]; simpl;
    [case_bool_decide; simpl|]; by apply JsMap_get_set_ne.
Qed.

Lemma localLoop_get local m up l :
  getPk l ≠ "" → ¬ deleted (getPk l) →
  (∀ l', l' ∈ local → getPk l' = getPk l → l' = l) →
  l ∈ local ∨ JsMap.get (getPk l) m = Some (settled l) →
  JsMap.get (getPk l) (fold_left localStep local (m, up)).1
  = Some (settled l).
Proof.
  intros He Hd. revert m up.
  induction local as [|a local IH]; intros m up Hsole Hstart; cbn [fold_left].
  - destruct Hstart as [Hin|Hget]; [by apply elem_of_nil in Hin | done].
  - destruct (localStep (m, up) a) as [m' up'] eqn:Hstep.
    apply IH.
    { intros l' Hin. apply Hsole. by apply list_elem_of_further. }
    destruct (decide (getPk a = getPk l)) as [Hsame|Hother].
    + right. assert (a = l) as -> by (apply Hsole; [apply list_elem_of_here | done]).
      pose proof (localStep_get_same m up l He Hd) as Hget.
      by rewrite Hstep in Hget.
    + pose proof (localStep_get_other m up a (getPk l) Hother) as Hget.
      rewrite Hstep in Hget. simpl in Hget. rewrite Hget.
      destruct Hstart as [Hin|?]; [|by right].
      apply elem_of_cons in Hin as [->|Hin]; [done | by left].
Qed.

Lemma remoteStep_get m r k v :
  JsMap.get k m = Some v → JsMap.get k (remoteStep m r) = Some v.
Proof.
  intros Hget. unfold mergeRemoteStep.
  destruct (decide (getPk r = "")); [done|].
  destruct (JsMap.has (getPk r) m) eqn:Hhas; [done|].
  destruct (decide (deleted (getPk r))); [done|].
  rewrite JsMap_get_set_ne; [done|].
  intros Heq. unfold JsMap.has in Hhas. by rewrite Heq, Hget in Hhas.
Qed.

Lemma remoteLoop_get rs m k v :
  JsMap.get k m = Some v → JsMap.get k (fold_left remoteStep rs m) = Some v.
Proof.
  revert m. induction rs as [|r rs IH]; intros m Hget; cbn [fold_left]; [done|].
  by apply IH, remoteStep_get.
Qed.

Lemma cleanMap_set m k x :
  clean m → getPk x = k → ¬ deleted k →
  clean (JsMap.set k x m).
Proof.
  intros Hm Hpk Hd k' x' Hin.
  apply JsMap_set_entry in Hin as [[-> ->]|Hin]; [done | by apply Hm].
Qed.

Lemma localStep_clean m up l :
  clean m → clean (localStep (m, up) l).1.
Proof.
  intros Hm. unfold mergeLocalStep.
  destruct (decide (getPk l = "")); [done|].
  destruct (decide (deleted (getPk l))); [done|].
  destruct (findByPk (getPk l) remote) as [r|] eqn:Hfind; simpl;
    [case_bool_decide; simpl|]; apply cleanMap_set; try done.
  by apply findByPk_Some in Hfind as [_ ?].
Qed.

Lemma localLoop_clean local m up :
  clean m → clean (fold_left localStep local (m, up)).1.
Proof.
  revert m up. induction local as [|l local IH]; intros m up Hm; cbn [fold_left]; [done|].
  pose proof (localStep_clean m up l Hm) as Hstep.
  destruct (localStep (m, up) l) as [m' up']. by apply IH.
Qed.

Lemma remoteLoop_clean rs m :
  clean m → clean (fold_left remoteStep rs m).
Proof.
  revert m. induction rs as [|r rs IH]; intros m Hm; cbn [fold_left]; [done|].
  apply IH. unfold mergeRemoteStep.
  destruct (decide (getPk r = "")); [done|].
  destruct (JsMap.has (getPk r) m); [done|].
  destruct (decide (deleted (getPk r))); [done|].
  by apply cleanMap_set.
Qed.

Lemma mergeItems_unfold local :
  mergeItems remote deletedSet tableName local =
  {| merged :=
       JsMap.values
         (fold_left remoteStep remote
            (fold_left localStep local (JsMap.empty, [])).1);
     toUpsert := (fold_left localStep local (JsMap.empty, [])).2 |}.
Proof.
  unfold mergeItems. by destruct (fold_left localStep local (JsMap.empty, [])).
Qed.

Lemma mergeItems_toUpsert local x :
  x ∈ toUpsert (mergeItems remote deletedSet tableName local) ↔
  x ∈ local ∧ pushed x.
Proof.
  rewrite mergeItems_unfold. simpl. rewrite localLoop_toUpsert.
  split; [intros [Hin|?]; [by apply elem_of_nil in Hin | done] | by right].
Qed.

Lemma mergeItems_merged_clean local x :
  x ∈ merged (mergeItems remote deletedSet tableName local) →
  ¬ deleted (getPk x).
Proof.
  rewrite mergeItems_unfold. simpl. intros Hin.
  apply JsMap_values_entry in Hin as [k Hin].
  assert (clean (fold_left remoteStep remote
            (fold_left localStep local (JsMap.empty, [])).1)) as Hclean.
  { apply remoteLoop_clean, localLoop_clean.
    intros ? ? Hnil. by apply elem_of_nil in Hnil. }
  by destruct (Hclean k x Hin) as [-> ?].
Qed.

Lemma mergeItems_merged_resolved local l :
  l ∈ local → getPk l ≠ "" → ¬ deleted (getPk l) →
  (∀ l', l' ∈ local → getPk l' = getPk l → l' = l) →
  settled l ∈ merged (mergeItems remote deletedSet tableName local).
Proof.
  intros Hin He Hd Hsole. rewrite mergeItems_unfold. simpl.
  apply (JsMap_get_values _ (getPk l)), remoteLoop_get, localLoop_get; auto.
Qed.
End MergeFacts.

(** C1. Conflict between a local record and the remote record of the same
    key, the key being non-empty, carried by no other record of either
    table, and not deleted: the local record is kept in [merged] and added
    to [toUpsert] if and only if its [updated_at] exceeds the remote one by
    more than 1000 ms (an absent [updated_at] counts as the epoch);
    otherwise the remote record is kept in [merged] and no record of that
    key is pushed. *)
Theorem mergeItems_conflict_resolution {T : Type} `{Syncable T}
    (local remote : list T) (deletedSet : gset string) (tableName : string)
    (l r : T) :
  l ∈ local → r ∈ remote → getPk r = getPk l →
  getPk l ≠ "" →
  (∀ l', l' ∈ local → getPk l' = getPk l → l' = l) →
  (∀ r', r' ∈ remote → getPk r' = getPk r → r' = r) →
  deletionKey tableName (getPk l) ∉ deletedSet →
  let res := mergeItems remote deletedSet tableName local in
  ((l ∈ merged res ∧ l ∈ toUpsert res) ↔ getTime l > getTime r + 1000) ∧
  (¬ getTime l > getTime r + 1000 →
   r ∈ merged res ∧ ∀ x, x ∈ toUpsert res → getPk x ≠ getPk l).
Proof.
  intros Hl Hr Hkey He Hsole_l Hsole_r Hd res.
  assert (findByPk (getPk l) remote = Some r) as Hfind.
  { rewrite <- Hkey. by apply findByPk_sole. }
  pose proof (mergeItems_merged_resolved remote deletedSet tableName
                local l Hl He Hd Hsole_l) as Hmerged.
  unfold resolved in Hmerged. rewrite Hfind in Hmerged.
  split; [split|].
  - intros [_ Hup]. apply mergeItems_toUpsert in Hup as (_ & _ & _ & Hgt).
    by apply Hgt.
  - intros Hgt. rewrite bool_decide_eq_true_2 in Hmerged by done.
    split; [done|]. apply mergeItems_toUpsert.
    split; [done|]. repeat split; try done.
    intros r0 Hr0. rewrite Hfind in Hr0. by injection Hr0 as <-.
  - intros Hle. rewrite bool_decide_eq_false_2 in Hmerged by done.
    split; [done|]. intros x Hup Hx.
    apply mergeItems_toUpsert in Hup as (Hin & _ & _ & Hgt).
    assert (x = l) as -> by (by apply Hsole_l).
    by apply Hle, Hgt.
Qed.

Lemma mergeItems_conflict_resolution_witness :
  let l := {| client_id := "c1"; client_updated_at := Some 11500;
              client_props := [] |} in
  let r := {| client_id := "c1"; client_updated_at := Some 10000;
              client_props := [] |} in
  let res := mergeItems [r] ∅ "clients" [l] in
  ((l ∈ merged res ∧ l ∈ toUpsert res) ↔ getTime l > getTime r + 1000) ∧
  (¬ getTime l > getTime r + 1000 →
   r ∈ merged res ∧ ∀ x, x ∈ toUpsert res → getPk x ≠ getPk l).
Proof.
  intros l r.
  apply (mergeItems_conflict_resolution [l] [r] ∅ "clients" l r).
  - apply list_elem_of_here.
  - apply list_elem_of_here.
  - reflexivity.
  - discriminate.
  - intros l' Hin _. by apply list_elem_of_singleton in Hin.
  - intros r' Hin _. by apply list_elem_of_singleton in Hin.
  - apply not_elem_of_empty.
Defined.

(** The two cases of the tie-break scenario: a remote lead of 500 ms keeps
    the remote record; a local lead of 1500 ms keeps and pushes the local
    one. *)
Example tie_break_remote_wins :
  let l := {| client_id := "c1"; client_updated_at := Some 7000;
              client_props := [("name", "local")] |} in
  let r := {| client_id := "c1"; client_updated_at := Some 7500;
              client_props := [("name", "remote")] |} in
  mergeItems [r] ∅ "clients" [l] = {| merged := [r]; toUpsert := [] |}.
Proof. vm_compute. reflexivity. Qed.

Example tie_break_local_wins :
  let l := {| client_id := "c1"; client_updated_at := Some 8500;
              client_props := [("name", "local")] |} in
  let r := {| client_id := "c1"; client_updated_at := Some 7000;
              client_props := [("name", "remote")] |} in
  mergeItems [r] ∅ "clients" [l] = {| merged := [l]; toUpsert := [l] |}.
Proof. vm_compute. reflexivity. Qed.

Example exact_tie_remote_wins :
  let l := {| client_id := "c1"; client_updated_at := Some 8000;
              client_props := [("name", "local")] |} in
  let r := {| client_id := "c1"; client_updated_at := Some 7000;
              client_props := [("name", "remote")] |} in
  mergeItems [r] ∅ "clients" [l] = {| merged := [r]; toUpsert := [] |}.
Proof. vm_compute. reflexivity. Qed.

(** Outside the data model. A record without a key is skipped by both
    loops; of two local records under one key, each is pushed on its own
    verdict while the verdict on the last one decides [merged]. *)
Example keyless_records_skipped :
  let l := {| client_id := ""; client_updated_at := Some 9000;
              client_props := [("name", "local")] |} in
  let r := {| client_id := ""; client_updated_at := Some 1000;
              client_props := [("name", "remote")] |} in
  mergeItems [r] ∅ "clients" [l] = {| merged := []; toUpsert := [] |}.
Proof. vm_compute. reflexivity. Qed.

Example duplicate_local_keys :
  let l1 := {| client_id := "c1"; client_updated_at := Some 9000;
               client_props := [("name", "newer")] |} in
  let l2 := {| client_id := "c1"; client_updated_at := Some 1000;
               client_props := [("name", "older")] |} in
  let r := {| client_id := "c1"; client_updated_at := Some 5000;
              client_props := [("name", "remote")] |} in
  mergeItems [r] ∅ "clients" [l1; l2] = {| merged := [r]; toUpsert := [l1] |}.
Proof. vm_compute. reflexivity. Qed.

Lemma merged_keys_clean {T : Type} `{Syncable T} (local remote : list T)
    (deletedSet : gset string) (tableName k : string) :
  deletionKey tableName k ∈ deletedSet →
  k ∉ map getPk (merged (mergeItems remote deletedSet tableName local)).
Proof.
  intros Hdel Hin. apply list_elem_of_fmap in Hin as (x & -> & Hx).
  by apply mergeItems_merged_clean in Hx.
Qed.

Lemma toUpsert_keys_clean {T : Type} `{Syncable T} (local remote : list T)
    (deletedSet : gset string) (tableName k : string) :
  deletionKey tableName k ∈ deletedSet →
  k ∉ map getPk (toUpsert (mergeItems remote deletedSet tableName local)).
Proof.
  intros Hdel Hin. apply list_elem_of_fmap in Hin as (x & -> & Hx).
  by apply mergeItems_toUpsert in Hx as (_ & _ & ? & _).
Qed.

(** C4. No record whose key is in the deleted-key set passed to
    [mergeItems] appears in [merged] or in [toUpsert], whatever the
    timestamps. *)
Theorem mergeItems_excludes_deleted {T : Type} `{Syncable T}
    (local remote : list T) (deletedSet : gset string) (tableName : string)
    (k : string) :
  deletionKey tableName k ∈ deletedSet →
  let res := mergeItems remote deletedSet tableName local in
  (k ∉ map getPk (merged res)) ∧ (k ∉ map getPk (toUpsert res)).
Proof.
  intros Hdel res.
  split; [by apply merged_keys_clean | by apply toUpsert_keys_clean].
Qed.

Lemma mergeItems_excludes_deleted_witness :
  let l := {| client_id := "c1"; client_updated_at := Some 99000;
              client_props := [] |} in
  let r := {| client_id := "c1"; client_updated_at := Some 10000;
              client_props := [] |} in
  let res := mergeItems [r] {["clients:c1"]} "clients" [l] in
  ("c1" ∉ map getPk (merged res)) ∧ ("c1" ∉ map getPk (toUpsert res)).
Proof.
  intros l r.
  apply (mergeItems_excludes_deleted [l] [r] {["clients:c1"]} "clients" "c1").
  apply elem_of_singleton. reflexivity.
Defined.

(** ** The entity mapper *)

Section Grouping.
Context {X V : Type} (key : X → option string) (f : X → V).

Lemma groupFold_lookup (xs : list X) (m : gmap (option string) (list V)) k :
  default [] (fold_left (λ m x, groupPush m (key x) (f x)) xs m !! k)
  = default [] (m !! k)
    ++ map f (List.filter (λ x, bool_decide (key x = k)) xs).
Proof.
  revert m. induction xs as [|a xs IH]; intros m; cbn [fold_left List.filter map].
  - by rewrite app_nil_r.
  - rewrite IH. unfold groupPush. case_bool_decide as Hk.
    + rewrite Hk, lookup_insert_eq. simpl. by rewrite <- app_assoc.
    + by rewrite lookup_insert_ne.
Qed.

Lemma groupGet_fold (xs : list X) (k : string) :
  groupGet (fold_left (λ m x, groupPush m (key x) (f x)) xs ∅) k
  = map f (List.filter (λ x, bool_decide (key x = Some k)) xs).
Proof. unfold groupGet. by rewrite groupFold_lookup, lookup_empty. Qed.
End Grouping.

Lemma filter_keep_all {A : Type} (P : A → bool) (l : list A) :
  (∀ x, x ∈ l → P x = true) → List.filter P l = l.
Proof.
  induction l as [|a l IH]; intros Hall; cbn [List.filter]; [done|].
  rewrite (Hall a) by apply list_elem_of_here. f_equal. apply IH.
  intros x Hx. by apply Hall, list_elem_of_further.
Qed.

Lemma filter_keep_none {A : Type} (P : A → bool) (l : list A) :
  (∀ x, x ∈ l → P x = false) → List.filter P l = [].
Proof.
  induction l as [|a l IH]; intros Hall; cbn [List.filter]; [done|].
  rewrite (Hall a) by apply list_elem_of_here. apply IH.
  intros x Hx. by apply Hall, list_elem_of_further.
Qed.

Lemma elem_of_flat_map {A B : Type} (g : A → list B) (l : list A) (y : B) :
  y ∈ flat_map g l ↔ ∃ x, x ∈ l ∧ y ∈ g x.
Proof.
  rewrite list_elem_of_In, in_flat_map.
  split; intros (x & Hx & Hy); exists x; by rewrite ?list_elem_of_In in *.
Qed.

(** Selecting, among the children of all parents, those that name a given
    parent yields the children of that parent. *)
Lemma regroup_children {P C : Type} (pid : P → string) (children : P → list C)
    (key : C → option string) (ps : list P) :
  NoDup (map pid ps) →
  (∀ p c, p ∈ ps → c ∈ children p → key c = Some (pid p)) →
  ∀ p, p ∈ ps →
    List.filter (λ c, bool_decide (key c = Some (pid p))) (flat_map children ps)
    = children p.
Proof.
  induction ps as [|a ps IH]; intros Hnd Hkey p Hp.
  { by apply elem_of_nil in Hp. }
  cbn [map] in Hnd. apply NoDup_cons in Hnd as [Ha Hnd].
  cbn [flat_map]. rewrite List.filter_app.
  assert (∀ q, q ∈ ps → pid q ≠ pid a) as Hfresh.
  { intros q Hq Heq. apply Ha. rewrite <- Heq.
    apply list_elem_of_fmap. by exists q. }
  destruct (decide (pid p = pid a)) as [Hsame|Hother].
  - assert (p = a) as ->.
    { apply elem_of_cons in Hp as [?|Hp]; [done|]. by destruct (Hfresh p Hp). }
    rewrite filter_keep_all, filter_keep_none; [by rewrite app_nil_r| |].
    + intros c Hc. apply elem_of_flat_map in Hc as (q & Hq & Hc).
      apply bool_decide_eq_false. rewrite (Hkey q c); [|by apply list_elem_of_further|done].
      intros [= Heq]. by apply (Hfresh q).
    + intros c Hc. apply bool_decide_eq_true. apply Hkey; [apply list_elem_of_here|done].
  - apply elem_of_cons in Hp as [->|Hp]; [done|].
    rewrite filter_keep_none, IH; [done|done| |done|].
    + intros q c Hq Hc. apply Hkey; [by apply list_elem_of_further|done].
    + intros c Hc. apply bool_decide_eq_false.
      rewrite (Hkey a c); [|apply list_elem_of_here|done].
      intros [= Heq]. by apply Hother.
Qed.

Lemma filter_map_comm {A B : Type} (P : B → bool) (q : A → B) (l : list A) :
  List.filter P (map q l) = map q (List.filter (λ x, P (q x)) l).
Proof.
  induction l as [|a l IH]; cbn [map List.filter]; [done|].
  destruct (P (q a)); cbn [map]; by rewrite IH.
Qed.

Lemma map_id_on {A : Type} (g : A → A) (l : list A) :
  (∀ x, x ∈ l → g x = x) → map g l = l.
Proof.
  induction l as [|a l IH]; intros Hid; cbn [map]; [done|].
  rewrite (Hid a) by apply list_elem_of_here. f_equal. apply IH.
  intros x Hx. by apply Hid, list_elem_of_further.
Qed.

Lemma flat_map_id_on {A B : Type} (g h : A → list B) (l : list A) :
  (∀ x, x ∈ l → g x = h x) → flat_map g l = flat_map h l.
Proof.
  induction l as [|a l IH]; intros Heq; cbn [flat_map]; [done|].
  rewrite (Heq a) by apply list_elem_of_here. f_equal. apply IH.
  intros x Hx. by apply Heq, list_elem_of_further.
Qed.

Lemma uniqueNames_fresh (seen : gset string) (names : list string) :
  NoDup names → (∀ n, n ∈ names → n ∉ seen) → uniqueNames seen names = names.
Proof.
  revert seen. induction names as [|n names IH]; intros seen Hnd Hfresh;
    cbn [uniqueNames]; [done|].
  apply NoDup_cons in Hnd as [Hn Hnd].
  rewrite decide_False by apply Hfresh, list_elem_of_here.
  f_equal. apply IH; [done|]. intros n' Hn'.
  rewrite elem_of_union, elem_of_singleton. intros [->|Hseen]; [done|].
  by apply (Hfresh n'); [apply list_elem_of_further|].
Qed.

Lemma assistant_names_of_rows (names : list string) :
  map assistant_name (map Build_AssistantRow names) = names.
Proof. induction names as [|n names IH]; cbn [map]; [done | by rewrite IH]. Qed.

Lemma filter_named (names : list string) :
  "" ∉ names → filter (λ n, n ≠ "") names = names.
Proof.
  induction names as [|n names IH]; intros Hne; [done|].
  apply not_elem_of_cons in Hne as [Hn Hne].
  rewrite filter_cons_True by done. f_equal. by apply IH.
Qed.

Lemma with_client_id_consistent v cs :
  case_client_id (case_row cs) = Some v → with_client_id v cs = cs.
Proof. destruct cs as [[] ?]. cbn. by intros ->. Qed.

Lemma with_case_id_consistent v st :
  stage_case_id (stage_row st) = Some v → with_case_id v st = st.
Proof. destruct st as [[] ?]. cbn. by intros ->. Qed.

Lemma with_stage_id_consistent v s :
  session_stage_id s = Some v → with_stage_id v s = s.
Proof. destruct s. cbn. by intros ->. Qed.

Lemma with_invoice_id_consistent v i :
  invoice_item_invoice_id i = Some v → with_invoice_id v i = i.
Proof. destruct i. cbn. by intros ->. Qed.

(** On a tree with consistent foreign keys, flattening injects nothing
    new: the flat tables are the rows of the tree. *)
Lemma flattenData_consistent data :
  wellFormed data →
  flattenData data =
  {| flat_clients := map client_row (clients data);
     flat_cases := map case_row (allCases data);
     flat_stages := map stage_row (allStages data);
     flat_sessions := flat_map sessions (allStages data);
     flat_admin_tasks := adminTasks data;
     flat_appointments := appointments data;
     flat_accounting_entries := accountingEntries data;
     flat_assistants := map Build_AssistantRow (assistants data);
     flat_invoices := map invoice_row (invoices data);
     flat_invoice_items := flat_map items (invoices data);
     flat_case_documents := documents data;
     flat_profiles := profiles data;
     flat_site_finances := siteFinances data |}.
Proof.
  intros Hwf. unfold flattenData.
  assert (flat_map (λ c, map (with_client_id (client_id (client_row c))) (cases c))
            (clients data) = allCases data) as ->.
  { apply flat_map_id_on. intros c Hc. apply map_id_on. intros cs Hcs.
    by apply with_client_id_consistent, (wf_case_parent _ Hwf). }
  assert (flat_map (λ cs, map (with_case_id (case_id (case_row cs))) (stages cs))
            (allCases data) = allStages data) as ->.
  { apply flat_map_id_on. intros cs Hcs. apply map_id_on. intros st Hst.
    by apply with_case_id_consistent, (wf_stage_parent _ Hwf). }
  assert (flat_map (λ st, map (with_stage_id (stage_id (stage_row st))) (sessions st))
            (allStages data) = flat_map sessions (allStages data)) as ->.
  { apply flat_map_id_on. intros st Hst. apply map_id_on. intros s Hs.
    by apply with_stage_id_consistent, (wf_session_parent _ Hwf). }
  assert (flat_map (λ inv, map (with_invoice_id (invoice_id (invoice_row inv)))
                              (items inv))
            (invoices data) = flat_map items (invoices data)) as ->.
  { apply flat_map_id_on. intros inv Hinv. apply map_id_on. intros i Hi.
    by apply with_invoice_id_consistent, (wf_item_parent _ Hwf). }
  done.
Qed.

(** C5. Reconstructing the flattened record set of a well-formed tree
    yields the tree. *)
Theorem constructData_flattenData (data : AppData) :
  wellFormed data → constructData (flattenData data) = data.
Proof.
  intros Hwf. rewrite (flattenData_consistent data Hwf).
  unfold constructData. cbn [flat_clients flat_cases flat_stages flat_sessions
    flat_admin_tasks flat_appointments flat_accounting_entries flat_assistants
    flat_invoices flat_invoice_items flat_case_documents flat_profiles
    flat_site_finances].
  set (sessionMap := fold_left _ (flat_map sessions (allStages data)) ∅).
  set (stageMap := fold_left _ (map stage_row (allStages data)) ∅).
  set (caseMap := fold_left _ (map case_row (allCases data)) ∅).
  set (invoiceItemMap := fold_left _ (flat_map items (invoices data)) ∅).
  assert (∀ st, st ∈ allStages data →
            groupGet sessionMap (stage_id (stage_row st)) = sessions st) as Hsessions.
  { intros st Hst. unfold sessionMap.
    rewrite (groupGet_fold session_stage_id id), map_id.
    apply (regroup_children (λ st, stage_id (stage_row st)) sessions);
      [apply (wf_stage_ids _ Hwf) | apply (wf_session_parent _ Hwf) | done]. }
  assert (∀ cs, cs ∈ allCases data →
            groupGet stageMap (case_id (case_row cs)) = stages cs) as Hstages.
  { intros cs Hcs. unfold stageMap.
    rewrite (groupGet_fold stage_case_id
               (λ st, {| stage_row := st;
                         sessions := groupGet sessionMap (stage_id st) |})).
    rewrite filter_map_comm, map_map. unfold allStages. cbv beta.
    rewrite (regroup_children (λ cs, case_id (case_row cs)) stages
               (λ st, stage_case_id (stage_row st)));
      [| apply (wf_case_ids _ Hwf) | apply (wf_stage_parent _ Hwf) | done].
    apply map_id_on. intros st Hst. rewrite Hsessions; [by destruct st|].
    unfold allStages. apply elem_of_flat_map. by exists cs. }
  assert (∀ c, c ∈ clients data →
            groupGet caseMap (client_id (client_row c)) = cases c) as Hcases.
  { intros c Hc. unfold caseMap.
    rewrite (groupGet_fold case_client_id
               (λ cs, {| case_row := cs;
                         stages := groupGet stageMap (case_id cs) |})).
    rewrite filter_map_comm, map_map. unfold allCases. cbv beta.
    rewrite (regroup_children (λ c, client_id (client_row c)) cases
               (λ cs, case_client_id (case_row cs)));
      [| apply (wf_client_ids _ Hwf) | apply (wf_case_parent _ Hwf) | done].
    apply map_id_on. intros cs Hcs. rewrite Hstages; [by destruct cs|].
    unfold allCases. apply elem_of_flat_map. by exists c. }
  assert (∀ inv, inv ∈ invoices data →
            groupGet invoiceItemMap (invoice_id (invoice_row inv)) = items inv)
    as Hitems.
  { intros inv Hinv. unfold invoiceItemMap.
    rewrite (groupGet_fold invoice_item_invoice_id id), map_id.
    apply (regroup_children (λ inv, invoice_id (invoice_row inv)) items);
      [apply (wf_invoice_ids _ Hwf) | apply (wf_item_parent _ Hwf) | done]. }
  transitivity
    {| clients := clients data; adminTasks := adminTasks data;
       appointments := appointments data;
       accountingEntries := accountingEntries data;
       invoices := invoices data; assistants := assistants data;
       documents := documents data; profiles := profiles data;
       siteFinances := siteFinances data |}; [|by destruct data].
  f_equal.
  - rewrite map_map. apply map_id_on. intros c Hc. cbv beta.
    rewrite Hcases by done. by destruct c.
  - rewrite map_map. apply map_id_on. intros i Hi. cbv beta.
    rewrite Hitems by done. by destruct i.
  - rewrite assistant_names_of_rows.
    rewrite uniqueNames_fresh;
      [| apply (wf_assistant_names _ Hwf) | intros ? _; apply not_elem_of_empty].
    apply filter_named, (wf_assistant_named _ Hwf).
Qed.

Lemma sampleData_wellFormed : wellFormed sampleData.
Proof.
  split.
  1-5: cbn; repeat (apply NoDup_cons; split); try apply NoDup_nil_2;
    rewrite ?elem_of_cons, ?elem_of_nil; intuition discriminate.
  - cbn. rewrite !elem_of_cons, elem_of_nil. intuition discriminate.
  - intros p c Hp Hc; cbn in Hp;
    apply list_elem_of_singleton in Hp as ->; cbn in Hc;
    apply list_elem_of_singleton in Hc as ->; reflexivity.
  - intros p c Hp Hc; cbn in Hp;
    apply list_elem_of_singleton in Hp as ->; cbn in Hc;
    apply list_elem_of_singleton in Hc as ->; reflexivity.
  - intros p c Hp Hc; cbn in Hp;
    apply list_elem_of_singleton in Hp as ->; cbn in Hc;
    apply list_elem_of_singleton in Hc as ->; reflexivity.
  - intros p c Hp Hc; cbn in Hp;
    apply list_elem_of_singleton in Hp as ->; cbn in Hc;
    apply list_elem_of_singleton in Hc as ->; reflexivity.
Defined.

Lemma constructData_flattenData_witness :
  constructData (flattenData sampleData) = sampleData.
Proof. apply (constructData_flattenData sampleData), sampleData_wellFormed. Defined.

(** Without the foreign key on the child the round trip returns the tree
    with the key filled in. *)
Example flattenData_injects_parent_id :
  let bare :=
    {| clients :=
         [ {| client_row := client_row sampleClient;
              cases := [ {| case_row := {| case_id := "k1";
                                           case_client_id := None;
                                           case_updated_at := Some 1000;
                                           case_props := [("subject", "lease")] |};
                            stages := [sampleStage] |} ] |} ];
       adminTasks := []; appointments := []; accountingEntries := [];
       invoices := [sampleInvoice]; assistants := ["Ahmad"; "Sara"];
       documents := []; profiles := []; siteFinances := [] |} in
  constructData (flattenData bare) = sampleData.
Proof. vm_compute. reflexivity. Qed.

(** ** Tombstones in a sync cycle *)

Lemma addKeys_elem {Y : Type} (g : Y → string) (ys : list Y) (s : gset string) x :
  x ∈ fold_left (λ s y, {[g y]} ∪ s) ys s ↔ x ∈ s ∨ ∃ y, y ∈ ys ∧ g y = x.
Proof.
  revert s. induction ys as [|a ys IH]; intros s; cbn [fold_left].
  - split; [by left|]. intros [?|(y & Hy & _)]; [done|].
    by apply elem_of_nil in Hy.
  - rewrite IH, elem_of_union, elem_of_singleton. split.
    + intros [[->|?]|(y & Hy & <-)]; [right|by left|right].
      * exists a. split; [apply list_elem_of_here | done].
      * exists y. split; [by apply list_elem_of_further | done].
    + intros [?|(y & Hy & <-)]; [by left; right|].
      apply elem_of_cons in Hy as [->|Hy]; [by left; left|].
      right. by exists y.
Qed.

Lemma addEntries_mono (entries : list (string * list string)) (s : gset string) x :
  x ∈ s →
  x ∈ fold_left
        (λ s entry, fold_left (λ s id, {[deletionKey entry.1 id]} ∪ s) entry.2 s)
        entries s.
Proof.
  revert s. induction entries as [|e entries IH]; intros s Hx; cbn [fold_left];
    [done|].
  apply IH, addKeys_elem. by left.
Qed.

(** Every remote tombstone is in the deleted-key set of the cycle. *)
Lemma deletedKeysOf_tombstone remoteDeletions deletedIds d :
  d ∈ remoteDeletions →
  deletionKey (table_name d) (record_id d)
  ∈ deletedKeysOf remoteDeletions deletedIds.
Proof.
  intros Hd. unfold deletedKeysOf. apply addEntries_mono, addKeys_elem.
  right. by exists d.
Qed.

Lemma upsertedMap_key (rows : list Row) (m : gmap (option string) Row) :
  (∀ k row, m !! k = Some row → rawPk row = k) →
  ∀ k row, fold_left (λ m row, <[rawPk row := row]> m) rows m !! k = Some row →
           rawPk row = k.
Proof.
  revert m. induction rows as [|a rows IH]; intros m Hm; cbn [fold_left]; [done|].
  apply IH. intros k row.
  destruct (decide (rawPk a = k)) as [<-|Hne].
  - rewrite lookup_insert_eq. by intros [= <-].
  - rewrite lookup_insert_ne by done. apply Hm.
Qed.

(** Folding the rows returned by the remote store back into a merged table
    replaces records by records of the same key. *)
Lemma refreshItem_getPk {R : Type} `{RowType R} (u : FlatData) (item : R) :
  getPk (refreshItem (upsertedMapOf u) item) = getPk item.
Proof.
  unfold refreshItem.
  destruct (upsertedMapOf u !! rawPk item) as [row|] eqn:Hrow; [|done].
  destruct (ofRow row) as [r|] eqn:Hr; [|done].
  apply ofRow_rawPk in Hr. unfold getPk. rewrite Hr.
  unfold upsertedMapOf in Hrow.
  apply upsertedMap_key in Hrow; [by rewrite Hrow|].
  intros k row'. by rewrite lookup_empty.
Qed.

Lemma refreshed_keys {R : Type} `{RowType R} (u : FlatData) (l : list R) :
  map getPk (map (refreshItem (upsertedMapOf u)) l) = map getPk l.
Proof.
  rewrite map_map. apply map_ext. intros item. apply refreshItem_getPk.
Qed.

Lemma refreshTables_keys (u m : FlatData) (table : string) :
  tableKeys (refreshTables (upsertedMapOf u) m) table = tableKeys m table.
Proof.
  unfold tableKeys, refreshTables; cbn -[upsertedMapOf].
  repeat (case_decide; [apply refreshed_keys|]). done.
Qed.

(** No table of a cycle, merged or to be pushed, holds a record whose key
    is in the deleted-key set of the cycle. *)
Lemma mergeTables_clean (localFlatData remoteFlatData : FlatData)
    (deletedKeys : gset string) (table k : string) :
  deletionKey table k ∈ deletedKeys →
  (k ∉ tableKeys (mergeTables localFlatData remoteFlatData deletedKeys).1 table) ∧
  (k ∉ tableKeys (mergeTables localFlatData remoteFlatData deletedKeys).2 table).
Proof.
  intros Hdel. unfold tableKeys, mergeTables; cbn.
  repeat (case_decide;
          [subst table; split;
           [by apply merged_keys_clean | by apply toUpsert_keys_clean]|]).
  split; apply not_elem_of_nil.
Qed.

(** C2. A local record that has a matching tombstone and was last updated
    less than 2 s after the deletion is absent from the merged tables of a
    sync cycle: no record of its key is in the merged table, before or
    after the rows returned by the remote store are folded back. *)
Theorem tombstone_precedence (localData : AppData) (deletedIds : DeletedIds)
    (remoteFlatData upserted : FlatData) (remoteDeletions : list SyncDeletion)
    (tableName k : string) (updatedAt : Z) (d : SyncDeletion) :
  (k, updatedAt) ∈ tableStamps (flattenData localData) tableName →
  d ∈ remoteDeletions → table_name d = tableName → record_id d = k →
  updatedAt < deleted_at d + 2000 →
  let mergedFlatData :=
    (reconcile localData deletedIds remoteFlatData remoteDeletions).1 in
  (k ∉ tableKeys mergedFlatData tableName) ∧
  (k ∉ tableKeys (refreshTables (upsertedMapOf upserted) mergedFlatData)
         tableName).
Proof.
  intros _ Hd <- <- _ mergedFlatData.
  rewrite refreshTables_keys.
  assert (record_id d ∉ tableKeys mergedFlatData (table_name d)); [|done].
  unfold mergedFlatData, reconcile.
  by apply mergeTables_clean, deletedKeysOf_tombstone.
Qed.

Lemma tombstone_precedence_witness :
  let d := {| table_name := "cases"; record_id := "k1"; deleted_at := 500 |} in
  let mergedFlatData :=
    (reconcile sampleData getInitialDeletedIds emptyFlatData [d]).1 in
  ("k1" ∉ tableKeys mergedFlatData "cases") ∧
  ("k1" ∉ tableKeys (refreshTables (upsertedMapOf emptyFlatData) mergedFlatData)
            "cases").
Proof.
  intros d.
  apply (tombstone_precedence sampleData getInitialDeletedIds emptyFlatData
           emptyFlatData [d] "cases" "k1" 1000 d).
  - vm_compute. apply list_elem_of_here.
  - apply list_elem_of_here.
  - reflexivity.
  - reflexivity.
  - reflexivity.
Defined.

(** C3 fails on the code. A local client edited 9 s after its remote
    deletion, beyond the 2 s buffer, survives the filter of the deletion
    ledger, but the reconciler then skips it because its key is in the
    deleted-key set: it is neither in the merged table nor marked for
    push. *)
Example edited_record_not_resurrected :
  getTime editedClient >= deleted_at earlierDeletion + 2000 ∧
  flat_clients
    (applyDeletionsToLocal (flattenData editedClientData) [earlierDeletion])
  = [editedClient] ∧
  reconcile editedClientData getInitialDeletedIds emptyFlatData [earlierDeletion]
  = (emptyFlatData, emptyFlatData).
Proof. vm_compute. repeat split; discriminate. Qed.

(** The same holds for every record and every timestamp: a tombstoned key
    is in no merged table and in no push set of the cycle. *)
Lemma tombstoned_never_merged (localData : AppData) (deletedIds : DeletedIds)
    (remoteFlatData : FlatData) (remoteDeletions : list SyncDeletion)
    (d : SyncDeletion) :
  d ∈ remoteDeletions →
  let reconciled :=
    reconcile localData deletedIds remoteFlatData remoteDeletions in
  (record_id d ∉ tableKeys reconciled.1 (table_name d)) ∧
  (record_id d ∉ tableKeys reconciled.2 (table_name d)).
Proof.
  intros Hd reconciled. unfold reconciled, reconcile.
  by apply mergeTables_clean, deletedKeysOf_tombstone.
Qed.

(** ** Traces of monadic code *)

Lemma bind_unfold {A B : Type} (m : M A) (k : A → M B) :
  m ≫= k = match m.2 with
            | inl e => (m.1, inl e)
            | inr a => (m.1 ++ (k a).1, (k a).2)
            end.
Proof.
  destruct m as [t [e|a]]; cbn; [done|]. by destruct (k a).
Qed.

Lemma bind_throws {A B : Type} (m : M A) (k : A → M B) e :
  m.2 = inl e → m ≫= k = (m.1, inl e).
Proof. intros Hm. by rewrite bind_unfold, Hm. Qed.

Lemma bind_returns {A B : Type} (m : M A) (k : A → M B) a :
  m.2 = inr a → m ≫= k = (m.1 ++ (k a).1, (k a).2).
Proof. intros Hm. by rewrite bind_unfold, Hm. Qed.

Lemma quiet_nil : quiet [].
Proof. intros e He. by apply elem_of_nil in He. Qed.

Lemma quiet_app t1 t2 : quiet t1 → quiet t2 → quiet (t1 ++ t2).
Proof.
  intros H1 H2 e He. apply elem_of_app in He as [?|?]; [by apply H1 | by apply H2].
Qed.

Lemma quiet_bind {A B : Type} (m : M A) (k : A → M B) :
  quiet m.1 → (∀ a, quiet (k a).1) → quiet (m ≫= k).1.
Proof.
  intros Hm Hk. rewrite bind_unfold. destruct (m.2); [done|].
  by apply quiet_app.
Qed.

Lemma quiet_emit e : publishes e = false → quiet (emit e).1.
Proof. intros He e' Hin. by apply list_elem_of_singleton in Hin as ->. Qed.

(** ** The deletion push *)

Section DeletionPush.
Variables (gw : Gateway) (deletions : string → list string) (user_id : string).

(** One round of the loop: nothing for a table without pending ids; for
    [profiles] the delete request, and an error tagged with the table when
    the request fails; for any other table the TypeError of the log
    statement, before any request. *)
Lemma deleteTable_run (t : string) :
  deleteTable gw deletions user_id t =
  match deletions t with
  | [] => ([], inr ())
  | ids =>
      if decide (t ≠ "profiles") then ([], inl catchTypeError)
      else ([DeleteRows t "id" ids],
            match delete_in gw t ids with
            | Some msg => inl {| message := msg; table := Some t |}
            | None => inr ()
            end)
  end.
Proof.
  unfold deleteTable. destruct (deletions t) as [|id ids]; [done|].
  destruct (decide (t ≠ "profiles")) as [|Ht]; [done|].
  apply dec_stable in Ht as ->.
  by destruct (delete_in gw "profiles" (id :: ids)).
Qed.

(** The loop over tables other than [profiles]: it sends nothing, and it
    throws, at the first table with pending ids, the TypeError. *)
Lemma forEachTable_logged (tables : list string) :
  "profiles" ∉ tables →
  forEachTable (deleteTable gw deletions user_id) tables
  = (if existsb (hasDeletions deletions) tables
     then ([], inl catchTypeError) else ([], inr ())).
Proof.
  induction tables as [|t tables IH]; intros Hnot; cbn [forEachTable existsb];
    [done|].
  apply not_elem_of_cons in Hnot as [Ht Hnot].
  rewrite deleteTable_run. unfold hasDeletions at 1.
  destruct (deletions t) as [|id ids].
  - rewrite bind_unfold. cbn [fst snd orb app]. rewrite (IH Hnot).
    by destruct (existsb _ tables).
  - by rewrite decide_True by done.
Qed.

Lemma forEachTable_app (body : string → M unit) (l1 l2 : list string) :
  forEachTable body (l1 ++ l2)
  = (forEachTable body l1;; forEachTable body l2).
Proof.
  induction l1 as [|t l1 IH]; cbn [app forEachTable].
  - rewrite bind_unfold. cbn [mret M_ret fst snd app].
    by destruct (forEachTable body l2).
  - rewrite IH.
    destruct (body t) as [tr [e|[]]], (forEachTable body l1) as [tr1 [e1|[]]],
      (forEachTable body l2) as [tr2 r2]; cbn; by rewrite ?app_assoc.
Qed.

(** The push as a whole: with pending ids of any table but [profiles] it
    sends nothing and throws the TypeError; otherwise it is the round of
    [profiles]. *)
Lemma deleteDataFromSupabase_run :
  client_available gw = true →
  deleteDataFromSupabase gw deletions user_id
  = (if existsb (hasDeletions deletions) loggedTables
     then ([], inl catchTypeError)
     else deleteTable gw deletions user_id "profiles").
Proof.
  intros Hclient. unfold deleteDataFromSupabase. rewrite Hclient.
  change deletionOrder with (loggedTables ++ ["profiles"]).
  rewrite forEachTable_app, (forEachTable_logged loggedTables).
  - destruct (existsb _ loggedTables); [reflexivity|].
    cbn [forEachTable].
    destruct (deleteTable gw deletions user_id "profiles") as [tr [e|[]]];
      cbn; by rewrite ?app_nil_r.
  - unfold loggedTables. rewrite !not_elem_of_cons, elem_of_nil.
    repeat split; discriminate || tauto.
Qed.

End DeletionPush.

(** ** The sync orchestrator *)

Lemma quiet_forEachTable (body : string → M unit) (tables : list string) :
  (∀ t, quiet (body t).1) → quiet (forEachTable body tables).1.
Proof.
  intros Hbody. induction tables as [|t tables IH]; cbn [forEachTable].
  - apply quiet_nil.
  - by apply quiet_bind.
Qed.

Lemma quiet_deleteDataFromSupabase gw deletions user_id :
  quiet (deleteDataFromSupabase gw deletions user_id).1.
Proof.
  unfold deleteDataFromSupabase. destruct (client_available gw); [|apply quiet_nil].
  apply quiet_forEachTable. intros t. rewrite deleteTable_run.
  destruct (deletions t); [apply quiet_nil|].
  destruct (decide (t ≠ "profiles")); [apply quiet_nil|].
  by apply (quiet_emit (DeleteRows _ _ _)).
Qed.

Lemma quiet_upsertTable {R : Type} `{RowType R} gw user_id t (records : list R) :
  quiet (upsertTable gw user_id t records).1.
Proof.
  unfold upsertTable. destruct records as [|r records]; [apply quiet_nil|].
  apply quiet_bind; [by apply quiet_emit|]. intros _.
  destruct (upsert_select gw t _); apply quiet_nil.
Qed.

Lemma quiet_upsertDataToSupabase gw data user_id :
  quiet (upsertDataToSupabase gw data user_id).1.
Proof.
  unfold upsertDataToSupabase. destruct (client_available gw); [|apply quiet_nil].
  repeat (apply quiet_bind; [apply quiet_upsertTable | intros ?]).
  apply quiet_nil.
Qed.

Lemma fetchDataFromSupabase_trace gw : (fetchDataFromSupabase gw).1 = [].
Proof.
  unfold fetchDataFromSupabase.
  destruct (client_available gw); [|done]. by destruct (select_all gw).
Qed.

Lemma removeDocumentPaths_run gw deletedIds :
  ∃ t synced, removeDocumentPaths gw deletedIds = (t, inr synced) ∧ quiet t.
Proof.
  unfold removeDocumentPaths.
  destruct (deleted_documentPaths deletedIds) as [|path paths].
  { eexists _, _. split; [done | apply quiet_nil]. }
  destruct (client_available gw).
  - destruct (storage_remove gw (path :: paths));
      (eexists _, _; split; [reflexivity|]);
      by apply (quiet_emit (StorageRemove _)).
  - eexists _, _. split; [done | apply quiet_nil].
Qed.

Lemma quiet_pushDeletions gw deletedIds currentUser synced :
  quiet (pushDeletions gw deletedIds currentUser synced).1.
Proof.
  unfold pushDeletions. destruct (anyFlatDeletes deletedIds); [|apply quiet_nil].
  apply quiet_bind; [by apply quiet_emit|]. intros _.
  apply quiet_bind; [apply quiet_deleteDataFromSupabase|]. intros _.
  apply quiet_nil.
Qed.

(** Until its last remote request the cycle hands nothing to the hook. *)
Lemma quiet_syncExchange gw p currentUser :
  quiet (syncExchange gw p currentUser).1.
Proof.
  unfold syncExchange.
  apply quiet_bind; [by apply quiet_emit|]. intros _.
  apply quiet_bind; [rewrite fetchDataFromSupabase_trace; apply quiet_nil|].
  intros remoteFlatData. cbv zeta.
  apply quiet_bind.
  { destruct (removeDocumentPaths_run gw (deletedIds p)) as (t & sd & -> & Ht).
    done. }
  intros sd. apply quiet_bind; [apply quiet_pushDeletions|]. intros sd'.
  apply quiet_bind; [by apply quiet_emit|]. intros _.
  apply quiet_bind; [apply quiet_upsertDataToSupabase|]. intros u.
  apply quiet_nil.
Qed.

Lemma pushDeletions_throws gw deletedIds currentUser synced e :
  anyFlatDeletes deletedIds = true →
  (deleteDataFromSupabase gw (flatDeletes deletedIds) currentUser).2 = inl e →
  pushDeletions gw deletedIds currentUser synced
  = (SetStatus syncing (Some "جاري إرسال عمليات الحذف...")
       :: (deleteDataFromSupabase gw (flatDeletes deletedIds) currentUser).1,
     inl e).
Proof.
  intros Hany Hdel. unfold pushDeletions. rewrite Hany.
  rewrite bind_unfold. cbn [emit fst snd].
  by rewrite (bind_throws _ _ e Hdel).
Qed.

(** The exchange throws exactly when one of its three fallible steps
    does. *)
Lemma syncExchange_throws gw p currentUser :
  stepThrows gw p currentUser →
  ∃ e, (syncExchange gw p currentUser).2 = inl e.
Proof.
  intros Hstep. unfold syncExchange.
  rewrite bind_unfold. cbn [emit fst snd]. rewrite bind_unfold.
  destruct (fetchDataFromSupabase gw).2 as [e|remoteFlatData] eqn:Hfetch.
  { by exists e. }
  cbv zeta. cbn [snd]. rewrite bind_unfold.
  destruct (removeDocumentPaths_run gw (deletedIds p)) as (t & sd & -> & _).
  cbn [fst snd]. rewrite bind_unfold.
  destruct (pushDeletions gw (deletedIds p) currentUser sd).2 as [e|sd'] eqn:Hpush.
  { by exists e. }
  cbn [snd]. rewrite bind_unfold. cbn [emit fst snd]. rewrite bind_unfold.
  destruct Hstep as [[e He]|[[Hany [e He]]|(remote & e & Hremote & He)]].
  - by rewrite He in Hfetch.
  - by rewrite (pushDeletions_throws _ _ _ _ e Hany He) in Hpush.
  - rewrite Hfetch in Hremote. injection Hremote as <-. rewrite He. by exists e.
Qed.

Lemma syncFailed_run err :
  ∃ msg, syncFailed err = ([SetStatus error (Some msg)], inr ()) ∧ msg ≠ "".
Proof.
  unfold syncFailed. eexists. split; [reflexivity|].
  destruct (includes _ _); [done|]. by destruct (decide (message err = "")).
Qed.

(** A full sync whose guards and schema probe pass is the [try] block
    under its [catch]. *)
Lemma manualSync_passes gw (s : HookState) currentUser :
  hook_syncStatus s ≠ syncing →
  success (checkSupabaseSchema gw) = true →
  manualSync gw (syncProps s (Some currentUser) true false)
  = (emit (SetStatus syncing (Some "جاري التحقق من حالة السحابة..."));;
     tryCatch (syncAttempt gw (syncProps s (Some currentUser) true false)
                 currentUser)
              syncFailed).
Proof.
  intros Hstatus Hschema. unfold manualSync. cbn [syncStatus syncProps isAuthLoading isOnline user].
  rewrite bool_decide_eq_false_2 by done. cbn [orb]. by rewrite Hschema.
Qed.

(** Outcome of a full sync whose exchange throws: the trace is the status
    change at the start, the trace of the exchange, and the change to the
    error state with a non-empty message. *)
Lemma manualSync_failed gw (s : HookState) currentUser e :
  hook_syncStatus s ≠ syncing →
  success (checkSupabaseSchema gw) = true →
  (syncExchange gw (syncProps s (Some currentUser) true false) currentUser).2
  = inl e →
  ∃ msg, msg ≠ "" ∧
    (manualSync gw (syncProps s (Some currentUser) true false)).1
    = SetStatus syncing (Some "جاري التحقق من حالة السحابة...")
        :: (syncExchange gw (syncProps s (Some currentUser) true false)
              currentUser).1
        ++ [SetStatus error (Some msg)].
Proof.
  intros Hstatus Hschema Hthrow. rewrite manualSync_passes by done.
  destruct (syncFailed_run e) as (msg & Hfailed & Hmsg). exists msg.
  split; [done|]. unfold syncAttempt.
  rewrite (bind_throws _ _ e Hthrow). unfold tryCatch. rewrite Hfailed.
  by rewrite bind_unfold.
Qed.

(** Requests and status changes leave the snapshot and the pending
    deletions of the hook as they are. *)
Lemma quiet_preserves trace (s : HookState) :
  quiet trace →
  hook_data (fold_left handleEffect trace s) = hook_data s ∧
  hook_deletedIds (fold_left handleEffect trace s) = hook_deletedIds s.
Proof.
  revert s. induction trace as [|e trace IH]; intros s Hq; cbn [fold_left]; [done|].
  destruct (IH (handleEffect s e)) as [-> ->].
  { intros e' He'. by apply Hq, list_elem_of_further. }
  pose proof (Hq e (list_elem_of_here _ _)) as He.
  by destruct e.
Qed.

Lemma schema_passed_client gw :
  success (checkSupabaseSchema gw) = true → client_available gw = true.
Proof. unfold checkSupabaseSchema. by destruct (client_available gw). Qed.

(** A quiet trace that ends with the change to the error state leaves the
    snapshot and the pending deletions alone. *)
Lemma quiet_then_error trace (s : HookState) msg :
  quiet trace →
  let s' := fold_left handleEffect (trace ++ [SetStatus error (Some msg)]) s in
  hook_data s' = hook_data s ∧ hook_deletedIds s' = hook_deletedIds s ∧
  hook_syncStatus s' = error ∧ hook_lastSyncError s' = Some msg.
Proof.
  intros Hq s'. unfold s'. rewrite fold_left_app.
  destruct (quiet_preserves trace s Hq) as [Hdata Hdel].
  cbn [fold_left handleEffect hook_data hook_deletedIds hook_syncStatus
       hook_lastSyncError].
  done.
Qed.

(** C9. When the schema probe passes and the fetch, the deletion push or
    the upsert push throws, the full sync ends in the error state with a
    non-empty message, [onDataSynced] is never called, and the local
    snapshot is left as it was. *)
Theorem failed_sync_keeps_snapshot (gw : Gateway) (s : HookState)
    (currentUser : string) :
  hook_syncStatus s ≠ syncing →
  success (checkSupabaseSchema gw) = true →
  stepThrows gw (syncProps s (Some currentUser) true false) currentUser →
  let run := manualSync gw (syncProps s (Some currentUser) true false) in
  let s' := afterManualSync gw (Some currentUser) true false s in
  (∃ msg, msg ≠ "" ∧ last run.1 = Some (SetStatus error (Some msg)) ∧
          hook_syncStatus s' = error ∧ hook_lastSyncError s' = Some msg) ∧
  (∀ mergedData, OnDataSynced mergedData ∉ run.1) ∧
  hook_data s' = hook_data s.
Proof.
  intros Hstatus Hschema Hstep run s'.
  destruct (syncExchange_throws _ _ _ Hstep) as [e He].
  destruct (manualSync_failed gw s currentUser e Hstatus Hschema He)
    as (msg & Hmsg & Htrace).
  pose proof (quiet_syncExchange gw (syncProps s (Some currentUser) true false)
                currentUser) as Hquiet.
  assert (quiet (SetStatus syncing (Some "جاري التحقق من حالة السحابة...")
                   :: (syncExchange gw (syncProps s (Some currentUser) true false)
                         currentUser).1)) as Hquiet'.
  { intros e' He'.
    apply elem_of_cons in He' as [->|He']; [done | by apply Hquiet]. }
  unfold s', afterManualSync, run. rewrite Htrace, app_comm_cons.
  destruct (quiet_then_error _ s msg Hquiet') as (Hdata & _ & Hst & Herr).
  split; [|split].
  - exists msg. split; [done|]. split; [by rewrite last_snoc | done].
  - intros mergedData Hin. rewrite elem_of_app in Hin.
    destruct Hin as [Hin|Hin].
    + by apply Hquiet' in Hin.
    + by apply list_elem_of_singleton in Hin.
  - done.
Qed.

Lemma failed_sync_keeps_snapshot_witness :
  let s := twoPendingDeletions in
  let run := manualSync casesDeleteRefused (syncProps s (Some "u1") true false) in
  let s' := afterManualSync casesDeleteRefused (Some "u1") true false s in
  (∃ msg, msg ≠ "" ∧ last run.1 = Some (SetStatus error (Some msg)) ∧
          hook_syncStatus s' = error ∧ hook_lastSyncError s' = Some msg) ∧
  (∀ mergedData, OnDataSynced mergedData ∉ run.1) ∧
  hook_data s' = hook_data s.
Proof.
  apply (failed_sync_keeps_snapshot casesDeleteRefused twoPendingDeletions "u1").
  - discriminate.
  - reflexivity.
  - right. left. split; [reflexivity|].
    eexists. vm_compute. reflexivity.
Defined.

Lemma removeDocumentPaths_requests gw deletedIds e :
  e ∈ (removeDocumentPaths gw deletedIds).1 →
  e = StorageRemove (deleted_documentPaths deletedIds).
Proof.
  unfold removeDocumentPaths.
  destruct (deleted_documentPaths deletedIds) as [|path paths];
    [by intros ?%elem_of_nil|].
  destruct (client_available gw); [|by intros ?%elem_of_nil].
  by destruct (storage_remove gw (path :: paths));
    intros ->%list_elem_of_singleton.
Qed.

(** The exchange of a full sync whose deletion push throws: the status
    change, the removal of the queued blobs, the status change of the push
    and the requests of the push, ended by the error of the push. *)
Lemma syncExchange_push_fails gw p currentUser remoteFlatData e :
  (fetchDataFromSupabase gw).2 = inr remoteFlatData →
  anyFlatDeletes (deletedIds p) = true →
  (deleteDataFromSupabase gw (flatDeletes (deletedIds p)) currentUser).2
  = inl e →
  syncExchange gw p currentUser
  = (SetStatus syncing (Some "جاري جلب البيانات والتغييرات...")
       :: (removeDocumentPaths gw (deletedIds p)).1
       ++ SetStatus syncing (Some "جاري إرسال عمليات الحذف...")
       :: (deleteDataFromSupabase gw (flatDeletes (deletedIds p))
             currentUser).1,
     inl e).
Proof.
  intros Hfetch Hany Hdel.
  destruct (removeDocumentPaths_run gw (deletedIds p)) as (trm & sd & Hrun & _).
  unfold syncExchange. rewrite bind_unfold. cbn [emit fst snd].
  rewrite bind_unfold, Hfetch, fetchDataFromSupabase_trace. cbv zeta.
  cbn [app]. rewrite Hrun, bind_unfold. cbn [fst snd].
  by rewrite bind_unfold, (pushDeletions_throws _ _ _ _ e Hany Hdel).
Qed.




(** C7 fails on the code. With a document and a case pending deletion and
    a remote store that refuses nothing, the push stops at the log
    statement of [case_documents], the first table with pending ids: it
    sends no request and throws the TypeError. The full sync sends no
    delete request, ends in the error state with the message of the
    TypeError, and both ids are still pending. *)
Example pending_deletions_not_pushed :
  let s := twoPendingDeletions in
  let deletions := flatDeletes (hook_deletedIds s) in
  let run := manualSync healthyGateway (syncProps s (Some "u1") true false) in
  let s' := afterManualSync healthyGateway (Some "u1") true false s in
  List.filter (hasDeletions deletions) deletionOrder
  = ["case_documents"; "cases"] ∧
  deleteDataFromSupabase healthyGateway deletions "u1"
  = ([], inl catchTypeError) ∧
  deleteRequests run.1 = [] ∧
  hook_syncStatus s' = error ∧
  hook_lastSyncError s' = Some (message catchTypeError) ∧
  hook_deletedIds s' = hook_deletedIds s.
Proof. vm_compute. done. Qed.

(** ** The retention sweep *)

Section Sweep.
Variable env : SweepEnv.

(** The removal of the blob of a document reports an error that the sweep
    does not tolerate. *)
Local Abbreviation refused doc :=
  (∃ code, sweep_remove env (doc_storagePath doc) = RemoveFailed code
           ∧ code ≠ "404").

(** The loop leaves the metadata store and the [documents] slice as they
    are: the put of an archived copy brings no key and is rejected. *)
Lemma sweepLoop_local docs s :
  metadataStore (sweepLoop env docs s) = metadataStore s ∧
  documentsState (sweepLoop env docs s) = documentsState s.
Proof.
  revert s. induction docs as [|doc docs IH]; intros s; cbn [sweepLoop];
    [done|].
  destruct (sweep_remove env (doc_storagePath doc)) as [|code|];
    cbn [removalTolerated metadataPut]; [done| |done].
  case_bool_decide; [done|]. by destruct (IH
    {| metadataStore := metadataStore s; documentsState := documentsState s;
       removeRequests := removeRequests s ++ [doc_storagePath doc] |}).
Qed.

(** The loop goes on after a removal that is refused. *)
Lemma sweepLoop_refused doc rest s :
  refused doc →
  sweepLoop env (doc :: rest) s
  = sweepLoop env rest
      {| metadataStore := metadataStore s; documentsState := documentsState s;
         removeRequests := removeRequests s ++ [doc_storagePath doc] |}.
Proof.
  intros (code & Hout & Hcode). cbn [sweepLoop]. rewrite Hout.
  cbn [removalTolerated]. by rewrite bool_decide_eq_false_2.
Qed.

(** It ends with the request for the first document whose removal is
    tolerated, or rejects. *)
Lemma sweepLoop_stops doc rest s :
  removalTolerated (sweep_remove env (doc_storagePath doc)) = true
  ∨ sweep_remove env (doc_storagePath doc) = RemoveRejected →
  sweepLoop env (doc :: rest) s
  = {| metadataStore := metadataStore s; documentsState := documentsState s;
       removeRequests := removeRequests s ++ [doc_storagePath doc] |}.
Proof.
  intros Hstop. cbn [sweepLoop].
  destruct (sweep_remove env (doc_storagePath doc)) as [|code|];
    cbn [removalTolerated metadataPut] in *; [done| |done].
  by destruct Hstop as [->|?].
Qed.

Lemma sweepLoop_requests_all docs s :
  (∀ d, d ∈ docs → refused d) →
  removeRequests (sweepLoop env docs s)
  = removeRequests s ++ map doc_storagePath docs.
Proof.
  revert s. induction docs as [|doc docs IH]; intros s Hall.
  { cbn. by rewrite app_nil_r. }
  rewrite sweepLoop_refused by apply Hall, list_elem_of_here.
  rewrite IH by (intros d Hd; by apply Hall, list_elem_of_further).
  cbn [removeRequests map]. by rewrite <- app_assoc.
Qed.

Lemma sweepLoop_requests_stop pre doc post s :
  (∀ d, d ∈ pre → refused d) →
  removalTolerated (sweep_remove env (doc_storagePath doc)) = true
  ∨ sweep_remove env (doc_storagePath doc) = RemoveRejected →
  removeRequests (sweepLoop env (pre ++ doc :: post) s)
  = removeRequests s ++ map doc_storagePath (pre ++ [doc]).
Proof.
  revert s. induction pre as [|d pre IH]; intros s Hpre Hstop; cbn [app].
  { by rewrite sweepLoop_stops. }
  rewrite sweepLoop_refused by apply Hpre, list_elem_of_here.
  rewrite IH; [|intros d' Hd'; by apply Hpre, list_elem_of_further|done].
  cbn [removeRequests map]. by rewrite <- app_assoc.
Qed.

(** The requests of the loop are for the first documents of its list. *)
Lemma sweepLoop_requests docs s :
  ∃ n, removeRequests (sweepLoop env docs s)
       = removeRequests s ++ map doc_storagePath (take n docs).
Proof.
  revert s. induction docs as [|doc docs IH]; intros s.
  { exists 0%nat. cbn. by rewrite app_nil_r. }
  cbn [sweepLoop].
  set (requested :=
         {| metadataStore := metadataStore s; documentsState := documentsState s;
            removeRequests := removeRequests s ++ [doc_storagePath doc] |}).
  assert (∃ n, removeRequests requested
               = removeRequests s ++ map doc_storagePath (take n (doc :: docs)))
    as Hone by (by exists 1%nat).
  assert (∃ n, removeRequests (sweepLoop env docs requested)
               = removeRequests s ++ map doc_storagePath (take n (doc :: docs)))
    as Hmore.
  { destruct (IH requested) as [n ->]. exists (S n).
    cbn [removeRequests requested take map]. by rewrite <- app_assoc. }
  destruct (sweep_remove env (doc_storagePath doc)) as [|code|];
    cbn [removalTolerated metadataPut]; [done| |done].
  by case_bool_decide.
Qed.
End Sweep.

(** C10 fails on the code. A document in [synced] and two days old, in a
    sweep whose blob removal succeeds: the removal of the blob is
    requested, the put of the archived copy is rejected, and the document
    is still [synced] in the metadata store and in the [documents] slice.
    The next sweep finds it expired again and asks for the removal of the
    same blob once more. *)
Example expired_document_not_archived :
  let s' := cleanupCloudStorage removingSweep twoDocuments in
  isExpiredDoc (sweep_now removingSweep) oldSyncedDoc = true ∧
  sweep_remove removingSweep (doc_storagePath oldSyncedDoc) = Removed ∧
  s' = {| metadataStore := [oldSyncedDoc; recentSyncedDoc];
          documentsState := [oldSyncedDoc; recentSyncedDoc];
          removeRequests := ["u1/k1/d1-deed.pdf"] |} ∧
  doc_localState oldSyncedDoc = doc_synced ∧
  removeRequests (cleanupCloudStorage removingSweep s')
  = ["u1/k1/d1-deed.pdf"; "u1/k1/d1-deed.pdf"].
Proof. vm_compute. done. Qed.

(** ** The upsert push *)

Lemma elem_of_bind_trace {A B : Type} (m : M A) (k : A → M B) e :
  e ∈ (m ≫= k).1 → e ∈ m.1 ∨ ∃ a, m.2 = inr a ∧ e ∈ (k a).1.
Proof.
  rewrite bind_unfold. destruct (m.2) as [err|a] eqn:Hm; cbn [fst].
  - by left.
  - rewrite elem_of_app. intros [?|?]; [by left|]. right. by exists a.
Qed.

Lemma upsertTable_trace {R : Type} `{RowType R} gw user_id t (records : list R) e :
  e ∈ (upsertTable gw user_id t records).1 →
  e = UpsertRows t (map toRow records) user_id.
Proof.
  unfold upsertTable. destruct records as [|r records].
  { intros Hin. by apply elem_of_nil in Hin. }
  intros Hin. apply elem_of_bind_trace in Hin as [Hin|(_ & _ & Hin)].
  - by apply list_elem_of_singleton in Hin.
  - destruct (upsert_select gw t _); by apply elem_of_nil in Hin.
Qed.

Lemma upsertTable_accepted {R : Type} `{RowType R} gw user_id t (records : list R) :
  (∀ t rows msg, upsert_select gw t rows ≠ inl msg) →
  ∃ resData, (upsertTable gw user_id t records).2 = inr resData.
Proof.
  intros Hok. unfold upsertTable. destruct records as [|r records]; [by eexists|].
  rewrite bind_unfold. cbn [emit fst snd].
  destruct (upsert_select gw t _) as [msg|rows] eqn:Hsel; [|by eexists].
  by destruct (Hok _ _ _ Hsel).
Qed.

Lemma hasId_parent {P : Type} (pid : P → string) (parents : list P) v :
  hasId (list_to_set (map pid parents)) v = true →
  ∃ p, p ∈ parents ∧ v = Some (pid p).
Proof.
  unfold hasId. destruct v as [x|]; [|done]. intros Hin.
  apply bool_decide_eq_true, elem_of_list_to_set, list_elem_of_fmap in Hin
    as (p & -> & Hp).
  by exists p.
Qed.

(** The effects of the upsert push are upsert requests, one per table at
    most, each carrying the batch of its table. *)
Lemma upsertDataToSupabase_trace gw data user_id e :
  e ∈ (upsertDataToSupabase gw data user_id).1 →
  e ∈ [ UpsertRows "profiles" (map toRow (flat_profiles data)) user_id;
        UpsertRows "assistants" (map toRow (flat_assistants data)) user_id;
        UpsertRows "clients" (map toRow (flat_clients data)) user_id;
        UpsertRows "cases" (map toRow (casesBatch data)) user_id;
        UpsertRows "stages" (map toRow (stagesBatch data)) user_id;
        UpsertRows "sessions" (map toRow (sessionsBatch data)) user_id;
        UpsertRows "invoices" (map toRow (invoicesBatch data)) user_id;
        UpsertRows "invoice_items" (map toRow (invoiceItemsBatch data)) user_id;
        UpsertRows "case_documents" (map toRow (caseDocumentsBatch data)) user_id;
        UpsertRows "admin_tasks" (map toRow (flat_admin_tasks data)) user_id;
        UpsertRows "appointments" (map toRow (flat_appointments data)) user_id;
        UpsertRows "accounting_entries"
          (map toRow (flat_accounting_entries data)) user_id;
        UpsertRows "site_finances" (map toRow (flat_site_finances data)) user_id ].
Proof.
  unfold upsertDataToSupabase. destruct (client_available gw).
  2: { intros Hin. by apply elem_of_nil in Hin. }
  intros Hin.
  repeat (apply elem_of_bind_trace in Hin as [Hin|(? & _ & Hin)];
          [apply upsertTable_trace in Hin as ->;
           repeat first [apply list_elem_of_here | apply list_elem_of_further]|]).
  by apply elem_of_nil in Hin.
Qed.

(** C6. In the upsert push, a child record whose parent id is not among
    the records of the write set (a case without its client, a stage
    without its case, a session without its stage, an invoice item without
    its invoice, a case document without its case) is left out of the
    batch sent for its table, and leaving it out raises no error: the push
    fails only when the remote store refuses a batch. *)
Theorem upsert_excludes_orphans (gw : Gateway) (data : FlatData)
    (user_id : string) :
  (∀ c, (∀ p, p ∈ flat_clients data → case_client_id c ≠ Some (client_id p)) →
        c ∉ casesBatch data) ∧
  (∀ st, (∀ p, p ∈ flat_cases data → stage_case_id st ≠ Some (case_id p)) →
         st ∉ stagesBatch data) ∧
  (∀ s, (∀ p, p ∈ flat_stages data → session_stage_id s ≠ Some (stage_id p)) →
        s ∉ sessionsBatch data) ∧
  (∀ i, (∀ p, p ∈ flat_invoices data →
              invoice_item_invoice_id i ≠ Some (invoice_id p)) →
        i ∉ invoiceItemsBatch data) ∧
  (∀ d, (∀ p, p ∈ flat_cases data → doc_caseId d ≠ case_id p) →
        d ∉ caseDocumentsBatch data) ∧
  (∀ t rows uid,
     UpsertRows t rows uid ∈ (upsertDataToSupabase gw data user_id).1 →
     (t = "cases" → rows = map toRow (casesBatch data)) ∧
     (t = "stages" → rows = map toRow (stagesBatch data)) ∧
     (t = "sessions" → rows = map toRow (sessionsBatch data)) ∧
     (t = "invoice_items" → rows = map toRow (invoiceItemsBatch data)) ∧
     (t = "case_documents" → rows = map toRow (caseDocumentsBatch data))) ∧
  (client_available gw = true →
   (∀ t rows msg, upsert_select gw t rows ≠ inl msg) →
   ∃ results, (upsertDataToSupabase gw data user_id).2 = inr results).
Proof.
  split; [|split; [|split; [|split; [|split; [|split]]]]].
  - intros c Horphan Hin. unfold casesBatch in Hin.
    apply list_elem_of_In, filter_In in Hin as [_ Hin].
    apply hasId_parent in Hin as (p & Hp & Hfk). by apply (Horphan p).
  - intros st Horphan Hin. unfold stagesBatch in Hin.
    apply list_elem_of_In, filter_In in Hin as [_ Hin].
    apply hasId_parent in Hin as (p & Hp & Hfk). by apply (Horphan p).
  - intros s Horphan Hin. unfold sessionsBatch in Hin.
    apply list_elem_of_In, filter_In in Hin as [_ Hin].
    apply hasId_parent in Hin as (p & Hp & Hfk). by apply (Horphan p).
  - intros i Horphan Hin. unfold invoiceItemsBatch in Hin.
    apply list_elem_of_In, filter_In in Hin as [_ Hin].
    apply hasId_parent in Hin as (p & Hp & Hfk). by apply (Horphan p).
  - intros d Horphan Hin. unfold caseDocumentsBatch in Hin.
    apply list_elem_of_In, filter_In in Hin as [_ Hin].
    apply bool_decide_eq_true, elem_of_list_to_set, list_elem_of_fmap in Hin
      as (p & Hfk & Hp).
    by apply (Horphan p).
  - intros t rows uid Hsent. apply upsertDataToSupabase_trace in Hsent.
    repeat split; intros ->;
      repeat (apply elem_of_cons in Hsent as [Hsent|Hsent];
              [by inversion Hsent|]);
      by apply elem_of_nil in Hsent.
  - intros Hclient Hok. unfold upsertDataToSupabase. rewrite Hclient.
    repeat (match goal with
            | |- context [upsertTable gw user_id ?t ?recs ≫= _] =>
                let Hr := fresh "Hr" in
                destruct (upsertTable_accepted gw user_id t recs Hok) as [? Hr];
                rewrite (bind_returns _ _ _ Hr); cbn [snd]
            end).
    by eexists.
Qed.

(** A case that names a client outside the write set is not sent, though
    its stage, whose case is in the write set, is. *)
Example orphan_case_not_sent :
  let orphan := {| case_id := "k9"; case_client_id := Some "gone";
                   case_updated_at := Some 5; case_props := [] |} in
  let stage := {| stage_id := "st9"; stage_case_id := Some "k9";
                  stage_updated_at := Some 5; stage_props := [] |} in
  let data :=
    {| flat_clients := [client_row sampleClient]; flat_cases := [orphan];
       flat_stages := [stage]; flat_sessions := []; flat_admin_tasks := [];
       flat_appointments := []; flat_accounting_entries := [];
       flat_assistants := []; flat_invoices := []; flat_invoice_items := [];
       flat_case_documents := []; flat_profiles := [];
       flat_site_finances := [] |} in
  upsertDataToSupabase healthyGateway data "u1"
  = ([ UpsertRows "clients" [ClientR (client_row sampleClient)] "u1";
       UpsertRows "stages" [StageR stage] "u1" ],
     inr {| flat_clients := [client_row sampleClient]; flat_cases := [];
            flat_stages := [stage]; flat_sessions := [];
            flat_admin_tasks := []; flat_appointments := [];
            flat_accounting_entries := []; flat_assistants := [];
            flat_invoices := []; flat_invoice_items := [];
            flat_case_documents := []; flat_profiles := [];
            flat_site_finances := [] |}).
Proof. vm_compute. reflexivity. Qed.

(** ** What a full sync publishes *)

(** What a full sync hands to [onDataSynced], when it does: the tree built
    from the merged tables of the cycle, after the rows returned by the
    upsert push are folded back. *)
Lemma syncExchange_returns gw p currentUser mergedFlatData synced :
  (syncExchange gw p currentUser).2 = inr (mergedFlatData, synced) →
  ∃ remoteFlatData upserted,
    (fetchDataFromSupabase gw).2 = inr remoteFlatData ∧
    mergedFlatData
    = refreshTables (upsertedMapOf upserted)
        (reconcile (localData p) (deletedIds p) remoteFlatData
           (fetchDeletionsFromSupabase gw)).1.
Proof.
  unfold syncExchange. rewrite bind_unfold. cbn [emit fst snd].
  rewrite bind_unfold.
  destruct (fetchDataFromSupabase gw).2 as [e|remoteFlatData]; [done|].
  cbv zeta. cbn [snd]. rewrite bind_unfold.
  destruct (removeDocumentPaths gw (deletedIds p)).2 as [e|sd]; [done|].
  cbn [snd]. rewrite bind_unfold.
  destruct (pushDeletions gw (deletedIds p) currentUser sd).2 as [e|sd'];
    [done|].
  cbn [snd]. rewrite bind_unfold. cbn [emit fst snd]. rewrite bind_unfold.
  destruct (upsertDataToSupabase gw _ currentUser).2 as [e|upserted]; [done|].
  cbn [snd mret M_ret]. intros [= <- _]. by exists remoteFlatData, upserted.
Qed.

Lemma manualSync_publishes gw p mergedData :
  OnDataSynced mergedData ∈ (manualSync gw p).1 →
  ∃ remoteFlatData upserted,
    (fetchDataFromSupabase gw).2 = inr remoteFlatData ∧
    mergedData
    = constructData
        (refreshTables (upsertedMapOf upserted)
           (reconcile (localData p) (deletedIds p) remoteFlatData
              (fetchDeletionsFromSupabase gw)).1).
Proof.
  unfold manualSync.
  destruct (bool_decide (syncStatus p = syncing) || isAuthLoading p).
  { intros Hin. by apply elem_of_nil in Hin. }
  destruct (isOnline p), (user p) as [currentUser|];
    try (intros Hin; by apply list_elem_of_singleton in Hin).
  intros Hin. apply elem_of_bind_trace in Hin as [Hin|(_ & _ & Hin)].
  { by apply list_elem_of_singleton in Hin. }
  destruct (success (checkSupabaseSchema gw)).
  2: { repeat case_decide; by apply list_elem_of_singleton in Hin. }
  pose proof (quiet_syncExchange gw p currentUser) as Hquiet.
  unfold syncAttempt in Hin. rewrite bind_unfold in Hin.
  destruct (syncExchange gw p currentUser).2 as [e|[mergedFlatData synced]]
    eqn:Hexchange.
  - unfold tryCatch in Hin. cbn [fst snd] in Hin.
    destruct (syncFailed_run e) as (msg & Hfailed & _).
    rewrite Hfailed in Hin. cbn [fst] in Hin.
    apply elem_of_app in Hin as [Hin|Hin]; [by apply Hquiet in Hin|].
    by apply list_elem_of_singleton in Hin.
  - apply syncExchange_returns in Hexchange
      as (remoteFlatData & upserted & Hfetch & ->).
    exists remoteFlatData, upserted. split; [done|].
    cbn in Hin. apply elem_of_app in Hin as [Hin|Hin];
      [by apply Hquiet in Hin|].
    apply elem_of_cons in Hin as [[= ->]|Hin]; [done|].
    apply elem_of_cons in Hin as [?|Hin]; [done|].
    by apply list_elem_of_singleton in Hin.
Qed.

(** ** Further facts on the insertion-ordered map *)

Section JsMapKeys.
Context {V : Type}.
Implicit Types (m : JsMap.t V) (k : string) (v : V).

Lemma JsMap_set_keys m k v :
  mapKeys (JsMap.set k v m)
  = if decide (k ∈ mapKeys m) then mapKeys m else mapKeys m ++ [k].
Proof.
  unfold mapKeys. induction m as [|[k' v'] m IH]; cbn [JsMap.set fmap list_fmap].
  - rewrite decide_False; [done | apply not_elem_of_nil].
  - destruct (decide (k' = k)) as [->|Hne]; cbn [fmap list_fmap fst].
    + rewrite decide_True; [done | apply list_elem_of_here].
    + change (list_fmap _ _ fst ?l) with (l.*1). rewrite IH.
      destruct (decide (k ∈ m.*1)) as [Hin|Hout].
      * rewrite decide_True; [done | by apply list_elem_of_further].
      * rewrite decide_False; [done|].
        intros Hin. apply elem_of_cons in Hin as [?|?]; congruence.
Qed.

Lemma JsMap_get_keys m k : is_Some (JsMap.get k m) ↔ k ∈ mapKeys m.
Proof.
  unfold mapKeys. induction m as [|[k' v'] m IH]; cbn [JsMap.get fmap list_fmap fst].
  - split; [by intros [? ?] | by intros ?%elem_of_nil].
  - change (list_fmap _ _ fst ?l) with (l.*1).
    destruct (decide (k' = k)) as [->|Hne].
    + split; [intros _; apply list_elem_of_here | by eexists].
    + rewrite IH, elem_of_cons. split; [by right | by intros [?|?]].
Qed.

Lemma JsMap_has_keys m k : JsMap.has k m = true ↔ k ∈ mapKeys m.
Proof.
  rewrite <- JsMap_get_keys. unfold JsMap.has.
  destruct (JsMap.get k m); split; intros Hx; done.
Qed.

Lemma JsMap_set_fresh m k v : k ∉ mapKeys m → JsMap.set k v m = m ++ [(k, v)].
Proof.
  unfold mapKeys. induction m as [|[k' v'] m IH]; intros Hfresh; [done|].
  cbn [fmap list_fmap fst] in Hfresh.
  apply not_elem_of_cons in Hfresh as [Hne Hfresh].
  cbn [JsMap.set]. rewrite decide_False by done. cbn [app]. by rewrite IH.
Qed.

Lemma JsMap_entry_key m k v : (k, v) ∈ m → k ∈ mapKeys m.
Proof.
  intros Hin. unfold mapKeys. apply list_elem_of_fmap. by exists (k, v).
Qed.

End JsMapKeys.

(** ** Invariants of [mergeItems] *)

Section MergeInvariantFacts.
Context {T : Type} `{Syncable T}.
Variables (remote : list T) (deletedSet : gset string) (tableName : string).

Local Abbreviation localStep := (mergeLocalStep remote deletedSet tableName).
Local Abbreviation remoteStep := (mergeRemoteStep deletedSet tableName).
Local Abbreviation settled := (resolved remote).
Local Abbreviation live := (liveKey deletedSet tableName).
Local Abbreviation inv := (settledMap remote deletedSet tableName).

(** The map after one round of the first loop. *)
Lemma localStep_map m up l :
  (localStep (m, up) l).1
  = if decide (getPk l = "") then m
    else if decide (deletionKey tableName (getPk l) ∈ deletedSet) then m
    else JsMap.set (getPk l) (settled l) m.
Proof.
  unfold mergeLocalStep, resolved. cbv zeta.
  repeat case_decide; try done.
  destruct (findByPk (getPk l) remote); [|done].
  by case_bool_decide.
Qed.

Lemma resolved_key l : getPk (settled l) = getPk l.
Proof.
  unfold resolved. destruct (findByPk (getPk l) remote) as [r|] eqn:Hfind; [|done].
  apply findByPk_Some in Hfind as [_ Hkey]. by case_bool_decide.
Qed.

Lemma resolved_origin l : settled l = l ∨ settled l ∈ remote.
Proof.
  unfold resolved. destruct (findByPk (getPk l) remote) as [r|] eqn:Hfind;
    [|by left].
  apply findByPk_Some in Hfind as [Hin _]. case_bool_decide; [by left | by right].
Qed.

Lemma resolved_idem l : settled (settled l) = settled l.
Proof.
  unfold resolved at 2 3.
  destruct (findByPk (getPk l) remote) as [r|] eqn:Hfind.
  - case_bool_decide as Hnewer.
    + unfold resolved. rewrite Hfind. by rewrite bool_decide_eq_true_2.
    + pose proof Hfind as Hfind'. apply findByPk_Some in Hfind' as [_ Hkey].
      unfold resolved. rewrite Hkey, Hfind.
      rewrite bool_decide_eq_false_2; [done | lia].
  - unfold resolved. by rewrite Hfind.
Qed.

Lemma settledMap_empty : inv JsMap.empty.
Proof.
  split; [apply NoDup_nil_2|]. intros k x Hin. by apply elem_of_nil in Hin.
Qed.

Lemma settledMap_set m k x :
  inv m → getPk x = k → live k → settled x = x → inv (JsMap.set k x m).
Proof.
  intros [Hnd Hentries] Hkey Hlive Hstable. split.
  - rewrite JsMap_set_keys. case_decide; [done|].
    apply NoDup_app. split; [done|]. split; [|apply NoDup_singleton].
    intros k' Hin Hin'. apply list_elem_of_singleton in Hin' as ->. done.
  - intros k' x' Hin. apply JsMap_set_entry in Hin as [[-> ->]|Hin]; [done|].
    by apply Hentries.
Qed.

Lemma localStep_settled m up l : inv m → inv (localStep (m, up) l).1.
Proof.
  intros Hinv. rewrite localStep_map. repeat case_decide; try done.
  apply settledMap_set; [done | apply resolved_key | done | apply resolved_idem].
Qed.

Lemma localLoop_settled local m up :
  inv m → inv (fold_left localStep local (m, up)).1.
Proof.
  revert m up. induction local as [|l local IH]; intros m up Hinv; [done|].
  cbn [fold_left]. destruct (localStep (m, up) l) as [m' up'] eqn:Hstep.
  apply IH. change m' with (m', up').1. rewrite <- Hstep.
  by apply localStep_settled.
Qed.

(** The keys of the map after the first loop. *)
Lemma localStep_keys m up l k :
  k ∈ mapKeys (localStep (m, up) l).1 ↔
  k ∈ mapKeys m ∨ (live k ∧ getPk l = k).
Proof.
  rewrite localStep_map. unfold liveKey.
  destruct (decide (getPk l = "")) as [Hempty|Hkey].
  { split; [by left | intros [?|[[? _] ?]]; [done | congruence]]. }
  destruct (decide (deletionKey tableName (getPk l) ∈ deletedSet)) as [Hdel|Hlive].
  { split; [by left | intros [?|[[_ ?] ?]]; [done | by subst]]. }
  rewrite JsMap_set_keys. case_decide as Hin.
  - split; [by left | intros [?|[_ <-]]; done].
  - rewrite elem_of_app, list_elem_of_singleton. split.
    + intros [? | ->]; [by left | by right].
    + intros [?|[_ <-]]; [by left | by right].
Qed.

Lemma localLoop_keys local m up k :
  k ∈ mapKeys (fold_left localStep local (m, up)).1 ↔
  k ∈ mapKeys m ∨ (live k ∧ k ∈ map getPk local).
Proof.
  revert m up. induction local as [|l local IH]; intros m up; cbn [fold_left map].
  - split; [by left | intros [?|[_ ?%elem_of_nil]]; done].
  - destruct (localStep (m, up) l) as [m' up'] eqn:Hstep.
    rewrite IH. change m' with (m', up').1. rewrite <- Hstep, localStep_keys.
    rewrite elem_of_cons. intuition congruence.
Qed.

Lemma remoteStep_keys m r k :
  k ∈ mapKeys (remoteStep m r) ↔ k ∈ mapKeys m ∨ (live k ∧ getPk r = k).
Proof.
  unfold mergeRemoteStep, liveKey. cbv zeta.
  destruct (decide (getPk r = "")) as [Hempty|Hkey].
  { split; [by left | intros [?|[[? _] ?]]; [done | congruence]]. }
  destruct (JsMap.has (getPk r) m) eqn:Hhas.
  { apply JsMap_has_keys in Hhas. split; [by left | intros [?|[_ <-]]; done]. }
  destruct (decide (deletionKey tableName (getPk r) ∈ deletedSet)) as [Hdel|Hlive].
  { split; [by left | intros [?|[[_ ?] ?]]; [done | by subst]]. }
  rewrite JsMap_set_keys. case_decide as Hin.
  - split; [by left | intros [?|[_ <-]]; done].
  - rewrite elem_of_app, list_elem_of_singleton. split.
    + intros [? | ->]; [by left | by right].
    + intros [?|[_ <-]]; [by left | by right].
Qed.

Lemma remoteLoop_keys rs m k :
  k ∈ mapKeys (fold_left remoteStep rs m) ↔
  k ∈ mapKeys m ∨ (live k ∧ k ∈ map getPk rs).
Proof.
  revert m. induction rs as [|r rs IH]; intros m; cbn [fold_left map].
  - split; [by left | intros [?|[_ ?%elem_of_nil]]; done].
  - rewrite IH, remoteStep_keys, elem_of_cons. intuition congruence.
Qed.

Lemma findByPk_first (pre rs : list T) r :
  getPk r ∉ map getPk pre → findByPk (getPk r) (pre ++ r :: rs) = Some r.
Proof.
  unfold findByPk. induction pre as [|p pre IH]; intros Hfresh; cbn [app find].
  - by rewrite bool_decide_eq_true_2.
  - cbn [map] in Hfresh. apply not_elem_of_cons in Hfresh as [Hne Hfresh].
    rewrite bool_decide_eq_false_2 by done. by apply IH.
Qed.

(** The second loop, started after the records [pre] of [remote] whose
    live keys are all in the map. *)
Lemma remoteLoop_settled pre rs m :
  remote = pre ++ rs →
  (∀ k, live k → k ∈ map getPk pre → k ∈ mapKeys m) →
  inv m → inv (fold_left remoteStep rs m).
Proof.
  revert pre m. induction rs as [|r rs IH]; intros pre m Hsplit Hcover Hinv;
    [done|].
  cbn [fold_left].
  apply (IH (pre ++ [r])).
  - by rewrite <- app_assoc.
  - intros k Hlive Hin. rewrite map_app, elem_of_app in Hin.
    apply remoteStep_keys. destruct Hin as [Hin|Hin]; [left; by apply Hcover|].
    right. split; [done|]. cbn in Hin. by apply list_elem_of_singleton in Hin.
  - unfold mergeRemoteStep. cbv zeta.
    destruct (decide (getPk r = "")) as [Hempty|Hkey]; [done|].
    destruct (JsMap.has (getPk r) m) eqn:Hhas; [done|].
    destruct (decide (deletionKey tableName (getPk r) ∈ deletedSet))
      as [Hdel|Hlive]; [done|].
    apply settledMap_set; [done | done | done |].
    unfold resolved. rewrite Hsplit, findByPk_first.
    + by case_bool_decide.
    + intros Hin. apply (Hcover _ (conj Hkey Hlive)) in Hin.
      apply JsMap_has_keys in Hin. congruence.
Qed.

(** The map that [mergeItems] ends with. *)
Lemma finalMap_settled local :
  inv (fold_left remoteStep remote
         (fold_left localStep local (JsMap.empty, [])).1).
Proof.
  apply (remoteLoop_settled []); [done | |].
  - intros k _ Hin. by apply elem_of_nil in Hin.
  - apply localLoop_settled, settledMap_empty.
Qed.

Lemma settled_values_keys m : inv m → map getPk (JsMap.values m) = mapKeys m.
Proof.
  intros [_ Hentries]. unfold JsMap.values, mapKeys.
  induction m as [|[k x] m IH]; [done|].
  cbn [fmap list_fmap map fst snd].
  destruct (Hentries k x (list_elem_of_here _ _)) as [-> _]. f_equal.
  apply IH. intros k' x' Hin. by apply Hentries, list_elem_of_further.
Qed.

(** Replaying the values of a settled map through the first loop rebuilds
    the map. *)
Lemma localLoop_replay m1 m2 up :
  inv (m1 ++ m2) →
  (fold_left localStep (JsMap.values m2) (m1, up)).1 = m1 ++ m2.
Proof.
  revert m1 up. induction m2 as [|[k x] m2 IH]; intros m1 up Hinv.
  { by rewrite app_nil_r. }
  unfold JsMap.values. cbn [fmap list_fmap snd fold_left].
  destruct (localStep (m1, up) x) as [m' up'] eqn:Hstep.
  assert (m' = m1 ++ [(k, x)]) as ->.
  { change m' with (m', up').1. rewrite <- Hstep, localStep_map.
    destruct Hinv as [Hnd Hentries].
    destruct (Hentries k x) as (Hkey & [Hne Hlive] & Hstable).
    { apply elem_of_app. right. apply list_elem_of_here. }
    rewrite Hkey, Hstable, !decide_False by done.
    apply JsMap_set_fresh. unfold mapKeys in *.
    rewrite fmap_app in Hnd. apply NoDup_app in Hnd as (_ & Hdisj & _).
    intros Hin. apply (Hdisj k Hin). apply list_elem_of_here. }
  change (list_fmap _ _ snd m2) with (JsMap.values m2).
  rewrite IH; rewrite <- app_assoc; done.
Qed.

(** The second loop leaves alone a map that holds every live key of the
    records it visits. *)
Lemma remoteLoop_idle rs m :
  (∀ k, live k → k ∈ map getPk rs → k ∈ mapKeys m) →
  fold_left remoteStep rs m = m.
Proof.
  induction rs as [|r rs IH]; intros Hcover; [done|]. cbn [fold_left].
  assert (remoteStep m r = m) as ->.
  { unfold mergeRemoteStep. cbv zeta.
    destruct (decide (getPk r = "")) as [Hempty|Hkey]; [done|].
    destruct (JsMap.has (getPk r) m) eqn:Hhas; [done|].
    destruct (decide (deletionKey tableName (getPk r) ∈ deletedSet))
      as [Hdel|Hlive]; [done|].
    exfalso. assert (getPk r ∈ mapKeys m) as Hin.
    { apply Hcover; [done | apply list_elem_of_here]. }
    apply JsMap_has_keys in Hin. congruence. }
  apply IH. intros k Hlive Hin. apply Hcover; [done|].
  by apply list_elem_of_further.
Qed.

(** Every entry of the map is a remote record or a record queued for
    upsert. *)
Lemma localStep_origin m up l :
  (∀ k x, (k, x) ∈ m → x ∈ remote ∨ x ∈ up) →
  ∀ k x, (k, x) ∈ (localStep (m, up) l).1 →
         x ∈ remote ∨ x ∈ (localStep (m, up) l).2.
Proof.
  intros Hinv k x Hin.
  assert (∀ y, y ∈ up → y ∈ (localStep (m, up) l).2) as Hgrow.
  { intros y Hy. apply localStep_toUpsert. by left. }
  unfold mergeLocalStep in *. cbv zeta in *.
  destruct (decide (getPk l = "")) as [Hempty|Hkey]; [by apply (Hinv k)|].
  destruct (decide (deletionKey tableName (getPk l) ∈ deletedSet)) as [Hdel|Hlive];
    [by apply (Hinv k)|].
  destruct (findByPk (getPk l) remote) as [r|] eqn:Hfind.
  - apply findByPk_Some in Hfind as [Hr _].
    case_bool_decide; cbn [fst snd] in *.
    + apply JsMap_set_entry in Hin as [[_ ->]|Hin].
      * right. apply elem_of_app. right. apply list_elem_of_here.
      * destruct (Hinv k x Hin) as [?|?]; [by left | right; by apply Hgrow].
    + apply JsMap_set_entry in Hin as [[_ ->]|Hin]; [by left|].
      by apply (Hinv k).
  - cbn [fst snd] in *. apply JsMap_set_entry in Hin as [[_ ->]|Hin].
    + right. apply elem_of_app. right. apply list_elem_of_here.
    + destruct (Hinv k x Hin) as [?|?]; [by left | right; by apply Hgrow].
Qed.

Lemma localLoop_origin local m up :
  (∀ k x, (k, x) ∈ m → x ∈ remote ∨ x ∈ up) →
  ∀ k x, (k, x) ∈ (fold_left localStep local (m, up)).1 →
         x ∈ remote ∨ x ∈ (fold_left localStep local (m, up)).2.
Proof.
  revert m up. induction local as [|l local IH]; intros m up Hinv; [done|].
  cbn [fold_left]. pose proof (localStep_origin m up l Hinv) as Hstep.
  destruct (localStep (m, up) l) as [m' up']. by apply IH.
Qed.

Lemma remoteLoop_origin rs m (up : list T) :
  (∀ r, r ∈ rs → r ∈ remote) →
  (∀ k x, (k, x) ∈ m → x ∈ remote ∨ x ∈ up) →
  ∀ k x, (k, x) ∈ fold_left remoteStep rs m → x ∈ remote ∨ x ∈ up.
Proof.
  revert m. induction rs as [|r rs IH]; intros m Hrs Hinv; [done|].
  cbn [fold_left]. apply IH.
  { intros r' Hr'. by apply Hrs, list_elem_of_further. }
  intros k x Hin. unfold mergeRemoteStep in Hin. cbv zeta in Hin.
  destruct (decide (getPk r = "")); [by apply (Hinv k)|].
  destruct (JsMap.has (getPk r) m); [by apply (Hinv k)|].
  destruct (decide (deletionKey tableName (getPk r) ∈ deletedSet));
    [by apply (Hinv k)|].
  apply JsMap_set_entry in Hin as [[_ ->]|Hin]; [|by apply (Hinv k)].
  left. apply Hrs, list_elem_of_here.
Qed.
End MergeInvariantFacts.

(** X1. The merged table holds at most one record per primary key,
    whatever duplicates the local and the remote table hold. *)
Theorem mergeItems_merged_keys_unique {T : Type} `{Syncable T}
    (local remote : list T) (deletedSet : gset string) (tableName : string) :
  NoDup (map getPk (merged (mergeItems remote deletedSet tableName local))).
Proof.
  rewrite mergeItems_unfold. cbn [merged].
  pose proof (finalMap_settled remote deletedSet tableName local) as Hinv.
  rewrite (settled_values_keys remote deletedSet tableName) by done.
  apply Hinv.
Qed.

(** X2. No key is lost and none is invented: the keys of the merged table
    are the keys of the local and of the remote table that are not empty
    and not deleted. *)
Theorem mergeItems_merged_keys {T : Type} `{Syncable T}
    (local remote : list T) (deletedSet : gset string) (tableName k : string) :
  k ∈ map getPk (merged (mergeItems remote deletedSet tableName local)) ↔
  k ≠ "" ∧ (deletionKey tableName k ∉ deletedSet) ∧
  (k ∈ map getPk local ∨ k ∈ map getPk remote).
Proof.
  rewrite mergeItems_unfold. cbn [merged].
  pose proof (finalMap_settled remote deletedSet tableName local) as Hinv.
  rewrite (settled_values_keys remote deletedSet tableName) by done.
  rewrite remoteLoop_keys, localLoop_keys. unfold liveKey, mapKeys. cbn.
  rewrite elem_of_nil. tauto.
Qed.

(** X3. Every record of the merged table is a record of the remote table
    or a local record queued for upsert, and only local records are
    queued. *)
Theorem mergeItems_merged_origin {T : Type} `{Syncable T}
    (local remote : list T) (deletedSet : gset string) (tableName : string) :
  let res := mergeItems remote deletedSet tableName local in
  (∀ x, x ∈ merged res → x ∈ remote ∨ x ∈ toUpsert res) ∧
  (∀ x, x ∈ toUpsert res → x ∈ local).
Proof.
  cbv zeta. split.
  - intros x Hin. rewrite mergeItems_unfold in *. cbn [merged toUpsert] in *.
    apply JsMap_values_entry in Hin as [k Hin].
    eapply (remoteLoop_origin remote deletedSet tableName remote); [done | | done].
    apply localLoop_origin. intros k' x' Hx'. by apply elem_of_nil in Hx'.
  - intros x Hin. by apply mergeItems_toUpsert in Hin as [? _].
Qed.

(** X4. Merging the merged table against the same remote table and the
    same deleted keys gives the merged table back. *)
Theorem mergeItems_merged_stable {T : Type} `{Syncable T}
    (local remote : list T) (deletedSet : gset string) (tableName : string) :
  let res := mergeItems remote deletedSet tableName local in
  merged (mergeItems remote deletedSet tableName (merged res)) = merged res.
Proof.
  cbv zeta. rewrite !mergeItems_unfold. cbn [merged].
  pose proof (finalMap_settled remote deletedSet tableName local) as Hinv.
  set (m0 := fold_left (mergeRemoteStep deletedSet tableName) remote _) in *.
  rewrite (localLoop_replay remote deletedSet tableName [] m0 []) by done.
  cbn [app]. rewrite remoteLoop_idle; [done|].
  intros k Hlive Hin. unfold m0. apply remoteLoop_keys. by right.
Qed.

(** X5. When no two local records share a key, every record queued for
    upsert is in the merged table. *)
Theorem mergeItems_pushed_merged {T : Type} `{Syncable T}
    (local remote : list T) (deletedSet : gset string) (tableName : string) :
  (∀ l l', l ∈ local → l' ∈ local → getPk l' = getPk l → l' = l) →
  let res := mergeItems remote deletedSet tableName local in
  ∀ x, x ∈ toUpsert res → x ∈ merged res.
Proof.
  intros Hsole res x Hin. unfold res in *.
  apply mergeItems_toUpsert in Hin as [Hx (Hkey & Hlive & Hnewer)].
  pose proof (mergeItems_merged_resolved remote deletedSet tableName local x
                Hx Hkey Hlive) as Hres.
  assert (resolved remote x = x) as Hstable.
  { unfold resolved. destruct (findByPk (getPk x) remote) as [r|]; [|done].
    by rewrite bool_decide_eq_true_2 by by apply Hnewer. }
  rewrite <- Hstable. apply Hres. intros l' Hl' Heq. by apply Hsole.
Qed.

Lemma mergeItems_pushed_merged_witness :
  let l := {| client_id := "c1"; client_updated_at := Some 11500;
              client_props := [] |} in
  let r := {| client_id := "c1"; client_updated_at := Some 10000;
              client_props := [] |} in
  l ∈ toUpsert (mergeItems [r] ∅ "clients" [l]) ∧
  l ∈ merged (mergeItems [r] ∅ "clients" [l]).
Proof.
  intros l r.
  assert (l ∈ toUpsert (mergeItems [r] ∅ "clients" [l])) as Hpushed.
  { vm_compute. apply list_elem_of_here. }
  split; [exact Hpushed|].
  apply (mergeItems_pushed_merged [l] [r] ∅ "clients"); [|exact Hpushed].
  intros x x' Hx Hx' _.
  apply list_elem_of_singleton in Hx, Hx'. congruence.
Defined.

(** ** What [constructData] keeps *)

Lemma uniqueNames_elem (seen : gset string) (names : list string) n :
  n ∈ uniqueNames seen names ↔ n ∈ names ∧ n ∉ seen.
Proof.
  revert seen. induction names as [|x names IH]; intros seen; cbn [uniqueNames].
  - split; [by intros ?%elem_of_nil | by intros [?%elem_of_nil _]].
  - destruct (decide (x ∈ seen)) as [Hseen|Hfresh].
    + rewrite IH, elem_of_cons. split; [by intros [? ?]; split; [right|]|].
      intros [[-> | ?] ?]; done.
    + rewrite !elem_of_cons, IH, elem_of_union, elem_of_singleton. split.
      * intros [-> | [? Hn]]; [by split; [left|]|]. split; [by right|].
        intros ?. apply Hn. by right.
      * intros [[-> | ?] ?]; [by left|].
        destruct (decide (n = x)) as [->|Hne]; [by left|]. right.
        split; [done|]. by intros [?|?].
Qed.

Lemma uniqueNames_NoDup (seen : gset string) (names : list string) :
  NoDup (uniqueNames seen names).
Proof.
  revert seen. induction names as [|x names IH]; intros seen; cbn [uniqueNames].
  - apply NoDup_nil_2.
  - destruct (decide (x ∈ seen)); [apply IH|].
    apply NoDup_cons. split; [|apply IH].
    rewrite uniqueNames_elem, elem_of_union, elem_of_singleton.
    intros [_ Hn]. apply Hn. by left.
Qed.

(** The rows grouped under the parents of a list, parent after parent. *)
Lemma elem_of_grouped {P C V : Type} (pid : P → string) (key : C → option string)
    (f : C → V) (parents : list P) (rows : list C) (v : V) :
  v ∈ flat_map (λ p, map f (List.filter
                              (λ c, bool_decide (key c = Some (pid p))) rows))
               parents ↔
  ∃ c p, c ∈ rows ∧ p ∈ parents ∧ key c = Some (pid p) ∧ v = f c.
Proof.
  rewrite elem_of_flat_map. split.
  - intros (p & Hp & Hv). apply list_elem_of_fmap in Hv as (c & -> & Hc).
    apply list_elem_of_In, filter_In in Hc as [Hc Hkey].
    apply bool_decide_eq_true in Hkey. exists c, p.
    by rewrite list_elem_of_In.
  - intros (c & p & Hc & Hp & Hkey & ->). exists p. split; [done|].
    apply list_elem_of_fmap. exists c. split; [done|].
    apply list_elem_of_In, filter_In. rewrite <- list_elem_of_In.
    split; [done | by apply bool_decide_eq_true].
Qed.

(** The tree that [constructData] builds, with the four grouping maps
    read as filters of the flat tables. *)
Lemma constructData_tree (flatData : FlatData) :
  clients (constructData flatData)
  = map (clientBranch flatData) (flat_clients flatData) ∧
  invoices (constructData flatData)
  = map (invoiceBranch flatData) (flat_invoices flatData).
Proof.
  unfold constructData. cbn [clients invoices]. split.
  - apply map_ext. intros c. unfold clientBranch. f_equal.
    rewrite (groupGet_fold case_client_id
               (λ cs, {| case_row := cs; stages := _ |})).
    apply map_ext. intros cs. unfold caseBranch. f_equal.
    rewrite (groupGet_fold stage_case_id
               (λ st, {| stage_row := st; sessions := _ |})).
    apply map_ext. intros st. unfold stageBranch. f_equal.
    rewrite (groupGet_fold session_stage_id (λ s, s)). by rewrite map_id.
  - apply map_ext. intros inv. unfold invoiceBranch. f_equal.
    rewrite (groupGet_fold invoice_item_invoice_id (λ i, i)). by rewrite map_id.
Qed.

Lemma flat_map_of_map {A B C : Type} (g : A → B) (h : B → list C) (l : list A) :
  flat_map h (map g l) = flat_map (λ x, h (g x)) l.
Proof. induction l as [|x l IH]; [done|]. cbn. by rewrite IH. Qed.

(** The cases and the stages of the tree. *)
Lemma constructData_cases (flatData : FlatData) cs :
  cs ∈ allCases (constructData flatData) ↔
  ∃ c p, c ∈ flat_cases flatData ∧ p ∈ flat_clients flatData ∧
         case_client_id c = Some (client_id p) ∧ cs = caseBranch flatData c.
Proof.
  unfold allCases. destruct (constructData_tree flatData) as [-> _].
  rewrite flat_map_of_map. cbn [cases clientBranch].
  apply (elem_of_grouped client_id case_client_id (caseBranch flatData)).
Qed.

Lemma constructData_case_rows (flatData : FlatData) c :
  c ∈ map case_row (allCases (constructData flatData)) ↔
  c ∈ flat_cases flatData ∧
  ∃ p, p ∈ flat_clients flatData ∧ case_client_id c = Some (client_id p).
Proof.
  rewrite list_elem_of_fmap. split.
  - intros (cs & -> & Hcs).
    apply constructData_cases in Hcs as (c & p & ? & ? & ? & ->).
    split; [done | by exists p].
  - intros (Hc & p & Hp & Hkey). exists (caseBranch flatData c). split; [done|].
    apply constructData_cases. by exists c, p.
Qed.

Lemma constructData_stages (flatData : FlatData) st :
  st ∈ allStages (constructData flatData) ↔
  ∃ row c, row ∈ flat_stages flatData ∧
           c ∈ map case_row (allCases (constructData flatData)) ∧
           stage_case_id row = Some (case_id c) ∧
           st = stageBranch flatData row.
Proof.
  unfold allStages. rewrite elem_of_flat_map. split.
  - intros (cs & Hcs & Hst). pose proof Hcs as Hcs'.
    apply constructData_cases in Hcs' as (c & p & Hc & Hp & Hkey & ->).
    cbn [stages caseBranch] in Hst.
    apply list_elem_of_fmap in Hst as (row & -> & Hrow).
    apply list_elem_of_In, filter_In in Hrow as [Hrow Hfk].
    apply bool_decide_eq_true in Hfk. exists row, c.
    rewrite list_elem_of_In. split; [done|]. split; [|done].
    apply constructData_case_rows. split; [done | by exists p].
  - intros (row & c & Hrow & Hc & Hfk & ->).
    apply constructData_case_rows in Hc as (Hc & p & Hp & Hkey).
    exists (caseBranch flatData c).
    split; [apply constructData_cases; by exists c, p|].
    cbn [stages caseBranch]. apply list_elem_of_fmap. exists row. split; [done|].
    apply list_elem_of_In, filter_In. rewrite <- list_elem_of_In.
    split; [done | by apply bool_decide_eq_true].
Qed.

Lemma constructData_stage_rows (flatData : FlatData) st :
  st ∈ map stage_row (allStages (constructData flatData)) ↔
  st ∈ flat_stages flatData ∧
  ∃ c, c ∈ map case_row (allCases (constructData flatData)) ∧
       stage_case_id st = Some (case_id c).
Proof.
  rewrite list_elem_of_fmap. split.
  - intros (x & -> & Hx).
    apply constructData_stages in Hx as (row & c & ? & ? & ? & ->).
    split; [done | by exists c].
  - intros (Hst & c & Hc & Hfk). exists (stageBranch flatData st). split; [done|].
    apply constructData_stages. by exists st, c.
Qed.

(** X6. [constructData] keeps every client and every invoice, and of the
    other rows exactly those whose parent is kept: a case whose
    [client_id] names a client, a stage whose [case_id] names a kept case,
    a session whose [stage_id] names a kept stage, an invoice item whose
    [invoice_id] names an invoice. A row without such a parent is in no
    branch of the tree. *)
Theorem constructData_keeps_parented (flatData : FlatData) :
  let tree := constructData flatData in
  map client_row (clients tree) = flat_clients flatData ∧
  map invoice_row (invoices tree) = flat_invoices flatData ∧
  (∀ c, c ∈ map case_row (allCases tree) ↔
        c ∈ flat_cases flatData ∧
        ∃ p, p ∈ flat_clients flatData ∧
             case_client_id c = Some (client_id p)) ∧
  (∀ st, st ∈ map stage_row (allStages tree) ↔
         st ∈ flat_stages flatData ∧
         ∃ c, c ∈ map case_row (allCases tree) ∧
              stage_case_id st = Some (case_id c)) ∧
  (∀ s, s ∈ flat_map sessions (allStages tree) ↔
        s ∈ flat_sessions flatData ∧
        ∃ st, st ∈ map stage_row (allStages tree) ∧
              session_stage_id s = Some (stage_id st)) ∧
  (∀ i, i ∈ flat_map items (invoices tree) ↔
        i ∈ flat_invoice_items flatData ∧
        ∃ inv, inv ∈ flat_invoices flatData ∧
               invoice_item_invoice_id i = Some (invoice_id inv)).
Proof.
  cbv zeta. destruct (constructData_tree flatData) as [Hclients Hinvoices].
  split; [|split; [|split; [|split; [|split]]]].
  - rewrite Hclients, map_map. cbn [client_row clientBranch]. apply map_id.
  - rewrite Hinvoices, map_map. cbn [invoice_row invoiceBranch]. apply map_id.
  - apply constructData_case_rows.
  - apply constructData_stage_rows.
  - intros s. rewrite elem_of_flat_map. split.
    + intros (st & Hst & Hs). pose proof Hst as Hst'.
      apply constructData_stages in Hst' as (row & c & Hrow & Hc & Hfk & ->).
      cbn [sessions stageBranch] in Hs.
      apply list_elem_of_In, filter_In in Hs as [Hs Hkey].
      apply bool_decide_eq_true in Hkey. rewrite list_elem_of_In. split; [done|].
      exists row. split; [|done].
      apply constructData_stage_rows. split; [done | by exists c].
    + intros (Hs & row & Hrow & Hkey).
      apply constructData_stage_rows in Hrow as (Hrow & c & Hc & Hfk).
      exists (stageBranch flatData row).
      split; [apply constructData_stages; by exists row, c|].
      cbn [sessions stageBranch]. apply list_elem_of_In, filter_In.
      rewrite <- list_elem_of_In. split; [done | by apply bool_decide_eq_true].
  - intros i. rewrite Hinvoices, flat_map_of_map. cbn [items invoiceBranch].
    rewrite elem_of_flat_map. split.
    + intros (inv & Hinv & Hi).
      apply list_elem_of_In, filter_In in Hi as [Hi Hkey].
      apply bool_decide_eq_true in Hkey. rewrite list_elem_of_In.
      split; [done | by exists inv].
    + intros (Hi & inv & Hinv & Hkey). exists inv. split; [done|].
      apply list_elem_of_In, filter_In. rewrite <- list_elem_of_In.
      split; [done | by apply bool_decide_eq_true].
Qed.

(** X7. The assistants of the tree are the names of the flat table that
    are not empty, each once. *)
Theorem constructData_assistants (flatData : FlatData) :
  NoDup (assistants (constructData flatData)) ∧
  ∀ n, n ∈ assistants (constructData flatData) ↔
       n ≠ "" ∧ n ∈ map assistant_name (flat_assistants flatData).
Proof.
  unfold constructData. cbn [assistants]. split.
  - apply NoDup_filter, uniqueNames_NoDup.
  - intros n. rewrite list_elem_of_filter, uniqueNames_elem.
    split; [by intros [? [? _]] | intros [? ?]; split; [done|]].
    split; [done | apply not_elem_of_empty].
Qed.

(** ** Flattening and the parent links *)

(** X8. [flattenData] writes the id of the parent into every case,
    stage, session and invoice item, so that each names a row of the
    flattened parent table; the orphan filter of the upsert push, applied
    to a flattened snapshot, therefore keeps all of them. *)
Theorem flattenData_children_parented (data : AppData) :
  let flat := flattenData data in
  (∀ c, c ∈ flat_cases flat →
        ∃ p, p ∈ flat_clients flat ∧ case_client_id c = Some (client_id p)) ∧
  (∀ st, st ∈ flat_stages flat →
         ∃ c, c ∈ flat_cases flat ∧ stage_case_id st = Some (case_id c)) ∧
  (∀ s, s ∈ flat_sessions flat →
        ∃ st, st ∈ flat_stages flat ∧ session_stage_id s = Some (stage_id st)) ∧
  (∀ i, i ∈ flat_invoice_items flat →
        ∃ inv, inv ∈ flat_invoices flat ∧
               invoice_item_invoice_id i = Some (invoice_id inv)) ∧
  casesBatch flat = flat_cases flat ∧ stagesBatch flat = flat_stages flat ∧
  sessionsBatch flat = flat_sessions flat ∧
  invoiceItemsBatch flat = flat_invoice_items flat.
Proof.
  cbv zeta.
  assert (∀ c, c ∈ flat_cases (flattenData data) →
               ∃ p, p ∈ flat_clients (flattenData data) ∧
                    case_client_id c = Some (client_id p)) as Hcases.
  { cbn [flattenData flat_cases flat_clients]. intros c Hc.
    apply list_elem_of_fmap in Hc as (cs & -> & Hcs).
    apply elem_of_flat_map in Hcs as (cl & Hcl & Hcs).
    apply list_elem_of_fmap in Hcs as (cs' & -> & Hcs').
    exists (client_row cl). split; [|done].
    apply list_elem_of_fmap. by exists cl. }
  assert (∀ st, st ∈ flat_stages (flattenData data) →
                ∃ c, c ∈ flat_cases (flattenData data) ∧
                     stage_case_id st = Some (case_id c)) as Hstages.
  { cbn [flattenData flat_cases flat_stages]. intros st Hst.
    apply list_elem_of_fmap in Hst as (x & -> & Hx).
    apply elem_of_flat_map in Hx as (cs & Hcs & Hx).
    apply list_elem_of_fmap in Hx as (x' & -> & Hx').
    exists (case_row cs). split; [|done].
    apply list_elem_of_fmap. by exists cs. }
  assert (∀ s, s ∈ flat_sessions (flattenData data) →
               ∃ st, st ∈ flat_stages (flattenData data) ∧
                     session_stage_id s = Some (stage_id st)) as Hsessions.
  { cbn [flattenData flat_sessions flat_stages]. intros s Hs.
    apply elem_of_flat_map in Hs as (st & Hst & Hs).
    apply list_elem_of_fmap in Hs as (s' & -> & Hs').
    exists (stage_row st). split; [|done].
    apply list_elem_of_fmap. by exists st. }
  assert (∀ i, i ∈ flat_invoice_items (flattenData data) →
               ∃ inv, inv ∈ flat_invoices (flattenData data) ∧
                      invoice_item_invoice_id i = Some (invoice_id inv))
    as Hitems.
  { cbn [flattenData flat_invoice_items flat_invoices]. intros i Hi.
    apply elem_of_flat_map in Hi as (inv & Hinv & Hi).
    apply list_elem_of_fmap in Hi as (i' & -> & Hi').
    exists (invoice_row inv). split; [|done].
    apply list_elem_of_fmap. by exists inv. }
  assert (∀ {P C : Type} (pid : P → string) (key : C → option string)
            (parents : list P) (rows : list C),
            (∀ c, c ∈ rows → ∃ p, p ∈ parents ∧ key c = Some (pid p)) →
            List.filter (λ c, hasId (list_to_set (map pid parents)) (key c)) rows
            = rows) as Hkeep.
  { intros P C pid key parents rows Hall. apply filter_keep_all. intros c Hc.
    destruct (Hall c Hc) as (p & Hp & ->). cbn [hasId].
    apply bool_decide_eq_true, elem_of_list_to_set, list_elem_of_fmap.
    by exists p. }
  repeat split; try done.
  - by apply (Hkeep _ _ client_id case_client_id).
  - by apply (Hkeep _ _ case_id stage_case_id).
  - by apply (Hkeep _ _ stage_id session_stage_id).
  - by apply (Hkeep _ _ invoice_id invoice_item_invoice_id).
Qed.

(** ** The tombstone filter *)

Lemma find_app_first {A : Type} (P : A → bool) (l1 l2 : list A) :
  find P (l1 ++ l2)
  = match find P l1 with Some x => Some x | None => find P l2 end.
Proof.
  induction l1 as [|a l1 IH]; cbn [app find]; [done|]. by destruct (P a).
Qed.

Lemma deletionMap_lookup (deletions : list SyncDeletion) (m : gmap string Z) k :
  fold_left
    (λ m d, <[deletionKey (table_name d) (record_id d) := deleted_at d]> m)
    deletions m !! k
  = match find (λ d, bool_decide (deletionKey (table_name d) (record_id d) = k))
               (rev deletions) with
    | Some d => Some (deleted_at d)
    | None => m !! k
    end.
Proof.
  revert m. induction deletions as [|d deletions IH]; intros m; [done|].
  cbn [fold_left rev]. rewrite IH, find_app_first.
  destruct (find _ (rev deletions)) as [d'|]; [done|]. cbn [find].
  case_bool_decide as Hk.
  - by rewrite <- Hk, lookup_insert_eq.
  - by rewrite lookup_insert_ne.
Qed.

Lemma find_rev_last {A : Type} (P : A → bool) (l : list A) x :
  find P (rev l) = Some x ↔
  ∃ pre post, l = pre ++ x :: post ∧ P x = true ∧ ∀ y, y ∈ post → P y = false.
Proof.
  induction l as [|a l IH] using rev_ind.
  { split; [done | intros (pre & post & Heq & _); by destruct pre]. }
  rewrite rev_app_distr. cbn [rev app find].
  destruct (P a) eqn:Ha.
  - split.
    + intros [= <-]. exists l, []. split; [done|]. split; [done|].
      by intros y ?%elem_of_nil.
    + intros (pre & post & Heq & Hx & Hpost).
      destruct post as [|b post] using rev_ind.
      * apply app_inj_tail in Heq as [_ ->]. done.
      * clear IHpost. rewrite app_comm_cons, app_assoc in Heq.
        apply app_inj_tail in Heq as [_ ->].
        rewrite Hpost in Ha; [done|]. apply elem_of_app. right.
        apply list_elem_of_here.
  - rewrite IH. split.
    + intros (pre & post & -> & Hx & Hpost). exists pre, (post ++ [a]).
      split; [by rewrite <- app_assoc|]. split; [done|].
      intros y Hy. apply elem_of_app in Hy as [?|Hy]; [by apply Hpost|].
      by apply list_elem_of_singleton in Hy as ->.
    + intros (pre & post & Heq & Hx & Hpost).
      destruct post as [|b post] using rev_ind.
      * apply app_inj_tail in Heq as [_ ->]. congruence.
      * clear IHpost. rewrite app_comm_cons, app_assoc in Heq.
        apply app_inj_tail in Heq as [-> ->].
        exists pre, post. split; [done|]. split; [done|].
        intros y Hy. apply Hpost, elem_of_app. by left.
Qed.

Lemma middle_compare {A : Type} (l1 l2 r1 r2 : list A) a b :
  l1 ++ a :: r1 = l2 ++ b :: r2 → a = b ∨ a ∈ r2 ∨ b ∈ r1.
Proof.
  revert l2. induction l1 as [|u l1 IH]; intros [|v l2] Heq;
    cbn [app] in Heq; injection Heq as Hhd Htl; subst.
  - by left.
  - right. right. apply elem_of_app. right. apply list_elem_of_here.
  - right. left. apply elem_of_app. right. apply list_elem_of_here.
  - by apply IH in Htl.
Qed.

(** X9. The tombstone filter of [applyDeletionsToLocal] keeps a record
    when no tombstone of the log is filed under its table and key, and
    otherwise when its [updated_at] (the epoch when absent) is at least two
    seconds past the [deleted_at] of the last such tombstone of the log;
    it drops every other record. *)
Theorem filterItems_keeps {T : Type} `{Syncable T}
    (deletions : list SyncDeletion) (items : list T) (tableName : string)
    (x : T) :
  x ∈ filterItems (deletionMapOf deletions) items tableName ↔
  x ∈ items ∧
  ∀ pre d post,
    deletions = pre ++ d :: post →
    deletionKey (table_name d) (record_id d) = deletionKey tableName (pkText x) →
    (∀ d', d' ∈ post →
           deletionKey (table_name d') (record_id d')
           ≠ deletionKey tableName (pkText x)) →
    getTime x >= deleted_at d + 2000.
Proof.
  unfold filterItems. rewrite list_elem_of_In, filter_In, <- list_elem_of_In.
  apply and_iff_compat_l. unfold survivesDeletion, deletionMapOf.
  rewrite deletionMap_lookup, lookup_empty.
  destruct (find _ (rev deletions)) as [d|] eqn:Hfind.
  - apply find_rev_last in Hfind as (pre & post & -> & Hd & Hpost).
    apply bool_decide_eq_true in Hd. split.
    + case_bool_decide as Hold; [done|]. intros _ pre' d' post' Heq Hkey Hlast.
      assert (d' = d) as ->; [|lia].
      destruct (middle_compare _ _ _ _ _ _ Heq) as [?|[Hin|Hin]]; [done| |].
      * by apply Hlast in Hin.
      * apply Hpost in Hin. apply bool_decide_eq_false in Hin. congruence.
    + intros Hall. rewrite bool_decide_eq_false_2; [done|].
      assert (getTime x >= deleted_at d + 2000); [|lia].
      apply (Hall pre d post eq_refl Hd). intros d' Hd'. apply Hpost in Hd'.
      by apply bool_decide_eq_false in Hd'.
  - split; [|done]. intros _ pre d post -> Hkey Hlast.
    assert (find (λ d, bool_decide
                         (deletionKey (table_name d) (record_id d)
                          = deletionKey tableName (pkText x)))
                 (rev (pre ++ d :: post)) = Some d) as Hsome; [|congruence].
    apply find_rev_last. exists pre, post. split; [done|].
    split; [by apply bool_decide_eq_true|].
    intros d' Hd'. by apply bool_decide_eq_false, Hlast.
Qed.

(** ** What [applyDeletionsToLocal] leaves *)

Lemma hasId_filter_parent {P C : Type} (pid : P → string) (key : C → option string)
    (parents : list P) (rows : list C) c :
  c ∈ List.filter (λ c, hasId (list_to_set (map pid parents)) (key c)) rows →
  c ∈ rows ∧ ∃ p, p ∈ parents ∧ key c = Some (pid p).
Proof.
  intros Hin. apply list_elem_of_In, filter_In in Hin as [Hin Hkey].
  rewrite <- list_elem_of_In in Hin. split; [done|].
  by apply hasId_parent in Hkey.
Qed.

Lemma filterItems_subset {T : Type} `{Syncable T} (deletionMap : gmap string Z)
    (items : list T) (tableName : string) x :
  x ∈ filterItems deletionMap items tableName → x ∈ items.
Proof.
  unfold filterItems. intros Hin.
  apply list_elem_of_In, filter_In in Hin as [Hin _]. by apply list_elem_of_In.
Qed.

(** X10. Once the deletion log is not empty, the tables that
    [applyDeletionsToLocal] returns are closed under the parent links:
    every case names a client of the result, every stage a case, every
    session a stage, every invoice a client (by [client_id]), every invoice
    item an invoice, every case document a case, and every accounting entry
    that names a client names one of the result. A record whose parent was
    purged is purged with it. *)
Theorem applyDeletionsToLocal_closed (localFlatData : FlatData)
    (deletions : list SyncDeletion) :
  deletions ≠ [] →
  let kept := applyDeletionsToLocal localFlatData deletions in
  (∀ c, c ∈ flat_cases kept →
        ∃ p, p ∈ flat_clients kept ∧ case_client_id c = Some (client_id p)) ∧
  (∀ st, st ∈ flat_stages kept →
         ∃ c, c ∈ flat_cases kept ∧ stage_case_id st = Some (case_id c)) ∧
  (∀ s, s ∈ flat_sessions kept →
        ∃ st, st ∈ flat_stages kept ∧ session_stage_id s = Some (stage_id st)) ∧
  (∀ i, i ∈ flat_invoices kept →
        ∃ p, p ∈ flat_clients kept ∧ invoice_client_id i = Some (client_id p)) ∧
  (∀ i, i ∈ flat_invoice_items kept →
        ∃ inv, inv ∈ flat_invoices kept ∧
               invoice_item_invoice_id i = Some (invoice_id inv)) ∧
  (∀ d, d ∈ flat_case_documents kept →
        ∃ c, c ∈ flat_cases kept ∧ doc_caseId d = case_id c) ∧
  (∀ e k, e ∈ flat_accounting_entries kept → entry_clientId e = Some k →
          k ≠ "" → ∃ p, p ∈ flat_clients kept ∧ k = client_id p).
Proof.
  intros Hlog kept. unfold kept, applyDeletionsToLocal.
  destruct deletions as [|d deletions]; [done|]. cbv zeta.
  cbn [flat_clients flat_cases flat_stages flat_sessions flat_invoices
       flat_invoice_items flat_case_documents flat_accounting_entries].
  split; [|split; [|split; [|split; [|split; [|split]]]]].
  - intros c Hc. by apply (hasId_filter_parent client_id case_client_id) in Hc as [_ ?].
  - intros st Hst.
    by apply (hasId_filter_parent case_id stage_case_id) in Hst as [_ ?].
  - intros s Hs.
    by apply (hasId_filter_parent stage_id session_stage_id) in Hs as [_ ?].
  - intros i Hi.
    by apply (hasId_filter_parent client_id invoice_client_id) in Hi as [_ ?].
  - intros i Hi.
    by apply (hasId_filter_parent invoice_id invoice_item_invoice_id) in Hi
      as [_ ?].
  - intros doc Hdoc. apply list_elem_of_In, filter_In in Hdoc as [_ Hkey].
    apply bool_decide_eq_true, elem_of_list_to_set, list_elem_of_fmap in Hkey
      as (c & Hfk & Hc).
    by exists c.
  - intros e k He Hk Hne. apply list_elem_of_In, filter_In in He as [_ Hkey].
    unfold emptyOrHasId in Hkey. rewrite Hk in Hkey.
    apply orb_true_iff in Hkey as [Hkey|Hkey].
    + by apply bool_decide_eq_true in Hkey.
    + apply bool_decide_eq_true, elem_of_list_to_set, list_elem_of_fmap in Hkey
        as (p & Hfk & Hp).
      by exists p.
Qed.

Lemma applyDeletionsToLocal_closed_witness :
  let d := {| table_name := "clients"; record_id := "c1"; deleted_at := 5000 |} in
  let kept := applyDeletionsToLocal (flattenData sampleData) [d] in
  flat_clients kept = [] ∧
  (∀ c, c ∈ flat_cases kept →
        ∃ p, p ∈ flat_clients kept ∧ case_client_id c = Some (client_id p)).
Proof.
  intros d kept. split; [by vm_compute|].
  assert ([d] ≠ []) as Hlog by discriminate.
  exact (proj1 (applyDeletionsToLocal_closed (flattenData sampleData) [d] Hlog)).
Defined.

(** With nothing local, [mergeItems] queues nothing and keeps remote
    records only. *)
Lemma mergeItems_nothing_local {T : Type} `{Syncable T} (remote : list T)
    (deletedSet : gset string) (tableName : string) :
  toUpsert (mergeItems remote deletedSet tableName []) = [] ∧
  ∀ x, x ∈ merged (mergeItems remote deletedSet tableName []) → x ∈ remote.
Proof.
  rewrite mergeItems_unfold. cbn [fold_left fst snd merged toUpsert].
  split; [done|]. intros x Hin. apply JsMap_values_entry in Hin as [k Hin].
  enough (x ∈ remote ∨ x ∈ ([] : list T)) as [?|?%elem_of_nil]; [done | done |].
  eapply (remoteLoop_origin remote deletedSet tableName remote); [done | | done].
  intros k' x' Hx'. by apply elem_of_nil in Hx'.
Qed.

(** X11. [applyDeletionsToLocal] keeps an invoice only when its [client_id]
    names a kept client. Local invoices name their client in [clientId]
    and carry no [client_id]: in a cycle whose deletion log is not empty
    none of them reaches the merge, so no invoice and no invoice item is
    queued for upsert, and the merged invoices are remote rows. *)
Theorem reconcile_drops_local_invoices (localData : AppData)
    (deletedIds : DeletedIds) (remoteFlatData : FlatData)
    (remoteDeletions : list SyncDeletion) :
  remoteDeletions ≠ [] →
  (∀ inv, inv ∈ invoices localData → invoice_client_id (invoice_row inv) = None) →
  let reconciled :=
    reconcile localData deletedIds remoteFlatData remoteDeletions in
  flat_invoices reconciled.2 = [] ∧
  flat_invoice_items reconciled.2 = [] ∧
  (∀ i, i ∈ flat_invoices reconciled.1 → i ∈ flat_invoices remoteFlatData) ∧
  (∀ i, i ∈ flat_invoice_items reconciled.1 →
        i ∈ flat_invoice_items remoteFlatData).
Proof.
  intros Hlog Hlocal reconciled. unfold reconciled, reconcile.
  assert (flat_invoices
            (applyDeletionsToLocal (flattenData localData) remoteDeletions) = [])
    as Hinvoices.
  { unfold applyDeletionsToLocal. destruct remoteDeletions as [|d ds]; [done|].
    cbv zeta. cbn [flat_invoices]. apply filter_keep_none. intros i Hi.
    apply filterItems_subset in Hi. cbn [flattenData flat_invoices] in Hi.
    apply list_elem_of_fmap in Hi as (inv & -> & Hinv).
    by rewrite (Hlocal inv Hinv). }
  assert (flat_invoice_items
            (applyDeletionsToLocal (flattenData localData) remoteDeletions) = [])
    as Hitems.
  { revert Hinvoices. unfold applyDeletionsToLocal.
    destruct remoteDeletions as [|d ds]; [done|].
    cbv zeta. cbn [flat_invoices flat_invoice_items]. intros ->.
    apply filter_keep_none. intros i _. cbn. unfold hasId.
    destruct (invoice_item_invoice_id i); [|done].
    apply bool_decide_eq_false, not_elem_of_empty. }
  unfold mergeTables. cbv zeta. cbn [fst snd flat_invoices flat_invoice_items].
  rewrite Hinvoices, Hitems.
  destruct (mergeItems_nothing_local (flat_invoices remoteFlatData)
              (deletedKeysOf remoteDeletions deletedIds) "invoices") as [-> ?].
  destruct (mergeItems_nothing_local (flat_invoice_items remoteFlatData)
              (deletedKeysOf remoteDeletions deletedIds) "invoice_items")
    as [-> ?].
  done.
Qed.

Lemma reconcile_drops_local_invoices_witness :
  let d := {| table_name := "sessions"; record_id := "gone"; deleted_at := 5 |} in
  let reconciled := reconcile sampleData getInitialDeletedIds emptyFlatData [d] in
  flat_clients reconciled.2 = [client_row sampleClient] ∧
  flat_invoices reconciled.2 = [] ∧
  flat_invoice_items reconciled.2 = [].
Proof.
  intros d reconciled. split; [by vm_compute|].
  assert ([d] ≠ []) as Hlog by discriminate.
  assert (∀ inv, inv ∈ invoices sampleData →
                 invoice_client_id (invoice_row inv) = None) as Hlocal.
  { intros inv Hinv. cbn in Hinv. by apply list_elem_of_singleton in Hinv as ->. }
  destruct (reconcile_drops_local_invoices sampleData getInitialDeletedIds
              emptyFlatData [d] Hlog Hlocal) as (? & ? & _).
  by split.
Defined.

(** ** Order and failure of the upsert push *)






(** ** The deletion push of a full sync *)

(** The tables that [flatDeletes] fills are the tables whose deletions are
    to be logged. *)
Lemma anyFlatDeletes_logged (d : DeletedIds) :
  existsb (hasDeletions (flatDeletes d)) loggedTables = anyFlatDeletes d.
Proof.
  unfold anyFlatDeletes, loggedTables, flatDeletesEntries.
  cbn [existsb snd].
  change (hasDeletions (flatDeletes d) "case_documents")
    with (match deleted_documents d with [] => false | _ :: _ => true end).
  change (hasDeletions (flatDeletes d) "invoice_items")
    with (match deleted_invoiceItems d with [] => false | _ :: _ => true end).
  change (hasDeletions (flatDeletes d) "sessions")
    with (match deleted_sessions d with [] => false | _ :: _ => true end).
  change (hasDeletions (flatDeletes d) "stages")
    with (match deleted_stages d with [] => false | _ :: _ => true end).
  change (hasDeletions (flatDeletes d) "cases")
    with (match deleted_cases d with [] => false | _ :: _ => true end).
  change (hasDeletions (flatDeletes d) "invoices")
    with (match deleted_invoices d with [] => false | _ :: _ => true end).
  change (hasDeletions (flatDeletes d) "admin_tasks")
    with (match deleted_adminTasks d with [] => false | _ :: _ => true end).
  change (hasDeletions (flatDeletes d) "appointments")
    with (match deleted_appointments d with [] => false | _ :: _ => true end).
  change (hasDeletions (flatDeletes d) "accounting_entries")
    with (match deleted_accountingEntries d with [] => false | _ :: _ => true end).
  change (hasDeletions (flatDeletes d) "assistants")
    with (match deleted_assistants d with [] => false | _ :: _ => true end).
  change (hasDeletions (flatDeletes d) "clients")
    with (match deleted_clients d with [] => false | _ :: _ => true end).
  change (hasDeletions (flatDeletes d) "site_finances")
    with (match deleted_siteFinances d with [] => false | _ :: _ => true end).
  generalize (match deleted_documents d with [] => false | _ :: _ => true end),
    (match deleted_invoiceItems d with [] => false | _ :: _ => true end),
    (match deleted_sessions d with [] => false | _ :: _ => true end),
    (match deleted_stages d with [] => false | _ :: _ => true end),
    (match deleted_cases d with [] => false | _ :: _ => true end),
    (match deleted_invoices d with [] => false | _ :: _ => true end),
    (match deleted_adminTasks d with [] => false | _ :: _ => true end),
    (match deleted_appointments d with [] => false | _ :: _ => true end),
    (match deleted_accountingEntries d with [] => false | _ :: _ => true end),
    (match deleted_assistants d with [] => false | _ :: _ => true end),
    (match deleted_clients d with [] => false | _ :: _ => true end),
    (match deleted_siteFinances d with [] => false | _ :: _ => true end).
  intros.
  repeat match goal with
         | b : bool |- _ =>
             destruct b;
             [repeat first [progress cbn [orb] | rewrite orb_true_r];
              reflexivity|]
         end.
  reflexivity.
Qed.

Lemma flatDeletes_profiles (d : DeletedIds) : flatDeletes d "profiles" = [].
Proof. reflexivity. Qed.

(** The push of a full sync: it sends nothing; with a client it returns
    when no row deletion is pending and throws the TypeError otherwise. *)
Lemma manualPush_run gw (d : DeletedIds) user_id :
  deleteDataFromSupabase gw (flatDeletes d) user_id
  = (if client_available gw
     then if anyFlatDeletes d then ([], inl catchTypeError) else ([], inr ())
     else ([], inl (newError "Supabase client not available."))).
Proof.
  destruct (client_available gw) eqn:Hclient.
  - rewrite deleteDataFromSupabase_run, anyFlatDeletes_logged by done.
    destruct (anyFlatDeletes d); [done|].
    by rewrite deleteTable_run, flatDeletes_profiles.
  - unfold deleteDataFromSupabase. by rewrite Hclient.
Qed.

Lemma syncExchange_no_delete gw p currentUser t pk ids :
  DeleteRows t pk ids ∉ (syncExchange gw p currentUser).1.
Proof.
  unfold syncExchange. intros Hin.
  apply elem_of_bind_trace in Hin as [Hin|(_ & _ & Hin)].
  { by apply list_elem_of_singleton in Hin. }
  apply elem_of_bind_trace in Hin as [Hin|(remoteFlatData & _ & Hin)].
  { rewrite fetchDataFromSupabase_trace in Hin. by apply elem_of_nil in Hin. }
  cbv zeta in Hin.
  apply elem_of_bind_trace in Hin as [Hin|(sd & _ & Hin)].
  { by apply removeDocumentPaths_requests in Hin. }
  apply elem_of_bind_trace in Hin as [Hin|(sd' & _ & Hin)].
  { unfold pushDeletions in Hin.
    destruct (anyFlatDeletes (deletedIds p)); [|by apply elem_of_nil in Hin].
    apply elem_of_bind_trace in Hin as [Hin|(_ & _ & Hin)].
    { by apply list_elem_of_singleton in Hin. }
    apply elem_of_bind_trace in Hin as [Hin|(_ & _ & Hin)];
      [|by apply elem_of_nil in Hin].
    rewrite manualPush_run in Hin.
    by destruct (client_available gw), (anyFlatDeletes (deletedIds p));
      apply elem_of_nil in Hin. }
  apply elem_of_bind_trace in Hin as [Hin|(_ & _ & Hin)].
  { by apply list_elem_of_singleton in Hin. }
  apply elem_of_bind_trace in Hin as [Hin|(upserted & _ & Hin)];
    [|by apply elem_of_nil in Hin].
  apply upsertDataToSupabase_trace in Hin.
  repeat (apply elem_of_cons in Hin as [Hin|Hin]; [done|]).
  by apply elem_of_nil in Hin.
Qed.

(** The shapes of the trace of a full sync. *)
Lemma manualSync_shapes gw p :
  ((manualSync gw p).1 = [] ∧
   (syncStatus p = syncing ∨ isAuthLoading p = true))
  ∨ (∃ msg, (manualSync gw p).1 = [SetStatus error msg] ∧
            (isOnline p = false ∨ user p = None))
  ∨ (∃ currentUser,
       isOnline p = true ∧ user p = Some currentUser ∧
       syncStatus p ≠ syncing ∧ isAuthLoading p = false ∧
       ((success (checkSupabaseSchema gw) = false ∧
         ∃ status msg,
           (manualSync gw p).1
           = [SetStatus syncing (Some "جاري التحقق من حالة السحابة...");
              SetStatus status msg] ∧
           settledStatus status = true)
        ∨ (success (checkSupabaseSchema gw) = true ∧
           ∃ e msg,
             (syncExchange gw p currentUser).2 = inl e ∧
             (manualSync gw p).1
             = SetStatus syncing (Some "جاري التحقق من حالة السحابة...")
                 :: (syncExchange gw p currentUser).1
                 ++ [SetStatus error (Some msg)])
        ∨ (success (checkSupabaseSchema gw) = true ∧
           ∃ mergedFlatData sd,
             (syncExchange gw p currentUser).2 = inr (mergedFlatData, sd) ∧
             (manualSync gw p).1
             = SetStatus syncing (Some "جاري التحقق من حالة السحابة...")
                 :: (syncExchange gw p currentUser).1
                 ++ [OnDataSynced (constructData mergedFlatData);
                     OnDeletionsSynced sd;
                     SetStatus synced None]))).
Proof.
  unfold manualSync.
  destruct (bool_decide (syncStatus p = syncing)) eqn:Hstatus.
  { left. split; [done|]. left. by apply bool_decide_eq_true in Hstatus. }
  destruct (isAuthLoading p) eqn:Hauth; [left; split; [done | by right]|].
  cbn [orb]. apply bool_decide_eq_false in Hstatus.
  destruct (isOnline p) eqn:Honline.
  2: { right. left. eexists. split; [done | by left]. }
  destruct (user p) as [currentUser|] eqn:Huser.
  2: { right. left. eexists. split; [done | by right]. }
  right. right. exists currentUser. do 4 (split; [done|]).
  rewrite bind_unfold. cbn [emit fst snd].
  destruct (success (checkSupabaseSchema gw)) eqn:Hschema.
  - right. unfold syncAttempt, tryCatch. rewrite bind_unfold.
    destruct (syncExchange gw p currentUser) as [trace [e|[mergedFlatData sd]]];
      cbn [fst snd].
    + left. split; [done|]. destruct (syncFailed_run e) as (msg & -> & _).
      by exists e, msg.
    + right. split; [done|]. by exists mergedFlatData, sd.
  - left. split; [done|]. repeat case_decide; by eexists _, _.
Qed.

(** X13. No delete request of a full sync reaches the remote store. The
    deletion push that a full sync starts sends nothing: it returns when
    no row deletion is pending, and otherwise throws, at the log statement
    of the first table with pending ids, a TypeError that names no table;
    no trace of a full sync holds a delete request. *)
Theorem manualSync_never_deletes (gw : Gateway) (d : DeletedIds)
    (user_id : string) :
  let push := deleteDataFromSupabase gw (flatDeletes d) user_id in
  push.1 = [] ∧
  (push.2 = inr () ↔ client_available gw = true ∧ anyFlatDeletes d = false) ∧
  (client_available gw = true ∧ anyFlatDeletes d = true →
   push.2 = inl catchTypeError ∧ table catchTypeError = None) ∧
  (∀ p t pk ids, DeleteRows t pk ids ∉ (manualSync gw p).1).
Proof.
  cbv zeta. rewrite manualPush_run. split; [|split; [|split]].
  - by destruct (client_available gw), (anyFlatDeletes d).
  - destruct (client_available gw), (anyFlatDeletes d); cbn [snd];
      intuition congruence.
  - by intros [-> ->].
  - intros p t pk ids Hin.
    destruct (manualSync_shapes gw p)
      as [[Htrace _]|[(msg & Htrace & _)|(currentUser & _ & _ & _ & _ & Hrun)]].
    { rewrite Htrace in Hin. by apply elem_of_nil in Hin. }
    { rewrite Htrace in Hin. by apply list_elem_of_singleton in Hin. }
    destruct Hrun as [(_ & status & msg & Htrace & _)
                     |[(_ & e & msg & _ & Htrace)|(_ & md & sd & _ & Htrace)]];
      rewrite Htrace in Hin.
    + apply elem_of_cons in Hin as [?|Hin]; [done|].
      by apply list_elem_of_singleton in Hin.
    + apply elem_of_cons in Hin as [?|Hin]; [done|].
      apply elem_of_app in Hin as [Hin|Hin];
        [by apply syncExchange_no_delete in Hin|].
      by apply list_elem_of_singleton in Hin.
    + apply elem_of_cons in Hin as [?|Hin]; [done|].
      apply elem_of_app in Hin as [Hin|Hin];
        [by apply syncExchange_no_delete in Hin|].
      repeat (apply elem_of_cons in Hin as [?|Hin]; [done|]).
      by apply elem_of_nil in Hin.
Qed.

(** ** Guards and end states of a full sync *)

Lemma remoteWrite_status status msg : remoteWrite (SetStatus status msg) = false.
Proof. done. Qed.

(** X14. A full sync sends no request that changes the remote store
    unless the device is online, a user is signed in, no sync is under way,
    the authentication has settled and the schema probe has passed. *)
Theorem manualSync_writes_guarded (gw : Gateway) (p : UseSyncProps) (e : Effect) :
  e ∈ (manualSync gw p).1 → remoteWrite e = true →
  isOnline p = true ∧ is_Some (user p) ∧ syncStatus p ≠ syncing ∧
  isAuthLoading p = false ∧ success (checkSupabaseSchema gw) = true.
Proof.
  intros Hin Hwrite.
  destruct (manualSync_shapes gw p)
    as [[Htrace _]|[(msg & Htrace & _)
                   |(currentUser & Honline & Huser & Hstatus & Hauth & Hrun)]].
  { rewrite Htrace in Hin. by apply elem_of_nil in Hin. }
  { rewrite Htrace in Hin. apply list_elem_of_singleton in Hin as ->. done. }
  destruct Hrun as [(_ & status & msg & Htrace & _)|[(Hschema & _)|(Hschema & _)]].
  - rewrite Htrace in Hin.
    apply elem_of_cons in Hin as [->|Hin]; [done|].
    by apply list_elem_of_singleton in Hin as ->.
  - by rewrite Huser.
  - by rewrite Huser.
Qed.

Lemma manualSync_writes_guarded_witness :
  let p := syncProps sampleHook (Some "u1") true false in
  UpsertRows "clients" [ClientR (client_row sampleClient)] "u1"
  ∈ (manualSync healthyGateway p).1 ∧
  isOnline p = true ∧ is_Some (user p) ∧ syncStatus p ≠ syncing ∧
  isAuthLoading p = false ∧ success (checkSupabaseSchema healthyGateway) = true.
Proof.
  intros p.
  assert (UpsertRows "clients" [ClientR (client_row sampleClient)] "u1"
          ∈ (manualSync healthyGateway p).1) as Hin.
  { vm_compute. do 4 apply list_elem_of_further. apply list_elem_of_here. }
  split; [exact Hin|].
  exact (manualSync_writes_guarded healthyGateway p _ Hin eq_refl).
Defined.

Lemma status_after_last trace (s : HookState) status msg :
  hook_syncStatus (fold_left handleEffect (trace ++ [SetStatus status msg]) s)
  = status ∧
  hook_lastSyncError (fold_left handleEffect (trace ++ [SetStatus status msg]) s)
  = msg.
Proof. by rewrite fold_left_app. Qed.

(** X15. A full sync that finds a sync under way, or the authentication
    still loading, leaves the hook as it is; any other full sync leaves the
    hook in one of the states [synced], [error], [unconfigured] and
    [uninitialized], never in [syncing]. *)
Theorem manualSync_settles (gw : Gateway) (currentUser : option string)
    (online authLoading : bool) (s : HookState) :
  let s' := afterManualSync gw currentUser online authLoading s in
  (hook_syncStatus s = syncing ∨ authLoading = true → s' = s) ∧
  (hook_syncStatus s ≠ syncing ∧ authLoading = false →
   settledStatus (hook_syncStatus s') = true).
Proof.
  cbv zeta. unfold afterManualSync.
  set (p := syncProps s currentUser online authLoading).
  destruct (manualSync_shapes gw p)
    as [[Htrace Hguard]|[(msg & Htrace & _)
                        |(u & _ & _ & Hstatus & Hauth & Hrun)]].
  - rewrite Htrace. split; [done|]. intros [? ?].
    destruct Hguard as [?|?]; cbn in *; congruence.
  - rewrite Htrace. split; [|done]. unfold manualSync in Htrace.
    intros Hguard. exfalso.
    assert (bool_decide (syncStatus p = syncing) || isAuthLoading p = true)
      as Hskip.
    { apply orb_true_iff. destruct Hguard as [?|?]; [left | right]; [|done].
      by apply bool_decide_eq_true. }
    by rewrite Hskip in Htrace.
  - split; [intros [?|?]; [done | cbn in Hauth; congruence]|]. intros _.
    destruct Hrun as [(_ & status & msg & -> & Hsettled)
                     |[(_ & e & msg & _ & ->)|(_ & md & sd & _ & ->)]].
    + done.
    + rewrite app_comm_cons.
      match goal with
      | |- context [fold_left handleEffect (?t ++ [_]) s] =>
          by destruct (status_after_last t s error (Some msg)) as [-> _]
      end.
    + rewrite app_comm_cons.
      change [?x; ?y; ?z] with ([x; y] ++ [z]). rewrite app_assoc.
      match goal with
      | |- context [fold_left handleEffect (?t ++ [_]) s] =>
          by destruct (status_after_last t s synced None) as [-> _]
      end.
Qed.

(** ** A full sync that succeeds *)

Lemma withoutSynced_all (ids : list string) : withoutSynced ids ids = [].
Proof.
  unfold withoutSynced. apply filter_keep_none. intros id Hid.
  by rewrite bool_decide_eq_true_2.
Qed.

Lemma withoutSynced_none (ids : list string) : withoutSynced ids [] = ids.
Proof.
  unfold withoutSynced. apply filter_keep_all. intros id _.
  rewrite bool_decide_eq_false_2; [done | apply not_elem_of_nil].
Qed.

(** An exchange succeeds only when no row deletion is pending; the
    deletions that it reports as synced are then the blob paths whose
    removal went through. *)
Lemma syncExchange_synced gw p currentUser mergedFlatData sd :
  (syncExchange gw p currentUser).2 = inr (mergedFlatData, sd) →
  anyFlatDeletes (deletedIds p) = false ∧
  (removeDocumentPaths gw (deletedIds p)).2 = inr sd.
Proof.
  unfold syncExchange. rewrite bind_unfold. cbn [emit fst snd].
  rewrite bind_unfold.
  destruct (fetchDataFromSupabase gw).2 as [e|remoteFlatData]; [done|].
  cbv zeta. cbn [snd]. rewrite bind_unfold.
  destruct (removeDocumentPaths gw (deletedIds p)).2 as [e|removed]; [done|].
  cbn [snd]. rewrite bind_unfold.
  destruct (pushDeletions gw (deletedIds p) currentUser removed).2 as [e|sd']
    eqn:Hpush; [done|].
  cbn [snd]. rewrite bind_unfold. cbn [emit fst snd]. rewrite bind_unfold.
  destruct (upsertDataToSupabase gw _ currentUser).2 as [e|upserted]; [done|].
  cbn [snd mret M_ret]. intros [= _ <-].
  unfold pushDeletions in Hpush.
  destruct (anyFlatDeletes (deletedIds p)) eqn:Hany.
  - rewrite bind_unfold in Hpush. cbn [emit fst snd] in Hpush.
    rewrite bind_unfold, manualPush_run, Hany in Hpush.
    by destruct (client_available gw).
  - by injection Hpush as <-.
Qed.

Lemma removeDocumentPaths_removed gw deletedIds removed :
  client_available gw = true →
  (removeDocumentPaths gw deletedIds).2 = inr removed →
  deleted_documentPaths removed
  = (if storage_remove gw (deleted_documentPaths deletedIds) then []
     else deleted_documentPaths deletedIds).
Proof.
  intros Hclient. unfold removeDocumentPaths.
  destruct (deleted_documentPaths deletedIds) as [|path paths] eqn:Hpaths.
  { intros [= <-]. by destruct (storage_remove gw []). }
  rewrite Hclient, bind_unfold. cbn [emit fst snd].
  destruct (storage_remove gw (path :: paths)); by intros [= <-].
Qed.

Lemma entries_none (entries : list (string * list string)) (table : string) :
  existsb (λ entry, match entry.2 with [] => false | _ :: _ => true end) entries
  = false →
  match find (λ entry, bool_decide (entry.1 = table)) entries with
  | Some entry => entry.2
  | None => []
  end = [].
Proof.
  induction entries as [|[t ids] entries IH]; [done|]. cbn [existsb find fst snd].
  intros [Hids Hrest]%orb_false_iff.
  case_bool_decide; [by destruct ids | by apply IH].
Qed.

Lemma flatDeletes_none deletedIds table :
  anyFlatDeletes deletedIds = false → flatDeletes deletedIds table = [].
Proof. apply entries_none. Qed.

Lemma flatDeletes_clearSynced prev sd table :
  flatDeletes (clearSynced prev sd) table
  = withoutSynced (flatDeletes prev table) (flatDeletes sd table).
Proof.
  unfold flatDeletes, flatDeletesEntries, clearSynced. cbn [find fst snd].
  repeat (case_bool_decide; [done|]). done.
Qed.

(** The state of the hook after the calls of a successful full sync. *)
Lemma published_state trace (s : HookState) mergedData sd :
  quiet trace →
  let s' := fold_left handleEffect
              (trace ++ [OnDataSynced mergedData; OnDeletionsSynced sd;
                         SetStatus synced None]) s in
  hook_data s' = mergedData ∧
  hook_deletedIds s' = clearSynced (hook_deletedIds s) sd ∧
  hook_syncStatus s' = synced ∧ hook_lastSyncError s' = None.
Proof.
  intros Hq s'. unfold s'. rewrite fold_left_app.
  destruct (quiet_preserves trace s Hq) as [Hdata Hdel].
  cbn [fold_left handleEffect hook_data hook_deletedIds hook_syncStatus
       hook_lastSyncError].
  by rewrite Hdel.
Qed.

(** X16. A full sync succeeds only when no row deletion is pending. When
    every step of it succeeds, the hook ends in the [synced] state without
    an error message, no row deletion is pending afterwards either, and
    the blob paths queued for removal stay pending exactly when their
    removal reported an error. *)
Theorem successful_sync_state (gw : Gateway) (s : HookState)
    (currentUser : string) (mergedFlatData : FlatData) (sd : DeletedIds) :
  hook_syncStatus s ≠ syncing →
  success (checkSupabaseSchema gw) = true →
  (syncExchange gw (syncProps s (Some currentUser) true false) currentUser).2
  = inr (mergedFlatData, sd) →
  let s' := afterManualSync gw (Some currentUser) true false s in
  anyFlatDeletes (hook_deletedIds s) = false ∧
  hook_syncStatus s' = synced ∧ hook_lastSyncError s' = None ∧
  (∀ table, flatDeletes (hook_deletedIds s') table = []) ∧
  deleted_documentPaths (hook_deletedIds s')
  = (if storage_remove gw (deleted_documentPaths (hook_deletedIds s))
     then deleted_documentPaths (hook_deletedIds s)
     else []).
Proof.
  intros Hstatus Hschema Hexchange s'.
  set (p := syncProps s (Some currentUser) true false) in *.
  assert ((manualSync gw p).1
          = (SetStatus syncing (Some "جاري التحقق من حالة السحابة...")
               :: (syncExchange gw p currentUser).1)
            ++ [OnDataSynced (constructData mergedFlatData);
                OnDeletionsSynced sd; SetStatus synced None]) as Htrace.
  { unfold p. rewrite manualSync_passes by done. fold p.
    rewrite bind_unfold. cbn [emit fst snd].
    unfold tryCatch, syncAttempt. rewrite bind_unfold, Hexchange. done. }
  assert (quiet (SetStatus syncing (Some "جاري التحقق من حالة السحابة...")
                   :: (syncExchange gw p currentUser).1)) as Hquiet.
  { intros e He. apply elem_of_cons in He as [->|He]; [done|].
    by apply (quiet_syncExchange gw p currentUser). }
  destruct (published_state _ s (constructData mergedFlatData) sd Hquiet)
    as (_ & Hdel & Hst & Herr).
  destruct (syncExchange_synced gw p currentUser mergedFlatData sd Hexchange)
    as (Hany & Hremoved).
  cbn [deletedIds p syncProps] in Hany, Hremoved.
  unfold s', afterManualSync. fold p. rewrite Htrace.
  split; [done|]. split; [done|]. split; [done|]. rewrite Hdel. split.
  - intros table. by rewrite flatDeletes_clearSynced, flatDeletes_none.
  - cbn [clearSynced deleted_documentPaths].
    rewrite (removeDocumentPaths_removed gw (hook_deletedIds s) sd)
      by (by apply schema_passed_client || done).
    destruct (storage_remove gw _).
    + apply withoutSynced_none.
    + apply withoutSynced_all.
Qed.

Lemma successful_sync_state_witness :
  let s :=
    {| hook_data := sampleData;
       hook_deletedIds :=
         {| deleted_clients := []; deleted_cases := []; deleted_stages := [];
            deleted_sessions := []; deleted_adminTasks := [];
            deleted_appointments := []; deleted_accountingEntries := [];
            deleted_assistants := []; deleted_invoices := [];
            deleted_invoiceItems := []; deleted_documents := [];
            deleted_siteFinances := [];
            deleted_documentPaths := ["u1/k1/d1-deed.pdf"] |};
       hook_syncStatus := synced; hook_lastSyncError := None |} in
  let s' := afterManualSync healthyGateway (Some "u1") true false s in
  hook_syncStatus s' = synced ∧ hook_lastSyncError s' = None ∧
  deleted_documentPaths (hook_deletedIds s') = [].
Proof.
  intros s s'.
  edestruct (successful_sync_state healthyGateway s "u1")
    as (_ & Hst & Herr & _ & Hpaths).
  - discriminate.
  - reflexivity.
  - vm_compute. reflexivity.
  - done.
Defined.

(** ** Pending deletions and the merge *)

Lemma addEntries_elem (entries : list (string * list string)) (s : gset string)
    t ids id :
  (t, ids) ∈ entries → id ∈ ids →
  deletionKey t id
  ∈ fold_left
      (λ s entry, fold_left (λ s id, {[deletionKey entry.1 id]} ∪ s) entry.2 s)
      entries s.
Proof.
  revert s. induction entries as [|entry entries IH]; intros s Hentry Hid.
  { by apply elem_of_nil in Hentry. }
  cbn [fold_left]. apply elem_of_cons in Hentry as [<-|Hentry]; [|by apply IH].
  apply addEntries_mono. cbn [fst snd].
  apply (addKeys_elem (deletionKey t)). right. by exists id.
Qed.

(** X17. The ids pushed for deletion from a table other than
    [case_documents] are kept out of the merge of that table: none of
    them is in the merged table or queued for upsert, whatever the local
    snapshot and the remote store hold. (The pending ids of the documents
    are filed under [documents], which is not the name of their table.) *)
Theorem pending_deletions_excluded (localData : AppData) (deletedIds : DeletedIds)
    (remoteFlatData : FlatData) (remoteDeletions : list SyncDeletion)
    (table id : string) :
  id ∈ flatDeletes deletedIds table → table ≠ "case_documents" →
  let reconciled :=
    reconcile localData deletedIds remoteFlatData remoteDeletions in
  (id ∉ tableKeys reconciled.1 table) ∧ (id ∉ tableKeys reconciled.2 table).
Proof.
  intros Hid Htable reconciled. unfold reconciled, reconcile.
  apply mergeTables_clean. unfold deletedKeysOf.
  apply addEntries_elem with (flatDeletes deletedIds table); [|done].
  unfold flatDeletes, flatDeletesEntries, deletedIdsEntries in *.
  cbn [find fst snd] in *.
  repeat (case_bool_decide;
          [subst table;
           first [ done
                 | repeat first [apply list_elem_of_here
                                | apply list_elem_of_further] ]|]).
  by apply elem_of_nil in Hid.
Qed.

Lemma pending_deletions_excluded_witness :
  let pending :=
    {| deleted_clients := ["c1"]; deleted_cases := []; deleted_stages := [];
       deleted_sessions := []; deleted_adminTasks := [];
       deleted_appointments := []; deleted_accountingEntries := [];
       deleted_assistants := []; deleted_invoices := [];
       deleted_invoiceItems := []; deleted_documents := [];
       deleted_siteFinances := []; deleted_documentPaths := [] |} in
  let remote :=
    {| flat_clients := [client_row sampleClient]; flat_cases := [];
       flat_stages := []; flat_sessions := []; flat_admin_tasks := [];
       flat_appointments := []; flat_accounting_entries := [];
       flat_assistants := []; flat_invoices := []; flat_invoice_items := [];
       flat_case_documents := []; flat_profiles := [];
       flat_site_finances := [] |} in
  let reconciled := reconcile emptyAppData pending remote [] in
  ("c1" ∉ tableKeys reconciled.1 "clients") ∧
  ("c1" ∉ tableKeys reconciled.2 "clients").
Proof.
  intros pending remote.
  apply (pending_deletions_excluded emptyAppData pending remote [] "clients" "c1").
  - vm_compute. apply list_elem_of_here.
  - discriminate.
Defined.

(** A document deleted on the device, while its row is still in the remote
    table: the row is merged back in the cycle that pushes the deletion. *)
Example pending_document_merged_back :
  let pending :=
    {| deleted_clients := []; deleted_cases := []; deleted_stages := [];
       deleted_sessions := []; deleted_adminTasks := [];
       deleted_appointments := []; deleted_accountingEntries := [];
       deleted_assistants := []; deleted_invoices := [];
       deleted_invoiceItems := []; deleted_documents := ["d1"];
       deleted_siteFinances := []; deleted_documentPaths := [] |} in
  let remote :=
    {| flat_clients := []; flat_cases := []; flat_stages := [];
       flat_sessions := []; flat_admin_tasks := []; flat_appointments := [];
       flat_accounting_entries := []; flat_assistants := [];
       flat_invoices := []; flat_invoice_items := [];
       flat_case_documents := [oldSyncedDoc]; flat_profiles := [];
       flat_site_finances := [] |} in
  flatDeletes pending "case_documents" = ["d1"] ∧
  tableKeys (reconcile emptyAppData pending remote []).1 "case_documents"
  = ["d1"].
Proof. vm_compute. done. Qed.

(** ** The background refresh *)

(** The keys of the merged table, for use in other proofs. *)
Lemma merged_keys_iff {T : Type} `{Syncable T} (local remote : list T)
    (deletedSet : gset string) (tableName k : string) :
  k ∈ map getPk (merged (mergeItems remote deletedSet tableName local)) ↔
  liveKey deletedSet tableName k ∧
  (k ∈ map getPk local ∨ k ∈ map getPk remote).
Proof.
  rewrite mergeItems_unfold. cbn [merged].
  pose proof (finalMap_settled remote deletedSet tableName local) as Hinv.
  rewrite (settled_values_keys remote deletedSet tableName) by done.
  rewrite remoteLoop_keys, localLoop_keys. unfold mapKeys. cbn.
  rewrite elem_of_nil. tauto.
Qed.

Lemma constructData_clientIds (flatData : FlatData) :
  clientIdsOf (constructData flatData) = map client_id (flat_clients flatData).
Proof.
  unfold clientIdsOf. destruct (constructData_tree flatData) as [-> _].
  by rewrite map_map.
Qed.

(** The two shapes of the trace of a refresh. *)
Lemma fetchAndRefresh_shapes gw p :
  (fetchAndRefresh gw p).1 = []
  ∨ ∃ remoteFlatData,
      syncStatus p ≠ syncing ∧ isAuthLoading p = false ∧ isOnline p = true ∧
      is_Some (user p) ∧
      (fetchDataFromSupabase gw).2 = inr remoteFlatData ∧
      (fetchAndRefresh gw p).1
      = [OnDataSynced
           (constructData
              (mergeTables
                 (applyDeletionsToLocal (flattenData (localData p))
                    (fetchDeletionsFromSupabase gw))
                 remoteFlatData
                 (list_to_set
                    (map (λ d, deletionKey (table_name d) (record_id d))
                         (fetchDeletionsFromSupabase gw)))).1);
         SetStatus synced None].
Proof.
  unfold fetchAndRefresh.
  destruct (bool_decide (syncStatus p = syncing)) eqn:Hstatus; [by left|].
  destruct (isAuthLoading p) eqn:Hauth; [by left|].
  destruct (isOnline p) eqn:Honline; [|by left]. cbn [orb negb].
  destruct (user p) as [u|] eqn:Huser; [|by left].
  unfold tryCatch, refreshAttempt. rewrite bind_unfold.
  pose proof (fetchDataFromSupabase_trace gw) as Htrace.
  destruct (fetchDataFromSupabase gw) as [t [e|remoteFlatData]];
    cbn [fst snd] in *; subst t; [by left|].
  right. exists remoteFlatData. apply bool_decide_eq_false in Hstatus.
  by repeat split.
Qed.

(** X18. A background refresh sends no request that changes the remote
    store and reports no deletion as synced, so the pending deletions stay
    as they are; when its fetch fails it makes no call at all, leaving the
    status and the error message of the hook untouched; otherwise it
    publishes one merged snapshot and the [synced] state. *)
Theorem fetchAndRefresh_read_only (gw : Gateway) (currentUser : option string)
    (online authLoading : bool) (s : HookState) :
  let trace :=
    (fetchAndRefresh gw (syncProps s currentUser online authLoading)).1 in
  let s' := afterFetchAndRefresh gw currentUser online authLoading s in
  (∀ e, e ∈ trace → remoteWrite e = false ∧ ∀ sd, e ≠ OnDeletionsSynced sd) ∧
  hook_deletedIds s' = hook_deletedIds s ∧
  ((∃ err, (fetchDataFromSupabase gw).2 = inl err) → trace = [] ∧ s' = s) ∧
  (trace = [] ∨ ∃ mergedData, trace = [OnDataSynced mergedData;
                                        SetStatus synced None]).
Proof.
  cbv zeta. unfold afterFetchAndRefresh.
  destruct (fetchAndRefresh_shapes gw (syncProps s currentUser online authLoading))
    as [->|(remoteFlatData & _ & _ & _ & _ & Hfetch & ->)].
  - split; [by intros e ?%elem_of_nil|]. split; [done|]. split; [done|]. by left.
  - split; [|split; [done|split]].
    + intros e He. apply elem_of_cons in He as [->|He]; [done|].
      by apply list_elem_of_singleton in He as ->.
    + intros [err Herr]. congruence.
    + right. by eexists.
Qed.

(** ** Deletions made on the device *)

Lemma deleteClient_clientIds k s :
  k ∉ clientIdsOf (hook_data (deleteClient k s)).
Proof.
  unfold clientIdsOf. cbn. intros Hin.
  apply list_elem_of_fmap in Hin as (c & Hk & Hc).
  apply list_elem_of_In, filter_In in Hc as [_ Hc].
  apply negb_true_iff, bool_decide_eq_false in Hc. done.
Qed.

(** X19. A client deleted on the device comes back with the next
    background refresh when the remote table still holds its row and no
    remote tombstone is filed under its key: the refresh puts the row back
    into the snapshot, while the id is still pending deletion. *)
Theorem refresh_restores_deleted_client (gw : Gateway) (currentUser : string)
    (s : HookState) (remoteFlatData : FlatData) (r : ClientRow) :
  hook_syncStatus s ≠ syncing →
  (fetchDataFromSupabase gw).2 = inr remoteFlatData →
  r ∈ flat_clients remoteFlatData → client_id r ≠ "" →
  (∀ d, d ∈ fetchDeletionsFromSupabase gw →
        deletionKey (table_name d) (record_id d)
        ≠ deletionKey "clients" (client_id r)) →
  let s1 := deleteClient (client_id r) s in
  let s2 := afterFetchAndRefresh gw (Some currentUser) true false s1 in
  (client_id r ∉ clientIdsOf (hook_data s1)) ∧
  client_id r ∈ clientIdsOf (hook_data s2) ∧
  client_id r ∈ deleted_clients (hook_deletedIds s2).
Proof.
  intros Hstatus Hfetch Hr Hkey Hlog s1 s2.
  split; [apply deleteClient_clientIds|].
  unfold s2, afterFetchAndRefresh.
  destruct (fetchAndRefresh_shapes gw (syncProps s1 (Some currentUser) true false))
    as [Htrace|(remote' & _ & _ & _ & _ & Hfetch' & ->)].
  { exfalso. unfold fetchAndRefresh in Htrace.
    cbn [syncProps syncStatus isAuthLoading isOnline user s1 deleteClient
         deleteWith hook_syncStatus orb negb] in Htrace.
    rewrite bool_decide_eq_false_2 in Htrace by done. cbn [orb] in Htrace.
    unfold tryCatch, refreshAttempt in Htrace. rewrite bind_unfold in Htrace.
    rewrite Hfetch in Htrace. cbn in Htrace. by destruct (fetchDataFromSupabase gw).1. }
  rewrite Hfetch in Hfetch'. injection Hfetch' as <-.
  cbn [fold_left handleEffect hook_data hook_deletedIds].
  split.
  - rewrite constructData_clientIds. unfold mergeTables. cbv zeta. cbn [fst flat_clients].
    change (map client_id ?l) with (map getPk l).
    apply merged_keys_iff. split; [split; [done|]|].
    + rewrite elem_of_list_to_set. intros Hin.
      apply list_elem_of_fmap in Hin as (d & Heq & Hd). by apply (Hlog d).
    + right. apply list_elem_of_fmap. by exists r.
  - cbn. apply elem_of_app. right. apply list_elem_of_here.
Qed.

Lemma refresh_restores_deleted_client_witness :
  let s1 := deleteClient "c1" sampleHook in
  let s2 := afterFetchAndRefresh holdsSampleClient (Some "u1") true false s1 in
  ("c1" ∉ clientIdsOf (hook_data s1)) ∧
  "c1" ∈ clientIdsOf (hook_data s2) ∧
  "c1" ∈ deleted_clients (hook_deletedIds s2).
Proof.
  apply (refresh_restores_deleted_client holdsSampleClient "u1" sampleHook
           sampleClientOnly (client_row sampleClient)).
  - discriminate.
  - reflexivity.
  - apply list_elem_of_here.
  - discriminate.
  - intros d Hd. by apply elem_of_nil in Hd.
Defined.

(** The snapshot after a trace is the one from before or one that the
    trace publishes. *)
Lemma hook_data_after trace (s : HookState) :
  hook_data (fold_left handleEffect trace s) = hook_data s
  ∨ ∃ mergedData, OnDataSynced mergedData ∈ trace ∧
                  hook_data (fold_left handleEffect trace s) = mergedData.
Proof.
  revert s. induction trace as [|e trace IH]; intros s; [by left|].
  cbn [fold_left]. destruct (IH (handleEffect s e)) as [Hsame|(md & Hin & Heq)].
  - rewrite Hsame. destruct e; cbn [handleEffect hook_data]; try by left.
    right. eexists. split; [apply list_elem_of_here | done].
  - right. exists md. split; [by apply list_elem_of_further | done].
Qed.

Lemma deletedKeysOf_pending remoteDeletions deletedIds t ids id :
  (t, ids) ∈ deletedIdsEntries deletedIds → id ∈ ids →
  deletionKey t id ∈ deletedKeysOf remoteDeletions deletedIds.
Proof. intros Hentry Hid. unfold deletedKeysOf. by apply addEntries_elem with ids. Qed.

(** X20. A client deleted on the device is not brought back by a full
    sync: whatever the remote store holds and answers, and whether the sync
    runs, fails or succeeds, the snapshot after it has no client of that
    id. *)
Theorem deleted_client_stays_deleted (gw : Gateway) (currentUser : option string)
    (online authLoading : bool) (s : HookState) (k : string) :
  k ∉ clientIdsOf
        (hook_data (afterManualSync gw currentUser online authLoading
                      (deleteClient k s))).
Proof.
  unfold afterManualSync.
  set (s1 := deleteClient k s).
  set (p := syncProps s1 currentUser online authLoading).
  destruct (hook_data_after (manualSync gw p).1 s1) as [->|(md & Hin & ->)].
  { apply deleteClient_clientIds. }
  apply manualSync_publishes in Hin as (remoteFlatData & upserted & _ & ->).
  rewrite constructData_clientIds.
  change (map client_id ?l) with (map getPk l).
  change (map getPk (flat_clients ?fd)) with (tableKeys fd "clients").
  rewrite refreshTables_keys. unfold reconcile.
  apply mergeTables_clean.
  apply deletedKeysOf_pending with (deleted_clients (hook_deletedIds s1)).
  - apply list_elem_of_here.
  - cbn. apply elem_of_app. right. apply list_elem_of_here.
Qed.

(** ** A pending row deletion and the full sync *)

Lemma flatDeletes_queued key id prev :
  flatDeletes (queueDeletion key id prev) (deletedTable key)
  = flatDeletes prev (deletedTable key) ++ [id].
Proof. by destruct key. Qed.

Lemma anyFlatDeletes_elem deletedIds table id :
  id ∈ flatDeletes deletedIds table → anyFlatDeletes deletedIds = true.
Proof.
  intros Hid. destruct (anyFlatDeletes deletedIds) eqn:Hany; [done|].
  rewrite flatDeletes_none in Hid by done. by apply elem_of_nil in Hid.
Qed.

(** The trace of a full sync that gets to its deletion push with a row
    deletion pending: the status changes, the removal of the queued blobs,
    and the change to the error state with the message of the
    TypeError. *)
Lemma pending_deletion_trace gw (s : HookState) currentUser remoteFlatData :
  hook_syncStatus s ≠ syncing →
  success (checkSupabaseSchema gw) = true →
  (fetchDataFromSupabase gw).2 = inr remoteFlatData →
  anyFlatDeletes (hook_deletedIds s) = true →
  (manualSync gw (syncProps s (Some currentUser) true false)).1
  = (SetStatus syncing (Some "جاري التحقق من حالة السحابة...")
       :: SetStatus syncing (Some "جاري جلب البيانات والتغييرات...")
       :: (removeDocumentPaths gw (hook_deletedIds s)).1
       ++ [SetStatus syncing (Some "جاري إرسال عمليات الحذف...")])
    ++ [SetStatus error (Some (message catchTypeError))].
Proof.
  intros Hstatus Hschema Hfetch Hany.
  pose proof (syncExchange_push_fails gw
                (syncProps s (Some currentUser) true false) currentUser
                remoteFlatData catchTypeError Hfetch Hany) as Hexchange.
  rewrite manualPush_run, (schema_passed_client gw Hschema) in Hexchange.
  cbn [syncProps deletedIds] in Hexchange. rewrite Hany in Hexchange.
  specialize (Hexchange eq_refl).
  rewrite manualSync_passes by done.
  unfold syncAttempt. rewrite Hexchange. reflexivity.
Qed.

(** X21. What a delete mutator queues does not reach the remote store,
    and it keeps the full syncs that follow from succeeding. The next full
    sync that runs, passes the schema probe and fetches stops at its
    deletion push: apart from the removal of the queued blobs it sends no
    request that changes the remote store, it publishes nothing, and it
    ends in the error state with the message of the TypeError. The
    snapshot and the pending deletions are as the mutator left them, and
    a further full sync leaves the hook in the same state. *)
Theorem queued_deletion_blocks_sync (gw : Gateway) (s : HookState)
    (currentUser : string) (update : AppData → AppData) (key : DeletedKey)
    (id : string) (remoteFlatData : FlatData) :
  hook_syncStatus s ≠ syncing →
  success (checkSupabaseSchema gw) = true →
  (fetchDataFromSupabase gw).2 = inr remoteFlatData →
  let s1 := deleteWith update key id s in
  let run := manualSync gw (syncProps s1 (Some currentUser) true false) in
  let s2 := afterManualSync gw (Some currentUser) true false s1 in
  id ∈ flatDeletes (hook_deletedIds s1) (deletedTable key) ∧
  (∀ e, e ∈ run.1 →
        publishes e = false ∧
        (remoteWrite e = true →
         e = StorageRemove (deleted_documentPaths (hook_deletedIds s1)))) ∧
  hook_syncStatus s2 = error ∧
  hook_lastSyncError s2 = Some (message catchTypeError) ∧
  hook_data s2 = hook_data s1 ∧
  hook_deletedIds s2 = hook_deletedIds s1 ∧
  afterManualSync gw (Some currentUser) true false s2 = s2.
Proof.
  intros Hstatus Hschema Hfetch s1 run s2.
  assert (id ∈ flatDeletes (hook_deletedIds s1) (deletedTable key)) as Hid.
  { cbn [s1 deleteWith hook_deletedIds]. rewrite flatDeletes_queued.
    apply elem_of_app. right. apply list_elem_of_here. }
  pose proof (anyFlatDeletes_elem _ _ _ Hid) as Hany.
  assert (∀ s0 : HookState,
            hook_syncStatus s0 ≠ syncing →
            anyFlatDeletes (hook_deletedIds s0) = true →
            let s' := afterManualSync gw (Some currentUser) true false s0 in
            hook_syncStatus s' = error ∧
            hook_lastSyncError s' = Some (message catchTypeError) ∧
            hook_data s' = hook_data s0 ∧
            hook_deletedIds s' = hook_deletedIds s0) as Hblocked.
  { intros s0 Hstatus0 Hany0 s'. unfold s', afterManualSync.
    rewrite (pending_deletion_trace gw s0 currentUser remoteFlatData) by done.
    assert (quiet (SetStatus syncing (Some "جاري التحقق من حالة السحابة...")
                     :: SetStatus syncing (Some "جاري جلب البيانات والتغييرات...")
                     :: (removeDocumentPaths gw (hook_deletedIds s0)).1
                     ++ [SetStatus syncing (Some "جاري إرسال عمليات الحذف...")]))
      as Hquiet.
    { intros e He. repeat (apply elem_of_cons in He as [->|He]; [done|]).
      apply elem_of_app in He as [He|He].
      - by apply removeDocumentPaths_requests in He as ->.
      - by apply list_elem_of_singleton in He as ->. }
    destruct (quiet_then_error _ s0 (message catchTypeError) Hquiet)
      as (Hdata & Hdel & Hst & Herr).
    done. }
  destruct (Hblocked s1 Hstatus Hany) as (Hst & Herr & Hdata & Hdel).
  fold s2 in Hst, Herr, Hdata, Hdel.
  split; [done|]. split; [|split; [done|split; [done|split; [done|split; [done|]]]]].
  - intros e He. unfold run in He.
    rewrite (pending_deletion_trace gw s1 currentUser remoteFlatData) in He
      by done.
    apply elem_of_app in He as [He|He];
      [|by apply list_elem_of_singleton in He as ->].
    repeat (apply elem_of_cons in He as [->|He]; [done|]).
    apply elem_of_app in He as [He|He].
    + by apply removeDocumentPaths_requests in He as ->.
    + by apply list_elem_of_singleton in He as ->.
  - destruct (Hblocked s2) as (Hst' & Herr' & Hdata' & Hdel').
    + by rewrite Hst.
    + by rewrite Hdel.
    + destruct (afterManualSync gw (Some currentUser) true false s2), s2.
      cbn in *. congruence.
Qed.

Lemma queued_deletion_blocks_sync_witness :
  let s1 := deleteCase "k1" "c1" sampleHook in
  let run := manualSync healthyGateway (syncProps s1 (Some "u1") true false) in
  let s2 := afterManualSync healthyGateway (Some "u1") true false s1 in
  "k1" ∈ flatDeletes (hook_deletedIds s1) "cases" ∧
  (∀ e, e ∈ run.1 →
        publishes e = false ∧
        (remoteWrite e = true →
         e = StorageRemove (deleted_documentPaths (hook_deletedIds s1)))) ∧
  hook_syncStatus s2 = error ∧
  hook_lastSyncError s2 = Some (message catchTypeError) ∧
  hook_data s2 = hook_data s1 ∧
  hook_deletedIds s2 = hook_deletedIds s1 ∧
  afterManualSync healthyGateway (Some "u1") true false s2 = s2.
Proof.
  apply (queued_deletion_blocks_sync healthyGateway sampleHook "u1" _ KCases
           "k1" emptyFlatData).
  - discriminate.
  - reflexivity.
  - reflexivity.
Defined.

(** ** The schema probe *)

Lemma readProbes_success (probe : string → ProbeOutcome) (tables : list string) :
  success (readProbes (map (λ table, (table, probe table)) tables)) = true ↔
  ∀ t, t ∈ tables → probe t = ProbeOk.
Proof.
  induction tables as [|t tables IH]; cbn [map readProbes].
  - split; [by intros _ t ?%elem_of_nil | done].
  - destruct (probe t) as [|message code] eqn:Hprobe.
    + rewrite IH. split.
      * intros Hall t' Ht'. apply elem_of_cons in Ht' as [->|?]; [done|].
        by apply Hall.
      * intros Hall t' Ht'. by apply Hall, list_elem_of_further.
    + split.
      * by destruct (tableMissing message code).
      * intros Hall. specialize (Hall t (list_elem_of_here _ _)). congruence.
Qed.

Lemma readProbes_passed (results : list (string * ProbeOutcome)) :
  success (readProbes results) = true →
  readProbes results
  = {| success := true; check_error := None; check_message := "" |}.
Proof.
  induction results as [|[t [|message code]] results IH]; cbn [readProbes];
    [done | done |].
  by destruct (tableMissing message code).
Qed.

Lemma readProbes_first_failure (probe : string → ProbeOutcome)
    (pre post : list string) t message code :
  (∀ t', t' ∈ pre → probe t' = ProbeOk) →
  probe t = ProbeError message code →
  readProbes (map (λ table, (table, probe table)) (pre ++ t :: post))
  = if tableMissing message code
    then {| success := false; check_error := Some "uninitialized";
            check_message := "Missing: " +:+ t +:+ "." |}
    else {| success := false; check_error := Some "unknown";
            check_message := message |}.
Proof.
  intros Hpre Hprobe. induction pre as [|t' pre IH]; cbn [app map readProbes].
  - by rewrite Hprobe.
  - rewrite (Hpre t' (list_elem_of_here _ _)). apply IH.
    intros t'' Ht''. by apply Hpre, list_elem_of_further.
Qed.

Lemma readProbes_error (results : list (string * ProbeOutcome)) :
  check_error (readProbes results) = None
  ∨ check_error (readProbes results) = Some "uninitialized"
  ∨ check_error (readProbes results) = Some "unknown".
Proof.
  induction results as [|[t [|message code]] results IH]; cbn [readProbes];
    [by left | done |].
  destruct (tableMissing message code); [right; by left | right; by right].
Qed.

(** X22. When every request of the schema probe resolves, the probe
    passes exactly when no table reports an error; otherwise the first
    table, in the order of the probe, that reports one decides: an error
    with code 42P01, or whose message in lower case has [does not exist]
    or [relation], gives [uninitialized] with the message [Missing:
    <table>.], any other error gives [unknown] with the message of the
    error. A probe that ran never answers [unconfigured]. *)
Theorem probeSchema_first_failure (probe : string → ProbeOutcome) :
  let check := probeSchema None probe in
  (success check = true ↔ ∀ t, t ∈ probedTables → probe t = ProbeOk) ∧
  (success check = true → check_error check = None ∧ check_message check = "") ∧
  (∀ pre t post message code,
     probedTables = pre ++ t :: post →
     (∀ t', t' ∈ pre → probe t' = ProbeOk) →
     probe t = ProbeError message code →
     check = if tableMissing message code
             then {| success := false; check_error := Some "uninitialized";
                     check_message := "Missing: " +:+ t +:+ "." |}
             else {| success := false; check_error := Some "unknown";
                     check_message := message |}) ∧
  check_error check ≠ Some "unconfigured".
Proof.
  cbv zeta. unfold probeSchema. split; [apply readProbes_success|].
  split; [by intros ->%readProbes_passed|]. split.
  - intros pre t post message code -> Hpre Hprobe.
    by apply readProbes_first_failure.
  - by destruct (readProbes_error
                   (map (λ table, (table, probe table)) probedTables))
      as [->|[->| ->]].
Qed.

(** X23. A full sync whose schema probe fails sends no request that
    changes the remote store and publishes nothing: the snapshot and the
    pending deletions stay as they are. It ends in [unconfigured] without
    a message when the probe answers [unconfigured], in [uninitialized]
    when it answers [uninitialized], and in [error] with the message of
    the probe otherwise. *)
Theorem failed_probe_blocks_sync (gw : Gateway) (s : HookState)
    (currentUser : string) :
  hook_syncStatus s ≠ syncing →
  success (checkSupabaseSchema gw) = false →
  let check := checkSupabaseSchema gw in
  let run := manualSync gw (syncProps s (Some currentUser) true false) in
  let s' := afterManualSync gw (Some currentUser) true false s in
  (∀ e, e ∈ run.1 → remoteWrite e = false ∧ publishes e = false) ∧
  hook_data s' = hook_data s ∧ hook_deletedIds s' = hook_deletedIds s ∧
  (hook_syncStatus s', hook_lastSyncError s')
  = (if decide (check_error check = Some "unconfigured")
     then (unconfigured, None)
     else if decide (check_error check = Some "uninitialized")
     then (uninitialized, Some "قاعدة البيانات غير مهيأة.")
     else (error, Some ("فشل الاتصال: " +:+ check_message check))) ∧
  (client_available gw = false → hook_syncStatus s' = unconfigured).
Proof.
  intros Hstatus Hschema check run s'.
  assert (∃ status msg,
            run.1 = [SetStatus syncing (Some "جاري التحقق من حالة السحابة...");
                     SetStatus status msg] ∧
            (status, msg)
            = (if decide (check_error check = Some "unconfigured")
               then (unconfigured, None)
               else if decide (check_error check = Some "uninitialized")
               then (uninitialized, Some "قاعدة البيانات غير مهيأة.")
               else (error, Some ("فشل الاتصال: " +:+ check_message check))))
    as (status & msg & Htrace & Hend).
  { unfold run, manualSync.
    cbn [syncProps syncStatus isAuthLoading isOnline user].
    rewrite bool_decide_eq_false_2 by done. cbn [orb].
    rewrite bind_unfold. cbn [emit fst snd]. rewrite Hschema. fold check.
    repeat case_decide; by eexists _, _. }
  unfold s', afterManualSync. fold run. rewrite Htrace.
  cbn [fold_left handleEffect hook_data hook_deletedIds hook_syncStatus
       hook_lastSyncError].
  split; [|split; [done|split; [done|split; [done|]]]].
  - intros e He. apply elem_of_cons in He as [->|He]; [done|].
    by apply list_elem_of_singleton in He as ->.
  - intros Hclient. unfold check, checkSupabaseSchema in Hend.
    rewrite Hclient in Hend. cbn in Hend. by injection Hend as -> _.
Qed.

Lemma failed_probe_blocks_sync_witness :
  let gw :=
    {| client_available := true;
       schema_probe :=
         probeSchema None
           (λ t, if decide (t = "cases")
                 then ProbeError "relation public.cases does not exist" "42P01"
                 else ProbeOk);
       select_all := inr emptyFlatData; select_deletions := Some [];
       storage_remove := λ _, false; delete_in := λ _ _, None;
       upsert_select := λ _ rows, inr rows |} in
  let s' := afterManualSync gw (Some "u1") true false twoPendingDeletions in
  check_message (checkSupabaseSchema gw) = "Missing: cases." ∧
  hook_syncStatus s' = uninitialized ∧
  hook_deletedIds s' = hook_deletedIds twoPendingDeletions.
Proof.
  intros gw s'. split; [by vm_compute|].
  destruct (failed_probe_blocks_sync gw twoPendingDeletions "u1")
    as (_ & _ & Hpending & Hend & _).
  - discriminate.
  - by vm_compute.
  - split; [|exact Hpending].
    change (hook_syncStatus s')
      with (hook_syncStatus s', hook_lastSyncError s').1.
    unfold s'. rewrite Hend. by vm_compute.
Defined.

(** ** Backup and restore *)

Section AdminBackupFacts.
Context {R : Type}.
Variable select : string → string + option (list R).
Variable upsert : string → list R → option string.

Lemma collectTables_result (tables : list string) :
  match collectTables select tables with
  | inr dump =>
      dump = map (λ t, (t, match select t with
                           | inr data => default [] data
                           | inl _ => []
                           end)) tables ∧
      ∀ t, t ∈ tables → ∃ data, select t = inr data
  | inl e =>
      ∃ pre t post msg,
        tables = pre ++ t :: post ∧
        (∀ t', t' ∈ pre → ∃ data, select t' = inr data) ∧
        select t = inl msg ∧
        message e = "Backup of " +:+ t +:+ " failed: " +:+ msg
  end.
Proof.
  induction tables as [|t tables IH]; cbn [collectTables map].
  { split; [done | by intros t ?%elem_of_nil]. }
  destruct (select t) as [msg|data] eqn:Hselect.
  { exists [], t, tables, msg. split; [done|]. split; [|done].
    by intros t' ?%elem_of_nil. }
  destruct (collectTables select tables) as [e|dump].
  - destruct IH as (pre & t' & post & msg & -> & Hpre & Hfail & Hmsg).
    exists (t :: pre), t', post, msg. split; [done|]. split; [|done].
    intros t'' Ht''. apply elem_of_cons in Ht'' as [->|?]; [by eexists|].
    by apply Hpre.
  - destruct IH as [-> Hall]. split; [done|].
    intros t' Ht'. apply elem_of_cons in Ht' as [->|?]; [by eexists|].
    by apply Hall.
Qed.


Lemma restoreTables_accepted (dump : string → option (list R))
    (tables : list string) :
  (∀ t rows, upsert t rows = None) →
  restoreTables upsert dump tables
  = (omap (λ t, match dump t with
                | Some (r :: rs) => Some (t, r :: rs)
                | _ => None
                end) tables,
     inr ()).
Proof.
  intros Hok. induction tables as [|t tables IH]; [done|].
  cbn [restoreTables omap list_omap].
  destruct (dump t) as [[|r rs]|]; try exact IH.
  rewrite Hok, IH. done.
Qed.

Lemma restored_tables (dump : string → option (list R)) (tables : list string) :
  (omap (λ t, match dump t with
              | Some (r :: rs) => Some (t, r :: rs)
              | _ => None
              end) tables).*1
  = List.filter (restorable dump) tables.
Proof.
  induction tables as [|t tables IH]; [done|].
  cbn [omap list_omap List.filter]. unfold restorable at 1.
  destruct (dump t) as [[|r rs]|]; try exact IH.
  cbn [fmap list_fmap fst]. f_equal. exact IH.
Qed.

Lemma dumpGet_collected (tables : list string) (row : string → list R) t :
  t ∈ tables → dumpGet (map (λ t, (t, row t)) tables) t = Some (row t).
Proof.
  unfold dumpGet. induction tables as [|t' tables IH]; [by intros ?%elem_of_nil|].
  cbn [map find fst]. intros Hin. case_bool_decide as Ht; [by subst|].
  apply elem_of_cons in Hin as [->|Hin]; [done | by apply IH].
Qed.

Lemma restore_of_collected (row : string → list R) :
  (∀ t rows, upsert t rows = None) →
  let dump := map (λ t, (t, row t)) backupTables in
  let run := restoreTables upsert (dumpGet dump) restoreOrder in
  run.2 = inr () ∧
  (∀ t rows, (t, rows) ∈ run.1 ↔ (t, rows) ∈ dump ∧ rows ≠ []) ∧
  NoDup run.1.*1.
Proof.
  intros Hok dump run. unfold run.
  rewrite restoreTables_accepted by done. cbn [fst snd]. split; [done|].
  assert (∀ t, t ∈ backupTables → dumpGet dump t = Some (row t)) as Hget.
  { intros t Ht. by apply dumpGet_collected. }
  assert (∀ t, t ∈ restoreOrder ↔ t ∈ backupTables) as Hsame.
  { intros t. unfold restoreOrder, backupTables.
    rewrite !elem_of_cons, !elem_of_nil. tauto. }
  split.
  - intros t rows. unfold dump at 2.
    rewrite list_elem_of_omap, list_elem_of_fmap. split.
    + intros (t' & Ht' & Hsome).
      rewrite Hget in Hsome by by apply Hsame.
      destruct (row t') as [|r rs] eqn:Hrow; [done|].
      injection Hsome as <- <-. split; [|done].
      exists t'. split; [by rewrite Hrow | by apply Hsame].
    + intros [(t' & Heq & Ht') Hne]. injection Heq as -> ->. exists t'.
      split; [by apply Hsame|]. rewrite Hget by done.
      by destruct (row t').
  - rewrite restored_tables.
    apply NoDup_ListNoDup, List.NoDup_filter, NoDup_ListNoDup. unfold restoreOrder.
    repeat (apply NoDup_cons; split); try apply NoDup_nil_2;
      rewrite ?elem_of_cons, ?elem_of_nil; intuition discriminate.
Qed.
End AdminBackupFacts.


(** X25. Without a client the backup throws and asks for nothing. With
    one it returns one entry per table, in the order of its list, holding
    the rows that the select of the table returned, or no rows when it
    returned null; when a select reports an error the backup throws for
    the first such table in that order, with an error that names it, and
    returns no dump. *)
Theorem backup_result {R : Type} (select : string → string + option (list R))
    (client_available : bool) :
  match adminFetchFullDatabase select client_available with
  | inr dump =>
      client_available = true ∧
      dump = map (λ t, (t, match select t with
                           | inr data => default [] data
                           | inl _ => []
                           end)) backupTables ∧
      ∀ t, t ∈ backupTables → ∃ data, select t = inr data
  | inl e =>
      (client_available = false ∧
       message e = "Supabase client not available.") ∨
      ∃ pre t post msg,
        client_available = true ∧
        backupTables = pre ++ t :: post ∧
        (∀ t', t' ∈ pre → ∃ data, select t' = inr data) ∧
        select t = inl msg ∧
        message e = "Backup of " +:+ t +:+ " failed: " +:+ msg
  end.
Proof.
  unfold adminFetchFullDatabase. destruct client_available; [|by left].
  pose proof (collectTables_result select backupTables) as Hrun.
  destruct (collectTables select backupTables) as [e|dump].
  - destruct Hrun as (pre & t & post & msg & Htables & Hpre & Hfail & Hmsg).
    right. by exists pre, t, post, msg.
  - by destruct Hrun as [-> Hall].
Qed.

(** X26. A backup that succeeds can be restored whole: given back to the
    restore, with a remote store that refuses nothing, every table of the
    backup that holds rows is sent once, with the rows of the backup, and
    no other request is made. *)
Theorem backup_then_restore {R : Type}
    (select : string → string + option (list R))
    (upsert : string → list R → option string) (dump : list (string * list R)) :
  adminFetchFullDatabase select true = inr dump →
  (∀ t rows, upsert t rows = None) →
  let run := adminRestoreDatabase upsert true (dumpGet dump) in
  run.2 = inr () ∧
  (∀ t rows, (t, rows) ∈ run.1 ↔ (t, rows) ∈ dump ∧ rows ≠ []) ∧
  NoDup run.1.*1.
Proof.
  intros Hbackup Hok run. unfold run, adminRestoreDatabase.
  pose proof (collectTables_result select backupTables) as Hdump.
  unfold adminFetchFullDatabase in Hbackup. rewrite Hbackup in Hdump.
  destruct Hdump as [-> _].
  by eapply restore_of_collected.
Qed.

Lemma backup_then_restore_witness :
  let select : string → string + option (list string) :=
    λ t, if decide (t = "clients") then inr (Some ["c1"; "c2"])
         else if decide (t = "cases") then inr (Some ["k1"])
         else inr None in
  let upsert : string → list string → option string := λ _ _, None in
  let dump := map (λ t, (t, if decide (t = "clients") then ["c1"; "c2"]
                            else if decide (t = "cases") then ["k1"]
                            else [])) backupTables in
  let run := adminRestoreDatabase upsert true (dumpGet dump) in
  run.2 = inr () ∧
  (∀ t rows, (t, rows) ∈ run.1 ↔ (t, rows) ∈ dump ∧ rows ≠ []) ∧
  NoDup run.1.*1.
Proof.
  intros select upsert dump.
  apply (backup_then_restore select upsert dump); reflexivity.
Defined.

(** ** More on the retention sweep *)

(** X27. Whatever the remote store and the metadata store answer, the
    sweep neither adds nor drops a document: the metadata store and the
    [documents] slice keep their ids in their order, and every entry is as
    it was or is the archived copy of a stored document that was [synced]
    and more than 24 hours old. Offline, or without a client, the sweep
    does nothing. *)
Theorem sweep_keeps_documents (env : SweepEnv) (s : SweepState) :
  let s' := cleanupCloudStorage env s in
  map doc_id (metadataStore s') = map doc_id (metadataStore s) ∧
  map doc_id (documentsState s') = map doc_id (documentsState s) ∧
  (∀ d', d' ∈ metadataStore s' ∨ d' ∈ documentsState s' →
         d' ∈ metadataStore s ∨ d' ∈ documentsState s ∨
         ∃ d, d ∈ metadataStore s ∧ doc_localState d = doc_synced ∧
              sweep_now env - doc_addedAt d > 24 * 60 * 60 * 1000 ∧
              d' = withLocalState archived d) ∧
  (∃ n, removeRequests s'
        = removeRequests s
          ++ map doc_storagePath
               (take n (List.filter (isExpiredDoc (sweep_now env))
                                    (metadataStore s)))) ∧
  (sweep_isOnline env = false ∨ sweep_client env = false → s' = s).
Proof.
  cbv zeta. unfold cleanupCloudStorage.
  assert (∃ n, removeRequests s
               = removeRequests s
                 ++ map doc_storagePath
                      (take n (List.filter (isExpiredDoc (sweep_now env))
                                           (metadataStore s)))) as Hnone.
  { exists 0%nat. by rewrite app_nil_r. }
  destruct (sweep_isOnline env), (sweep_client env); cbn [negb orb];
    try (repeat split; try done; intros d' [?|?]; [by left | right; by left]).
  destruct (sweep_readable env);
    [|repeat split; try done; try (by intros [?|?]);
      intros d' [?|?]; [by left | right; by left]].
  destruct (sweepLoop_local env
              (List.filter (isExpiredDoc (sweep_now env)) (metadataStore s)) s)
    as [-> ->].
  split; [done|]. split; [done|]. split; [|split].
  - intros d' [?|?]; [by left | right; by left].
  - apply sweepLoop_requests.
  - by intros [?|?].
Qed.

(** X28. The sweep archives nothing: whatever the remote store answers,
    the metadata store and the [documents] slice are after the sweep what
    they were before it. It asks for the removal of the blobs of the
    expired documents in the order of the store, goes on after a removal
    that reports an error other than a 404, and ends with the first removal
    that reports no error or a 404, or that rejects: the documents after
    that one are not visited. *)
Theorem sweep_archives_nothing (env : SweepEnv) (s : SweepState) :
  let s' := cleanupCloudStorage env s in
  let expiredDocs :=
    List.filter (isExpiredDoc (sweep_now env)) (metadataStore s) in
  let refused doc :=
    ∃ code, sweep_remove env (doc_storagePath doc) = RemoveFailed code
            ∧ code ≠ "404" in
  metadataStore s' = metadataStore s ∧
  documentsState s' = documentsState s ∧
  (sweeps env →
   (∀ pre doc post,
      expiredDocs = pre ++ doc :: post →
      (∀ d, d ∈ pre → refused d) →
      removalTolerated (sweep_remove env (doc_storagePath doc)) = true
      ∨ sweep_remove env (doc_storagePath doc) = RemoveRejected →
      removeRequests s'
      = removeRequests s ++ map doc_storagePath (pre ++ [doc])) ∧
   ((∀ d, d ∈ expiredDocs → refused d) →
    removeRequests s'
    = removeRequests s ++ map doc_storagePath expiredDocs)).
Proof.
  cbv zeta. unfold cleanupCloudStorage.
  split; [|split].
  - destruct (negb (sweep_isOnline env) || negb (sweep_client env)); [done|].
    destruct (sweep_readable env); [|done]. apply sweepLoop_local.
  - destruct (negb (sweep_isOnline env) || negb (sweep_client env)); [done|].
    destruct (sweep_readable env); [|done]. apply sweepLoop_local.
  - intros (-> & -> & ->). cbn [negb orb]. split.
    + intros pre doc post -> Hpre Hstop. by apply sweepLoop_requests_stop.
    + intros Hall. by apply sweepLoop_requests_all.
Qed.

(** ** The assistants list *)

Lemma uniqueNames_idem (names : list string) :
  uniqueNames ∅ (uniqueNames ∅ names) = uniqueNames ∅ names.
Proof.
  apply uniqueNames_fresh; [apply uniqueNames_NoDup|].
  intros n _. apply not_elem_of_empty.
Qed.

(** X29. The validated list of assistants has no duplicate and no blank
    name, always ends up holding the name that stands for no assignment,
    and holds besides it only strings of the list it was given; validating
    it again changes nothing. What is not an array is replaced by the
    default list. *)
Theorem validateAssistantsList_valid (loaded : option (list (option string))) :
  let valid := validateAssistantsList loaded in
  NoDup valid ∧ "بدون تخصيص" ∈ valid ∧
  (∀ n, n ∈ valid → isBlank n = false) ∧
  (∀ items n, loaded = Some items → n ∈ valid →
              n = "بدون تخصيص" ∨ Some n ∈ items) ∧
  validateAssistantsList (Some (map Some valid)) = valid ∧
  (loaded = None → valid = defaultAssistants).
Proof.
  cbv zeta. destruct loaded as [items|]; cbn [validateAssistantsList].
  - set (strings := omap _ items).
    assert (∀ n, n ∈ strings ↔ Some n ∈ items ∧ isBlank n = false) as Hstrings.
    { intros n. unfold strings. rewrite list_elem_of_omap. split.
      - intros ([s|] & Hin & Hsome); [|done].
        destruct (isBlank s) eqn:Hblank; [done|]. by injection Hsome as <-.
      - intros [Hin Hblank]. exists (Some n). by rewrite Hblank. }
    assert (∀ n, n ∈ uniqueNames ∅ (strings ++ ["بدون تخصيص"]) →
                 isBlank n = false) as Hnonblank.
    { intros n Hn. apply uniqueNames_elem in Hn as [Hn _].
      apply elem_of_app in Hn as [Hn|Hn]; [by apply Hstrings in Hn as [_ ?]|].
      apply list_elem_of_singleton in Hn as ->. by vm_compute. }
    split; [apply uniqueNames_NoDup|]. split; [|split; [done|split; [|split]]].
    + apply uniqueNames_elem. split; [|apply not_elem_of_empty].
      apply elem_of_app. right. apply list_elem_of_here.
    + intros items' n [= <-] Hn. apply uniqueNames_elem in Hn as [Hn _].
      apply elem_of_app in Hn as [Hn|Hn].
      * right. by apply Hstrings in Hn as [? _].
      * left. by apply list_elem_of_singleton in Hn.
    + set (valid := uniqueNames ∅ (strings ++ ["بدون تخصيص"])) in *.
      assert (omap (λ item, match item with
                            | Some s => if isBlank s then None else Some s
                            | None => None
                            end) (map Some valid) = valid) as ->.
      { clearbody valid. induction valid as [|n valid IH]; [done|].
        cbn [map omap list_omap].
        rewrite (Hnonblank n (list_elem_of_here _ _)). f_equal. apply IH.
        intros n' Hn'. by apply Hnonblank, list_elem_of_further. }
      assert ("بدون تخصيص" ∈ valid) as Hin.
      { apply uniqueNames_elem. split; [|apply not_elem_of_empty].
        apply elem_of_app. right. apply list_elem_of_here. }
      assert (NoDup valid) as Hnd by apply uniqueNames_NoDup.
      clearbody valid. clear -Hin Hnd.
      assert (∀ seen, (∀ n, n ∈ valid → n ∉ seen) →
                      "بدون تخصيص" ∈ valid ∨ "بدون تخصيص" ∈ seen →
                      uniqueNames seen (valid ++ ["بدون تخصيص"]) = valid) as Hgo.
      { clear Hin. induction Hnd as [|n valid Hfresh Hnd IH]; intros seen Hnew Hhas.
        - destruct Hhas as [?%elem_of_nil|Hseen]; [done|].
          cbn. by rewrite decide_True.
        - cbn [app uniqueNames].
          rewrite decide_False by apply Hnew, list_elem_of_here.
          f_equal. apply IH.
          + intros n' Hn'. rewrite elem_of_union, elem_of_singleton.
            intros [->|Hseen]; [done|].
            by apply (Hnew n'); [apply list_elem_of_further|].
          + destruct Hhas as [[->|?]%elem_of_cons|?].
            * right. apply elem_of_union. left. by apply elem_of_singleton.
            * by left.
            * right. apply elem_of_union. by right. }
      apply Hgo; [|by left]. intros n _. apply not_elem_of_empty.
    + done.
  - split.
    { unfold defaultAssistants.
      repeat (apply NoDup_cons; split); try apply NoDup_nil_2;
        rewrite ?elem_of_cons, ?elem_of_nil; intuition discriminate. }
    split.
    { unfold defaultAssistants.
      repeat first [apply list_elem_of_here | apply list_elem_of_further]. }
    split.
    { intros n Hn. unfold defaultAssistants in Hn.
      repeat (apply elem_of_cons in Hn as [->|Hn]; [by vm_compute|]).
      by apply elem_of_nil in Hn. }
    split; [done|]. split; [by vm_compute | done].
Qed.
